(** * GramDominator ingestion worker: circuit breakers, acquisition
      fallback, batch normalisation, tag quota and pipeline results.

    A shallow embedding of [src/worker/tiktok.ts] and of the pipeline part
    of the worker entry point ([runPipeline], [normalizeTrends],
    [shouldTag], [parseTagLimit]), with the properties of the written
    specification stated and proved over it. *)

From Stdlib Require Import Ascii String QArith Qround Lqa.
From Stdlib Require Import Sorting.Sorted Sorting.Permutation.
From stdpp Require Import gmap strings list fin_maps pretty sorting.

Open Scope Z_scope.

(** ** JavaScript numbers

    A JS [number] is NaN, an infinity, or a finite value.  Finite values are
    kept as exact rationals: every finite double is one, and the arithmetic
    used by the worker (index + 1, a difference whose sign is all that is
    read, a comparison with 0 and with 50) is exact on the values involved.
    The sign of zero is not modelled. *)

Inductive number : Type :=
| NaN
| Infinity (negative : bool)
| Num (q : Q).

Definition ofZ (z : Z) : number := Num (inject_Z z).
Definition ofNat (n : nat) : number := ofZ (Z.of_nat n).

(** [Number.isFinite] *)
Definition isFinite (n : number) : bool :=
  match n with Num _ => true | _ => false end.

(** [a - b] *)
Definition jsSub (a b : number) : number :=
  match a, b with
  | NaN, _ | _, NaN => NaN
  | Infinity s, Infinity s' => if Bool.eqb s s' then NaN else Infinity s
  | Infinity s, Num _ => Infinity s
  | Num _, Infinity s => Infinity (negb s)
  | Num x, Num y => Num (x - y)
  end.

(** [a <= 0] *)
Definition jsLeZero (a : number) : bool :=
  match a with
  | NaN => false
  | Infinity s => s
  | Num q => Qle_bool q 0
  end.

(** [a < b] for a finite left operand held as an integer counter *)
Definition counterLt (c : nat) (b : number) : bool :=
  match b with
  | NaN => false
  | Infinity s => negb s
  | Num q => negb (Qle_bool q (inject_Z (Z.of_nat c)))
  end.

(** [Math.min(a, b)] *)
Definition jsMin (a b : number) : number :=
  match a, b with
  | NaN, _ | _, NaN => NaN
  | Infinity true, _ | _, Infinity true => Infinity true
  | Infinity false, y => y
  | x, Infinity false => x
  | Num x, Num y => if Qle_bool x y then Num x else Num y
  end.

(** A JS value is truthy unless it is [0], [NaN], the empty string, [null]
    or [undefined]; on numbers: *)
Definition truthyNumber (n : number) : bool :=
  match n with
  | NaN => false
  | Infinity _ => true
  | Num q => negb (Qeq_bool q 0)
  end.

(** The order of the extended rationals; NaN is related to nothing. *)
Definition numLe (a b : number) : Prop :=
  match a, b with
  | NaN, _ | _, NaN => False
  | Infinity true, _ => True
  | _, Infinity false => True
  | Infinity false, _ => False
  | _, Infinity true => False
  | Num x, Num y => (x <= y)%Q
  end.

(** ** Trend items ([worker/types], as used by both modules) *)

Record TrendItem : Type := mkTrendItem {
  id : string;
  rank : number;
  title : string;
  author : string;
  play_count : number;
  cover_url : string;
}.

(** [{ ...item, rank: r }] *)
Definition withRank (r : number) (item : TrendItem) : TrendItem :=
  {| id := id item; rank := r; title := title item; author := author item;
     play_count := play_count item; cover_url := cover_url item |}.

(** [items.map((item, idx) => ({ ...item, rank: idx + 1 }))] *)
Definition rerank (items : list TrendItem) : list TrendItem :=
  imap (fun idx item => withRank (ofNat (idx + 1)) item) items.

(** ** [Map<string, V>] with its insertion order

    [normalizeTrends] reads the map back with [values()], which iterates in
    insertion order, so the map is an association list kept in that order. *)

Definition JSMap (V : Type) : Type := list (string * V).

Definition Map_has {V} (k : string) (m : JSMap V) : bool :=
  existsb (fun e => String.eqb (fst e) k) m.

Definition Map_set {V} (k : string) (v : V) (m : JSMap V) : JSMap V :=
  if Map_has k m
  then map (fun e => if String.eqb (fst e) k then (k, v) else e) m
  else m ++ [(k, v)].

Definition Map_values {V} (m : JSMap V) : list V := map snd m.

(** ** [Array.prototype.sort(comparefn)]

    The engine of the worker is V8, whose sort is TimSort, and a comparator
    result that is NaN counts as 0.  The arrays the worker sorts hold at
    most 50 items (every source stops at [MAX_ITEMS]).  On an array of
    fewer than 64 elements TimSort's minimal run length is the length of
    the array: the sort is one call of [CountAndMakeRun], which finds the
    run the array starts with and reverses it when it is strictly
    descending, and one call of [BinaryInsertionSort], which inserts the
    rest of the array into that run; no runs are merged.  That path is
    what is written here, for an array of any length.  On a longer array
    V8 makes runs of 32 to 64 elements in this way and merges them: the
    result is the same when the comparator is consistent (the stable sort
    of an array is unique) and is not modelled when it is not. *)

(** The sign of what the comparator returned, NaN counting as 0. *)
Definition sortCompare (v : number) : comparison :=
  match v with
  | NaN => Eq
  | Infinity s => if s then Lt else Gt
  | Num q => (q ?= 0)%Q
  end.

(** [order < 0] on what the comparator returned *)
Definition orderNegative (v : number) : bool :=
  match sortCompare v with
  | Lt => true
  | _ => false
  end.

(** The loop of [CountAndMakeRun]: the number of elements of [rest] that
    continue the run ending in [previousElement]. *)
Fixpoint runTail {A} (comparefn : A -> A -> number) (isDescending : bool)
    (previousElement : A) (rest : list A) : nat :=
  match rest with
  | [] => 0
  | currentElement :: rest' =>
      let order := comparefn currentElement previousElement in
      if Bool.eqb isDescending (orderNegative order)
      then S (runTail comparefn isDescending currentElement rest')
      else 0
  end.

(** [CountAndMakeRun(0, length)]: the length of the run the array starts
    with, and the array with that run reversed when it is descending. *)
Definition CountAndMakeRun {A} (comparefn : A -> A -> number)
    (workArray : list A) : nat * list A :=
  match workArray with
  | elementHigh :: elementLow :: rest =>
      let isDescending := orderNegative (comparefn elementLow elementHigh) in
      let runLength :=
        (2 + runTail comparefn isDescending elementLow rest)%nat in
      (runLength,
       if isDescending
       then rev (take runLength workArray) ++ drop runLength workArray
       else workArray)
  | _ => (length workArray, workArray)
  end.

(** The [while (left < right)] loop of [BinaryInsertionSort]; every turn
    shrinks the interval, so [right - left] turns are enough. *)
Fixpoint insertionPoint {A} (comparefn : A -> A -> number) (pivot : A)
    (workArray : list A) (turns left right : nat) : nat :=
  match turns with
  | O => left
  | S turns' =>
      if (left <? right)%nat
      then
        let mid := (left + (right - left) / 2)%nat in
        match workArray !! mid with
        | Some element =>
            if orderNegative (comparefn pivot element)
            then insertionPoint comparefn pivot workArray turns' left mid
            else insertionPoint comparefn pivot workArray turns' (mid + 1) right
        | None => left
        end
      else left
  end.

(** [BinaryInsertionSort(0, start, length)] on the array
    [sorted ++ rest], where [start] is the length of [sorted]. *)
Fixpoint BinaryInsertionSort {A} (comparefn : A -> A -> number)
    (sorted rest : list A) : list A :=
  match rest with
  | [] => sorted
  | pivot :: rest' =>
      let start := length sorted in
      let left := insertionPoint comparefn pivot sorted start 0 start in
      BinaryInsertionSort comparefn
        (take left sorted ++ pivot :: drop left sorted) rest'
  end.

(** [ArrayTimSortImpl] with the whole array as its one run; an array of
    fewer than two elements is returned at once. *)
Definition Array_sort {A} (comparefn : A -> A -> number) (l : list A)
  : list A :=
  if (length l <? 2)%nat then l
  else
    let '(currentRunLength, workArray) := CountAndMakeRun comparefn l in
    BinaryInsertionSort comparefn (take currentRunLength workArray)
      (drop currentRunLength workArray).

(** ** [normalizeTrends] *)

(** [(a, b) => a.rank - b.rank] *)
Definition rankCompare (a b : TrendItem) : number := jsSub (rank a) (rank b).

Definition dedupeStep (deduped : JSMap TrendItem) (item : TrendItem)
  : JSMap TrendItem :=
  if negb (Map_has (id item) deduped)
  then Map_set (id item) item deduped
  else deduped.

Definition normalizeTrends (items : list TrendItem) : list TrendItem :=
  let deduped := fold_left dedupeStep items [] in
  imap (fun index item => withRank (ofNat (index + 1)) item)
    (take 50
       (Array_sort rankCompare (Map_values deduped))).

(** Ascending order of rank. *)
Definition byRank (a b : TrendItem) : Prop := numLe (rank a) (rank b).

(** Strictly below in rank. *)
Definition below (a b : TrendItem) : Prop :=
  byRank a b /\ ~ byRank b a.

(** [a === b] on numbers *)
Definition sameNumber (a b : number) : bool :=
  match a, b with
  | Num x, Num y => Qeq_bool x y
  | Infinity s, Infinity s' => Bool.eqb s s'
  | _, _ => false
  end.

(** The items of a given rank. *)
Definition ofRank (r : number) (items : list TrendItem) : list TrendItem :=
  List.filter (fun item => sameNumber (rank item) r) items.

(** Every key of the map under construction is the id of its value. *)
Definition keyed (m : JSMap TrendItem) : Prop :=
  Forall (fun e => fst e = id (snd e)) m.

(** The first item of [items] carrying a given id. *)
Definition firstWithId (k : string) (items : list TrendItem)
  : option TrendItem :=
  List.find (fun x => String.eqb (id x) k) items.

Definition ex_a : TrendItem :=
  mkTrendItem "a" (ofZ 3) "Song A" "Artist A" (ofZ 100) EmptyString.
Definition ex_b : TrendItem :=
  mkTrendItem "b" (ofZ 1) "Song B" "Artist B" (ofZ 50) EmptyString.

(** A batch with the ranks 2, NaN and 1, in that order. *)
Definition ex_two : TrendItem :=
  mkTrendItem "p" (ofZ 2) "Unknown" "Unknown" (ofZ 0) EmptyString.
Definition ex_nan : TrendItem :=
  mkTrendItem "q" NaN "Unknown" "Unknown" (ofZ 0) EmptyString.
Definition ex_one : TrendItem :=
  mkTrendItem "r" (ofZ 1) "Unknown" "Unknown" (ofZ 0) EmptyString.

(** ** Circuit breaker ([tiktok.ts])

    Times are epoch milliseconds.  The functions mutate the breaker they are
    given; here they return the breaker after the call.  [now] is the
    reading of [Date.now()]; [recordCircuitFailure] reads it a second time
    ([later]) when it opens the breaker. *)

Definition MAX_ITEMS : nat := 50.
Definition MAX_RETRIES : nat := 3.
Definition INITIAL_RETRY_DELAY : Z := 1000.
Definition CIRCUIT_THRESHOLD : Z := 5.
Definition CIRCUIT_TIMEOUT : Z := 300000.

Record CircuitBreakerState : Type := mkBreaker {
  isOpen : bool;
  failureCount : Z;
  lastFailureTime : Z;
  nextAttemptTime : Z;
}.

(** The initial value of [puppeteerBreaker] and of [proxyGridBreaker]. *)
Definition initialBreaker : CircuitBreakerState := mkBreaker false 0 0 0.

Definition calculateRetryDelay (attempt : Z) : Z :=
  Z.min (INITIAL_RETRY_DELAY * 2 ^ attempt) 10000.

Definition canExecuteCircuit (now : Z) (breaker : CircuitBreakerState)
  : bool * CircuitBreakerState :=
  if negb (isOpen breaker) then (true, breaker)
  else if nextAttemptTime breaker <=? now
       then (true, mkBreaker false 0 (lastFailureTime breaker)
                     (nextAttemptTime breaker))
       else (false, breaker).

Definition recordCircuitSuccess (breaker : CircuitBreakerState)
  : CircuitBreakerState :=
  mkBreaker false 0 (lastFailureTime breaker) (nextAttemptTime breaker).

Definition recordCircuitFailure (now later : Z)
    (breaker : CircuitBreakerState) : CircuitBreakerState :=
  let count := failureCount breaker + 1 in
  if CIRCUIT_THRESHOLD <=? count
  then mkBreaker true count now (later + CIRCUIT_TIMEOUT)
  else mkBreaker (isOpen breaker) count now (nextAttemptTime breaker).

(** Consecutive calls of [recordCircuitFailure], one per entry of [times],
    which holds the two clock readings of that call. *)
Definition recordFailures (times : list (Z * Z))
    (breaker : CircuitBreakerState) : CircuitBreakerState :=
  fold_left (fun b t => recordCircuitFailure (fst t) (snd t) b) times breaker.

(** A call whose two clock readings are the same instant. *)
Definition at_ (t : Z) : Z * Z := (t, t).

(** ** Values read from a parsed response

    [response.json()] yields a JSON value; the parser reads it through
    property access, [??], [String(...)] and [Number(...)].  The two
    conversions between strings and numbers are the language's own and are
    taken from the runtime. *)

Inductive Outcome (A : Type) : Type :=
| Resolved (a : A)
| Rejected (error : string).
Arguments Resolved {A} a.
Arguments Rejected {A} error.

Class JSRuntime : Type := {
  (** [Number(s)] on a string *)
  StringToNumber : string -> number;
  (** [String(n)] on a number *)
  NumberToString : number -> string;
  (** [String.prototype.toLowerCase] *)
  toLowerCase : string -> string;
}.

#[local] Unset Elimination Schemes.
Inductive JSValue : Type :=
| JUndefined
| JNull
| JBool (b : bool)
| JNumber (n : number)
| JString (s : string)
| JArray (elements : list JSValue)
| JObject (properties : list (string * JSValue)).
#[local] Set Elimination Schemes.

(** [a ?? b] *)
Definition nullish (a b : JSValue) : JSValue :=
  match a with
  | JUndefined | JNull => b
  | _ => a
  end.
Infix "??" := nullish (at level 61, left associativity).

(** [v.k]: a TypeError on [null] and [undefined]; on an object the own
    property (the last one when the JSON text repeats a key), otherwise
    [undefined] (none of the names read by the parser is inherited). *)
Definition getProp (v : JSValue) (k : string) : Outcome JSValue :=
  match v with
  | JUndefined | JNull => Rejected "TypeError"
  | JObject properties =>
      match List.find (fun e => String.eqb (fst e) k) (rev properties) with
      | Some e => Resolved (snd e)
      | None => Resolved JUndefined
      end
  | _ => Resolved JUndefined
  end.

(** Sequencing of steps that may throw. *)
Definition andThen {A B} (o : Outcome A) (k : A -> Outcome B) : Outcome B :=
  match o with
  | Resolved a => k a
  | Rejected e => Rejected e
  end.

(** [Object.hasOwn(o, k)] on a parsed object *)
Definition hasOwn (k : string) (properties : list (string * JSValue)) : bool :=
  existsb (fun e => String.eqb (fst e) k) properties.

(** [Array.prototype.join] with a comma, given the conversion of an
    element: [null] and [undefined] give the empty string. *)
Definition join (convert : JSValue -> Outcome string)
  : list JSValue -> Outcome string :=
  fix join (l : list JSValue) : Outcome string :=
    match l with
    | [] => Resolved EmptyString
    | x :: rest =>
        andThen
          match x with
          | JUndefined | JNull => Resolved EmptyString
          | _ => convert x
          end
          (fun e =>
             match rest with
             | [] => Resolved e
             | _ => andThen (join rest) (fun r => Resolved (e +:+ "," +:+ r))
             end)
    end.

Section Conversions.
Context {runtime : JSRuntime}.

(** [String(v)].  An object is converted by its [toString] method.  An
    array joins the conversions of its elements with commas, [null] and
    [undefined] giving the empty string.  A parsed object inherits the
    method that answers "[object Object]", unless it has a key [toString]
    of its own: no parsed value is callable, [valueOf] gives no primitive
    either (its own is not callable, the inherited one returns the
    object), and the conversion throws a TypeError. *)
Fixpoint ToString (v : JSValue) : Outcome string :=
  match v with
  | JUndefined => Resolved "undefined"
  | JNull => Resolved "null"
  | JBool b => Resolved (if b then "true" else "false")
  | JNumber n => Resolved (NumberToString n)
  | JString s => Resolved s
  | JArray elements => join ToString elements
  | JObject properties =>
      if hasOwn "toString" properties then Rejected "TypeError"
      else Resolved "[object Object]"
  end.

(** [Number(v)]; an object is converted through [valueOf], which gives no
    primitive, and then through [toString] as above. *)
Definition ToNumber (v : JSValue) : Outcome number :=
  match v with
  | JUndefined => Resolved NaN
  | JNull => Resolved (ofZ 0)
  | JBool b => Resolved (if b then ofZ 1 else ofZ 0)
  | JNumber n => Resolved n
  | JString s => Resolved (StringToNumber s)
  | JArray _ | JObject _ => andThen (ToString v) (fun s => Resolved (StringToNumber s))
  end.

(** ** [parseTikTokResponse] *)

(** One turn of the [for ... of dataArray.entries()] loop: [None] is
    [continue] (the id was seen), [Some item] the pushed item. *)
Definition parseRecord (index : nat) (record : JSValue) (seen : gset string)
  : Outcome (option TrendItem) :=
  match getProp record "id", getProp record "music_id",
        getProp record "rank",
        getProp record "title", getProp record "name",
        getProp record "author", getProp record "artist",
        getProp record "play_count", getProp record "video_count",
        getProp record "cover_url", getProp record "cover" with
  | Resolved r_id, Resolved r_music_id, Resolved r_rank,
    Resolved r_title, Resolved r_name, Resolved r_author, Resolved r_artist,
    Resolved r_play_count, Resolved r_video_count,
    Resolved r_cover_url, Resolved r_cover =>
      andThen
        (ToString (r_id ?? r_music_id ?? JString ("tiktok-" +:+ pretty index)))
        (fun id =>
      if decide (id ∈ seen) then Resolved None
      else
        andThen (ToNumber (r_rank ?? JNumber (ofNat (index + 1))))
          (fun rank =>
        andThen (ToString (r_title ?? r_name ?? JString "Unknown"))
          (fun title =>
        andThen (ToString (r_author ?? r_artist ?? JString "Unknown"))
          (fun author =>
        andThen (ToNumber (r_play_count ?? r_video_count ?? JNumber (ofZ 0)))
          (fun play_count =>
        andThen (ToString (r_cover_url ?? r_cover ?? JString EmptyString))
          (fun cover_url =>
        Resolved (Some
          {| id := id; rank := rank; title := title; author := author;
             play_count := play_count; cover_url := cover_url |})))))))
  | _, _, _, _, _, _, _, _, _, _, _ => Rejected "TypeError"
  end.

Fixpoint parseLoop (dataArray : list JSValue) (index : nat)
    (items : list TrendItem) (seen : gset string)
  : Outcome (list TrendItem) :=
  match dataArray with
  | [] => Resolved items
  | record :: rest =>
      match parseRecord index record seen with
      | Rejected e => Rejected e
      | Resolved None => parseLoop rest (S index) items seen
      | Resolved (Some item) =>
          let items' := items ++ [item] in
          if decide (MAX_ITEMS <= length items')%nat then Resolved items'
          else parseLoop rest (S index) items' ({[ id item ]} ∪ seen)
      end
  end.

Definition parseTikTokResponse (json : JSValue) : Outcome (list TrendItem) :=
  match getProp json "data" with
  | Rejected e => Rejected e
  | Resolved d =>
      let data := d ?? json in
      let dataArray := match data with JArray l => l | _ => [] end in
      parseLoop dataArray 0 [] ∅
  end.

(** ** [extractPlayCount] ([parseFallbackHtml]) *)

Definition dquote : string := String (ascii_of_nat 34) EmptyString.

Definition isDigit (c : ascii) : bool :=
  let n := nat_of_ascii c in (48 <=? n)%nat && (n <=? 57)%nat.

Fixpoint digitsPrefix (s : string) : string :=
  match s with
  | String c r => if isDigit c then String c (digitsPrefix r) else EmptyString
  | EmptyString => EmptyString
  end.

Fixpoint dropString (n : nat) (s : string) : string :=
  match n, s with
  | S n', String _ r => dropString n' r
  | _, _ => s
  end.

(** [s.match(/key(\d+)/)]: the digits captured by the leftmost match of
    the literal [key] followed by at least one digit. *)
Fixpoint matchDigitsAfter (key s : string) : option string :=
  let here :=
    if String.prefix key s
    then match digitsPrefix (dropString (String.length key) s) with
         | EmptyString => None
         | d => Some d
         end
    else None in
  match here, s with
  | Some d, _ => Some d
  | None, String _ r => matchDigitsAfter key r
  | None, EmptyString => None
  end.

(** [x || 0] on numbers *)
Definition orZero (x : number) : number :=
  if truthyNumber x then x else ofZ 0.

Definition extractPlayCount (snippet : string) : number :=
  let video_count := dquote +:+ "video_count" +:+ dquote +:+ ":" in
  let videoCnt := dquote +:+ "videoCnt" +:+ dquote +:+ ":" in
  let playMatch :=
    match matchDigitsAfter video_count snippet with
    | Some d => Some d
    | None => matchDigitsAfter videoCnt snippet
    end in
  match playMatch with
  | Some d => orZero (StringToNumber d)
  | None => ofZ 0
  end.
End Conversions.

(** ** The worker's surroundings

    The store (D1), the remote browser, the proxy-grid endpoint and the AI
    binding are outside the worker.  Each is given by what it answers: the
    store by its state and the result of each query or batch on it, the two
    scrapers by the time taken and outcome of their n-th call. *)

Module Level.
Inductive t : Type := info | warn | error.
End Level.

Inductive Event : Type :=
| EvLog (level : Level.t) (message : string)
| EvSleep (ms : Z)
| EvAlert (message : string).

Record Env : Type := mkEnv {
  PROXY_GRID_SECRET : option string;
  SLACK_WEBHOOK_URL : option string;
  AI_TAG_LIMIT : option string;
  HASHTAG_API_URL : option string;
  AI : bool;
}.

(** Truthiness of an optional string: [undefined] and the empty string are
    falsy. *)
Definition truthy (s : option string) : bool :=
  match s with
  | Some s => negb (String.eqb s EmptyString)
  | None => false
  end.

Record HistoryRow : Type := mkHistoryRow {
  h_id : string;
  h_play_count : number;
  h_rank : number;
  h_snapshot_at : Z;
}.

Record TagRow : Type := mkTagRow {
  t_id : string;
  t_genre : option string;
  t_vibe : option string;
}.

Record TagResult : Type := mkTagResult {
  genre : string;
  vibe : string;
}.

Inductive Statement : Type :=
| CacheUpsert (item : TrendItem) (updated_at : Z)
| TrendUpsert (item : TrendItem) (growth_rate : number)
    (genre vibe : option string) (updated_at : Z)
| HistoryInsert (id : string) (snapshot_at : Z) (play_count rank : number).

Inductive HashtagResult : Type :=
| HashtagSkipped
| HashtagErrorCode (code : Z)
| HashtagEmpty
| HashtagSuccess (count : nat)
| HashtagErrorMessage (message : string).

Module Status.
Inductive t : Type := success | warning | error.
End Status.

Inductive Source : Type := puppeteer | proxy_grid | stale.

Record PipelineOptions : Type := mkPipelineOptions {
  opt_scheduled : bool;
  opt_manual : bool;
  opt_forceProxyGrid : bool;
  opt_useStaleFallback : bool;
}.

Record PipelineResult : Type := mkPipelineResult {
  status : Status.t;
  message : option string;
  count : nat;
  (** absent, [null], or a title *)
  top_song : option (option string);
  tags_generated : nat;
  hashtag_ingest : option HashtagResult;
  source : option Source;
  duration : option Z;
}.

Class Collaborators : Type := {
  Store : Type;
  (** the SELECT of [getStaleData]; [None] is an absent [results] *)
  selectStale : Store -> Outcome (option (list TrendItem));
  (** the SELECT of [getLatestHistoryMap] for the given ids *)
  selectLatestHistory :
    list string -> Store -> Outcome (option (list HistoryRow));
  (** the SELECT of [getExistingTagMap] for the given ids *)
  selectExistingTags :
    list string -> Store -> Outcome (option (list TagRow));
  (** [env.DB.batch(statements)], atomic *)
  batch : list Statement -> Store -> Outcome Store;
  (** n-th call of [scrapeWithPuppeteer]: time taken, outcome *)
  scrapeWithPuppeteer : nat -> Z * Outcome (list TrendItem);
  (** n-th call of [scrapeWithProxyGrid]: time taken, outcome *)
  scrapeWithProxyGrid : nat -> Z * Outcome (list TrendItem);
  (** classification by the AI binding at the n-th call of the tagger,
      parsed and normalised ([ai.run], [parseAiResponse], [normalizeTags]) *)
  aiClassify : nat -> string -> string -> Outcome TagResult;
  (** the fetch and batch of [maybeIngestHashtags], errors caught *)
  ingestHashtags : Z -> Store -> HashtagResult * Store;
  (** the rank-based score of the growth calculator (previous rank,
      current rank), whose constants the specification leaves open *)
  rankSignal : number -> number -> number;
}.

Section Worker.
Context {runtime : JSRuntime} {world : Collaborators}.

(** The module-level breakers of [tiktok.ts], the store behind [env.DB],
    the clock read by [Date.now()], and what has happened so far: how often
    each scraper and the tagger were called, and the log lines, sleeps and
    alerts in order. *)
Record World : Type := mkWorld {
  clock : Z;
  puppeteerBreaker : CircuitBreakerState;
  proxyGridBreaker : CircuitBreakerState;
  DB : Store;
  puppeteerCalls : nat;
  proxyGridCalls : nat;
  (** calls of [tagAudioWithAI] *)
  tagCalls : nat;
  trace : list Event;
}.

Definition setPuppeteerBreaker (b : CircuitBreakerState) (w : World) : World :=
  mkWorld (clock w) b (proxyGridBreaker w) (DB w) (puppeteerCalls w)
    (proxyGridCalls w) (tagCalls w) (trace w).
Definition setProxyGridBreaker (b : CircuitBreakerState) (w : World) : World :=
  mkWorld (clock w) (puppeteerBreaker w) b (DB w) (puppeteerCalls w)
    (proxyGridCalls w) (tagCalls w) (trace w).
Definition setDB (db : Store) (w : World) : World :=
  mkWorld (clock w) (puppeteerBreaker w) (proxyGridBreaker w) db
    (puppeteerCalls w) (proxyGridCalls w) (tagCalls w) (trace w).
Definition emit (e : Event) (w : World) : World :=
  mkWorld (clock w) (puppeteerBreaker w) (proxyGridBreaker w) (DB w)
    (puppeteerCalls w) (proxyGridCalls w) (tagCalls w) (trace w ++ [e]).
Definition elapse (ms : Z) (w : World) : World :=
  mkWorld (clock w + ms) (puppeteerBreaker w) (proxyGridBreaker w) (DB w)
    (puppeteerCalls w) (proxyGridCalls w) (tagCalls w) (trace w).

(** Computations of the worker: they read and change the world and either
    return or throw. *)
Definition M (A : Type) : Type := World -> Outcome A * World.

Definition ret {A} (a : A) : M A := fun w => (Resolved a, w).
Definition bind {A B} (m : M A) (k : A -> M B) : M B :=
  fun w =>
    match m w with
    | (Resolved a, w') => k a w'
    | (Rejected e, w') => (Rejected e, w')
    end.
Definition tryCatch {A} (m : M A) (handler : string -> M A) : M A :=
  fun w =>
    match m w with
    | (Rejected e, w') => handler e w'
    | r => r
    end.
Definition act (f : World -> World) : M unit := fun w => (Resolved tt, f w).

Notation "x <- m ;; k" := (bind m (fun x => k))
  (at level 100, m at next level, right associativity).
Notation "m ;;; k" := (bind m (fun _ => k))
  (at level 100, right associativity).

Definition logWithContext (level : Level.t) (message : string) : M unit :=
  act (emit (EvLog level message)).

Definition sleep (ms : Z) : M unit :=
  act (fun w => emit (EvSleep ms) (elapse ms w)).

(** [void sendAlert(env, message)]: posts when a webhook is configured;
    a failing post is caught inside [sendAlert]. *)
Definition sendAlert (env : Env) (message : string) : M unit :=
  if negb (truthy (SLACK_WEBHOOK_URL env)) then ret tt
  else act (emit (EvAlert message)).

Inductive BreakerName : Type := Puppeteer | ProxyGrid.

Definition breakerOf (b : BreakerName) (w : World) : CircuitBreakerState :=
  match b with
  | Puppeteer => puppeteerBreaker w
  | ProxyGrid => proxyGridBreaker w
  end.
Definition setBreaker (b : BreakerName) (s : CircuitBreakerState)
  : World -> World :=
  match b with
  | Puppeteer => setPuppeteerBreaker s
  | ProxyGrid => setProxyGridBreaker s
  end.

Definition canExecute (b : BreakerName) : M bool :=
  fun w =>
    let '(ok, s) := canExecuteCircuit (clock w) (breakerOf b w) in
    (Resolved ok, setBreaker b s w).
Definition recordSuccess (b : BreakerName) : M unit :=
  act (fun w => setBreaker b (recordCircuitSuccess (breakerOf b w)) w).
(** [recordCircuitFailure] logs when it opens the breaker. *)
Definition recordFailure (b : BreakerName) : M unit :=
  fun w =>
    let s := recordCircuitFailure (clock w) (clock w) (breakerOf b w) in
    let w' := setBreaker b s w in
    (Resolved tt,
     if CIRCUIT_THRESHOLD <=? failureCount s
     then emit (EvLog Level.warn "Circuit breaker opened") w'
     else w').

Definition getStaleData : M (list TrendItem) :=
  fun w =>
    match selectStale (DB w) with
    | Resolved (Some results) => (Resolved results, w)
    | Resolved None => (Resolved [], w)
    | Rejected _ => (Resolved [], w)
    end.

Definition cacheResults (data : list TrendItem) : M unit :=
  fun w =>
    let timestamp := clock w in
    let statements := map (fun item => CacheUpsert item timestamp) data in
    if (0 <? length statements)%nat
    then match batch statements (DB w) with
         | Resolved db' => (Resolved tt, setDB db' w)
         | Rejected _ =>
             (Resolved tt,
              emit (EvLog Level.error "Failed to cache results") w)
         end
    else (Resolved tt, w).

Definition callPuppeteer : M (list TrendItem) :=
  fun w =>
    let '(took, outcome) := scrapeWithPuppeteer (puppeteerCalls w) in
    (outcome,
     elapse took
       (mkWorld (clock w) (puppeteerBreaker w) (proxyGridBreaker w) (DB w)
          (S (puppeteerCalls w)) (proxyGridCalls w) (tagCalls w) (trace w))).

Definition callProxyGrid : M (list TrendItem) :=
  fun w =>
    let '(took, outcome) := scrapeWithProxyGrid (proxyGridCalls w) in
    (outcome,
     elapse took
       (mkWorld (clock w) (puppeteerBreaker w) (proxyGridBreaker w) (DB w)
          (puppeteerCalls w) (S (proxyGridCalls w)) (tagCalls w) (trace w))).

(** ** [scrapeWithProxyGridFallback] *)

Definition staleOrNothing (env : Env) (foundLog staleAlert emptyAlert : string)
    (staleData : list TrendItem) : M (list TrendItem) :=
  if (0 <? length staleData)%nat
  then logWithContext Level.info foundLog ;;;
       sendAlert env staleAlert ;;;
       ret (rerank staleData)
  else (if truthy (SLACK_WEBHOOK_URL env)
        then sendAlert env emptyAlert
        else ret tt) ;;;
       ret [].

Definition scrapeWithProxyGridFallback (env : Env) : M (list TrendItem) :=
  if negb (truthy (PROXY_GRID_SECRET env))
  then
    logWithContext Level.error
      "Proxy Grid not configured, no fallback available" ;;;
    (if truthy (SLACK_WEBHOOK_URL env)
     then sendAlert env "TikTok scrape failed: Proxy Grid not configured."
     else ret tt) ;;;
    ret []
  else
    ok <- canExecute ProxyGrid ;;
    if negb ok
    then
      logWithContext Level.error "Proxy Grid circuit breaker open" ;;;
      staleData <- getStaleData ;;
      staleOrNothing env "Falling back to stale data"
        ("TikTok scrape failed, using stale data. count="
           +:+ pretty (length staleData))
        "TikTok scrape failed: All circuits open."
        staleData
    else
      served <-
        tryCatch
          (data <- callProxyGrid ;;
           if (0 <? length data)%nat
           then
             recordSuccess ProxyGrid ;;;
             cacheResults data ;;;
             logWithContext Level.info "Proxy Grid scrape successful" ;;;
             sendAlert env
               ("ProxyGrid fallback used for TikTok trends. count="
                  +:+ pretty (length data)) ;;;
             ret (Some data)
           else
             recordFailure ProxyGrid ;;;
             logWithContext Level.warn "Proxy Grid returned empty results" ;;;
             ret None)
          (fun _ =>
             recordFailure ProxyGrid ;;;
             logWithContext Level.error "Proxy Grid scrape failed" ;;;
             ret None) ;;
      match served with
      | Some data => ret data
      | None =>
          staleData <- getStaleData ;;
          staleOrNothing env
            "Falling back to stale data after Proxy Grid failure"
            "TikTok scrape failed, using stale data fallback."
            "TikTok scrape failed: All methods exhausted."
            staleData
      end.

(** ** [scrapeTikTokTrends] *)

Record ScrapeOptions : Type := mkScrapeOptions {
  forceProxyGrid : bool;
  useStaleFallback : bool;
}.

(** The body of the retry loop for one value of [attempt]: [Some data] is
    the [return data] inside the [try], [None] falls to the next turn. *)
Definition puppeteerAttempt (attempt : nat) : M (option (list TrendItem)) :=
  tryCatch
    (data <- callPuppeteer ;;
     if (0 <? length data)%nat
     then
       recordSuccess Puppeteer ;;;
       cacheResults data ;;;
       logWithContext Level.info "Puppeteer scrape successful" ;;;
       ret (Some data)
     else
       logWithContext Level.warn "Puppeteer scrape returned empty results" ;;;
       ret None)
    (fun _ =>
       recordFailure Puppeteer ;;;
       logWithContext Level.warn "Puppeteer scrape attempt failed" ;;;
       (if (attempt <? MAX_RETRIES)%nat
        then
          let delay := calculateRetryDelay (Z.of_nat attempt - 1) in
          logWithContext Level.info "Retrying after delay" ;;;
          sleep delay
        else ret tt) ;;;
       ret None).

(** [for (let attempt = 1; attempt <= MAX_RETRIES; attempt++)] over the
    values [attempt] still to run. *)
Fixpoint puppeteerLoop (attempts : list nat) : M (option (list TrendItem)) :=
  match attempts with
  | [] => ret None
  | attempt :: rest =>
      r <- puppeteerAttempt attempt ;;
      match r with
      | Some data => ret (Some data)
      | None => puppeteerLoop rest
      end
  end.

Definition scrapeTikTokTrends (env : Env) (options : ScrapeOptions)
  : M (list TrendItem) :=
  staleData <- getStaleData ;;
  if (0 <? length staleData)%nat && useStaleFallback options
  then
    logWithContext Level.info "Using stale data fallback" ;;;
    ret (rerank staleData)
  else
    ok <- canExecute Puppeteer ;;
    if negb ok
    then
      logWithContext Level.warn
        "Puppeteer circuit breaker open, skipping to Proxy Grid" ;;;
      scrapeWithProxyGridFallback env
    else if forceProxyGrid options
    then scrapeWithProxyGridFallback env
    else
      r <- puppeteerLoop (seq 1 MAX_RETRIES) ;;
      match r with
      | Some data => ret data
      | None => scrapeWithProxyGridFallback env
      end.

(** ** Tagging ([tagAudioWithAI], [heuristicTags]) *)

Definition DEFAULT_TAGS : TagResult := mkTagResult "unknown" "mixed".

Definition FALLBACK_KEYWORDS : list (string * string) :=
  [("sad", "sad"); ("slow", "sad"); ("love", "romantic");
   ("chill", "chill"); ("gym", "gym"); ("workout", "gym");
   ("dance", "dance"); ("funny", "funny"); ("comedy", "funny");
   ("hype", "energetic"); ("viral", "energetic")].

(** [haystack.includes(needle)] *)
Fixpoint includes (needle haystack : string) : bool :=
  String.prefix needle haystack
  || match haystack with
     | String _ r => includes needle r
     | EmptyString => false
     end.

Definition heuristicTags (title author : string) : TagResult :=
  let haystack := toLowerCase (title +:+ " " +:+ author) in
  let matched :=
    List.find (fun item => includes (fst item) haystack) FALLBACK_KEYWORDS in
  mkTagResult (genre DEFAULT_TAGS)
    (match matched with
     | Some item => snd item
     | None => vibe DEFAULT_TAGS
     end).

(** Never throws: a failing classification is logged and replaced by the
    keyword heuristic. *)
Definition tagAudioWithAI (env : Env) (title author : string) : M TagResult :=
  fun w =>
    let w' :=
      mkWorld (clock w) (puppeteerBreaker w) (proxyGridBreaker w) (DB w)
        (puppeteerCalls w) (proxyGridCalls w) (S (tagCalls w)) (trace w) in
    if negb (AI env) then (Resolved (heuristicTags title author), w')
    else
      match aiClassify (tagCalls w) title author with
      | Resolved tags => (Resolved tags, w')
      | Rejected _ =>
          (Resolved (heuristicTags title author),
           emit (EvLog Level.error "AI tagging failed") w')
      end.

(** ** [shouldTag], [parseTagLimit] *)

Definition missingOr (placeholder : string) (tag : option string) : bool :=
  negb (truthy tag) || bool_decide (tag = Some placeholder).

Definition shouldTag (genre vibe : option string) : bool :=
  let missingGenre := missingOr "unknown" genre in
  let missingVibe := missingOr "mixed" vibe in
  missingGenre || missingVibe.

Definition parseTagLimit (value : option string) : number :=
  let parsed := StringToNumber (default "15" value) in
  if negb (isFinite parsed) || jsLeZero parsed then ofZ 15
  else jsMin parsed (ofZ 50).

(** ** Growth rate *)

(** Modelled from the spec: [calculateGrowthRate] of [worker/growth], a
    module that is not among the source files.  No previous snapshot
    gives 0; a previous play count above 0 gives the percentage change of
    the play count; otherwise the rank-based score, whose scaling the
    specification leaves to the implementation ([rankSignal]). *)
Definition calculateGrowthRate (current : TrendItem)
    (previous : option HistoryRow) : number :=
  match previous with
  | None => ofZ 0
  | Some h =>
      match play_count current, h_play_count h with
      | Num c, Num p =>
          if negb (Qle_bool p 0)
          then Num ((c - p) / p * 100)
          else rankSignal (h_rank h) (rank current)
      | _, _ => rankSignal (h_rank h) (rank current)
      end
  end.

(** ** [runPipeline] *)

Definition getLatestHistoryMap (ids : list string)
  : M (gmap string HistoryRow) :=
  fun w =>
    if (length ids =? 0)%nat then (Resolved ∅, w)
    else
      match selectLatestHistory ids (DB w) with
      | Rejected e => (Rejected e, w)
      | Resolved results =>
          (Resolved
             (fold_left (fun m row => <[h_id row := row]> m)
                (default [] results) ∅), w)
      end.

Definition getExistingTagMap (ids : list string)
  : M (gmap string (option string * option string)) :=
  fun w =>
    if (length ids =? 0)%nat then (Resolved ∅, w)
    else
      match selectExistingTags ids (DB w) with
      | Rejected e => (Rejected e, w)
      | Resolved results =>
          (Resolved
             (fold_left
                (fun m row => <[t_id row := (t_genre row, t_vibe row)]> m)
                (default [] results) ∅), w)
      end.

Definition maybeIngestHashtags (env : Env) (timestamp : Z) : M HashtagResult :=
  if negb (truthy (HASHTAG_API_URL env)) then ret HashtagSkipped
  else fun w =>
    let '(result, db') := ingestHashtags timestamp (DB w) in
    (Resolved result, setDB db' w).

(** [await env.DB.batch(statements)], outside any [try] *)
Definition dbBatch (statements : list Statement) : M unit :=
  fun w =>
    match batch statements (DB w) with
    | Resolved db' => (Resolved tt, setDB db' w)
    | Rejected e => (Rejected e, w)
    end.

Definition now : M Z := fun w => (Resolved (clock w), w).

(** The body of [for (const item of normalized)], on the statements and
    the counter [tagsGenerated] built so far. *)
Definition processItem (env : Env) (maxTags : number)
    (historyMap : gmap string HistoryRow)
    (tagMap : gmap string (option string * option string))
    (timestamp : Z) (acc : list Statement * nat) (item : TrendItem)
  : M (list Statement * nat) :=
  let '(statements, tagsGenerated) := acc in
  let history := historyMap !! id item in
  let growthRate := calculateGrowthRate item history in
  let existingTags := tagMap !! id item in
  let existingGenre := existingTags ≫= fst in
  let existingVibe := existingTags ≫= snd in
  tagged <-
    (if shouldTag existingGenre existingVibe
        && counterLt tagsGenerated maxTags
     then
       aiTags <- tagAudioWithAI env (title item) (author item) ;;
       ret (Some (genre aiTags), Some (vibe aiTags), (tagsGenerated + 1)%nat)
     else ret (existingGenre, existingVibe, tagsGenerated)) ;;
  let '(genre, vibe, tagsGenerated) := tagged in
  ret (statements
         ++ [TrendUpsert item growthRate genre vibe timestamp;
             HistoryInsert (id item) timestamp (play_count item) (rank item)],
       tagsGenerated).

Fixpoint processItems (env : Env) (maxTags : number)
    (historyMap : gmap string HistoryRow)
    (tagMap : gmap string (option string * option string))
    (timestamp : Z) (normalized : list TrendItem)
    (acc : list Statement * nat) : M (list Statement * nat) :=
  match normalized with
  | [] => ret acc
  | item :: rest =>
      acc' <- processItem env maxTags historyMap tagMap timestamp acc item ;;
      processItems env maxTags historyMap tagMap timestamp rest acc'
  end.

Definition runPipeline (env : Env) (options : PipelineOptions)
  : M PipelineResult :=
  startTime <- now ;;
  let forceProxyGrid := opt_forceProxyGrid options in
  let useStaleFallback := opt_useStaleFallback options in
  trends <-
    scrapeTikTokTrends env (mkScrapeOptions forceProxyGrid useStaleFallback) ;;
  if (length trends =? 0)%nat
  then
    finished <- now ;;
    ret {| status := Status.warning;
           message := Some "No trends found, using stale data fallback";
           count := 0;
           top_song := None;
           tags_generated := 0;
           hashtag_ingest := None;
           source := Some stale;
           duration := Some (finished - startTime) |}
  else
    let normalized := normalizeTrends trends in
    if (length normalized =? 0)%nat
    then
      finished <- now ;;
      ret {| status := Status.warning;
             message := Some "No trends found after normalization";
             count := 0;
             top_song := None;
             tags_generated := 0;
             hashtag_ingest := None;
             source := Some puppeteer;
             duration := Some (finished - startTime) |}
    else
      timestamp <- now ;;
      historyMap <- getLatestHistoryMap (map id normalized) ;;
      tagMap <- getExistingTagMap (map id normalized) ;;
      let maxTags := parseTagLimit (AI_TAG_LIMIT env) in
      loop <-
        processItems env maxTags historyMap tagMap timestamp normalized
          ([], 0%nat) ;;
      let '(statements, tagsGenerated) := loop in
      dbBatch statements ;;;
      hashtagResult <- maybeIngestHashtags env timestamp ;;
      finished <- now ;;
      ret {| status := Status.success;
             message := None;
             count := length normalized;
             top_song := Some (title <$> head normalized);
             tags_generated := tagsGenerated;
             hashtag_ingest := Some hashtagResult;
             source :=
               Some (if forceProxyGrid then proxy_grid else puppeteer);
             duration := Some (finished - startTime) |}.
End Worker.

(** ** A small concrete runtime and store, to run the worker on examples *)

Fixpoint decimalValue (acc : Z) (s : string) : option Z :=
  match s with
  | EmptyString => Some acc
  | String c r =>
      if isDigit c
      then decimalValue (10 * acc + Z.of_nat (nat_of_ascii c - 48)) r
      else None
  end.

(** Agrees with the language on short strings of decimal digits, which is
    all the examples use; any other string reads as NaN here, and lower-casing
    leaves its argument as it is. *)
Definition decimalRuntime : JSRuntime := {|
  StringToNumber s :=
    match s with
    | EmptyString => ofZ 0
    | _ => match decimalValue 0 s with Some z => ofZ z | None => NaN end
    end;
  NumberToString n :=
    match n with
    | NaN => "NaN"
    | Infinity s => if s then "-Infinity" else "Infinity"
    | Num q => pretty (Qfloor q)
    end;
  toLowerCase s := s;
|}.

(** An in-memory store: the rows a stale read returns, the rows of existing
    tags, and whether batches are refused. *)
Record MemStore : Type := mkMemStore {
  staleRows : list TrendItem;
  tagRows : list TagRow;
  historyRows : list HistoryRow;
  refuseBatch : bool;
  written : list Statement;
}.

Definition memBatch (statements : list Statement) (db : MemStore)
  : Outcome MemStore :=
  if refuseBatch db then Rejected "D1_ERROR"
  else Resolved (mkMemStore (staleRows db) (tagRows db) (historyRows db)
                   (refuseBatch db) (written db ++ statements)).

(** Collaborators over the in-memory store, with scripted scrapers: the
    n-th call answers with the n-th entry of the script and throws once the
    script is used up. *)
Definition scripted (script : list (Outcome (list TrendItem))) (n : nat)
  : Z * Outcome (list TrendItem) :=
  (1000, default (Rejected "Navigation timeout") (script !! n)).

Definition memCollaborators
    (primary secondary : list (Outcome (list TrendItem))) : Collaborators := {|
  Store := MemStore;
  selectStale db := Resolved (Some (staleRows db));
  selectLatestHistory ids db :=
    Resolved (Some (filter (fun r => h_id r ∈ ids) (historyRows db)));
  selectExistingTags ids db :=
    Resolved (Some (filter (fun r => t_id r ∈ ids) (tagRows db)));
  batch := memBatch;
  scrapeWithPuppeteer := scripted primary;
  scrapeWithProxyGrid := scripted secondary;
  aiClassify n title author :=
    if (n =? 0)%nat then Rejected "AI timeout"
    else Resolved (mkTagResult "pop" "energetic");
  ingestHashtags timestamp db := (HashtagEmpty, db);
  rankSignal previous current := jsSub previous current;
|}.

(** ** Notions used to state the properties *)

(** A scrape attempt fails by throwing or by returning nothing. *)
Definition failed (o : Outcome (list TrendItem)) : Prop :=
  match o with
  | Rejected _ => True
  | Resolved data => data = []
  end.

(** A tag is missing ([null] or empty) or is the given placeholder. *)
Definition missingOrPlaceholder (placeholder : string) (tag : option string)
  : Prop :=
  tag = None \/ tag = Some EmptyString \/ tag = Some placeholder.

(** A computation that returns from every world. *)
Definition total `{Collaborators} {A} (m : M A) : Prop :=
  forall w, exists a w', m w = (Resolved a, w').

Section TaggingNotions.
Context {runtime : JSRuntime} {world : Collaborators}.

(** The tags a call of the tagger answers with: the classification when
    the AI binding is configured and answers, the keyword heuristic
    otherwise. *)
Definition taggerReply (env : Env) (w : World) (title author : string)
  : TagResult :=
  if AI env
  then match aiClassify (tagCalls w) title author with
       | Resolved tags => tags
       | Rejected _ => heuristicTags title author
       end
  else heuristicTags title author.

Definition existingGenre (tagMap : gmap string (option string * option string))
    (item : TrendItem) : option string := (tagMap !! id item) ≫= fst.
Definition existingVibe (tagMap : gmap string (option string * option string))
    (item : TrendItem) : option string := (tagMap !! id item) ≫= snd.

(** The stored tags of the item call for tagging. *)
Definition needsTags (tagMap : gmap string (option string * option string))
    (item : TrendItem) : bool :=
  shouldTag (existingGenre tagMap item) (existingVibe tagMap item).

(** How many of the first [i] items of a batch call for tagging. *)
Definition neededBefore (tagMap : gmap string (option string * option string))
    (items : list TrendItem) (i : nat) : nat :=
  length (List.filter (needsTags tagMap) (take i items)).

(** The two statements queued for one item. *)
Definition itemStatements (historyMap : gmap string HistoryRow)
    (timestamp : Z) (item : TrendItem) (genre vibe : option string)
  : list Statement :=
  [TrendUpsert item (calculateGrowthRate item (historyMap !! id item))
     genre vibe timestamp;
   HistoryInsert (id item) timestamp (play_count item) (rank item)].
End TaggingNotions.

(** ** Example worlds *)

Definition exampleEnv : Env :=
  mkEnv (Some "secret") None (Some "2") None true.

Definition defaultOptions : PipelineOptions :=
  mkPipelineOptions true false false false.

Definition staleOptions : PipelineOptions :=
  mkPipelineOptions false true false true.

(** Stored rows, ranked 20 downwards. *)
Definition ex_nth (n : nat) : TrendItem :=
  mkTrendItem ("track-" +:+ pretty n) (ofNat (20 - n))
    "Title" "Artist" (ofZ 7) EmptyString.

Definition staleTen : list TrendItem := map ex_nth (seq 0 10).

Definition memStore (rows : list TrendItem) (refuse : bool) : MemStore :=
  mkMemStore rows [] [] refuse [].

(** The world at start-up over the in-memory collaborators. *)
Definition memWorld (primary secondary : list (Outcome (list TrendItem)))
    (db : MemStore) : @World (memCollaborators primary secondary) :=
  @mkWorld (memCollaborators primary secondary) 0 initialBreaker initialBreaker
    db 0 0 0 [].

(** Collaborators whose scrapers always throw, a start-up world over an
    empty store, and empty lookup tables. *)
Definition idleCollaborators : Collaborators := memCollaborators [] [].
Definition idleWorld : @World idleCollaborators :=
  memWorld [] [] (memStore [] false).
Definition noHistory : gmap string HistoryRow := ∅.
Definition noTags : gmap string (option string * option string) := ∅.

(** A parsed response whose records carry a negative, a fractional and a
    non-numeric play count. *)
Definition oddPlayCounts : JSValue :=
  JObject
    [("data",
      JArray
        [JObject [("id", JString "x"); ("play_count", JNumber (ofZ (-5)))];
         JObject [("id", JString "y"); ("play_count", JNumber (Num (5 # 2)))];
         JObject [("id", JString "z"); ("play_count", JString "abc")]])].

(** * Further parts of the worker *)

(** ** [getCircuitState] ([tiktok.ts])

    The object returned for one breaker, as the circuit-state endpoint
    reports it; [now] is the reading of [Date.now()]. *)
Record CircuitStateView : Type := mkCircuitStateView {
  view_isOpen : bool;
  view_failureCount : Z;
  timeUntilReset : Z;
}.

Definition getCircuitState (now : Z) (breaker : CircuitBreakerState)
  : CircuitStateView :=
  mkCircuitStateView (isOpen breaker) (failureCount breaker)
    (Z.max 0 (nextAttemptTime breaker - now)).

(** A breaker is open exactly when its counter has reached the
    threshold. *)
Definition breakerConsistent (b : CircuitBreakerState) : Prop :=
  isOpen b = true <-> CIRCUIT_THRESHOLD <= failureCount b.

(** The three operations on a breaker, with the clock readings they take. *)
Inductive BreakerOp : Type :=
| OpCanExecute (now : Z)
| OpSuccess
| OpFailure (now later : Z).

Definition applyOp (b : CircuitBreakerState) (op : BreakerOp)
  : CircuitBreakerState :=
  match op with
  | OpCanExecute now => snd (canExecuteCircuit now b)
  | OpSuccess => recordCircuitSuccess b
  | OpFailure now later => recordCircuitFailure now later b
  end.

(** ** Notions for the response parsers *)

(** [v === null || v === undefined] *)
Definition isNullish (v : JSValue) : bool :=
  match v with
  | JUndefined | JNull => true
  | _ => false
  end.

(** The value of [v.k] where the access does not throw. *)
Definition field (v : JSValue) (k : string) : JSValue :=
  match getProp v k with
  | Resolved x => x
  | Rejected _ => JUndefined
  end.

(** The array the parser walks: [json.data ?? json] when that is an array,
    the empty array otherwise. *)
Definition responseRecords (json : JSValue) : list JSValue :=
  match field json "data" ?? json with
  | JArray l => l
  | _ => []
  end.

(** A value whose conversion to a string or to a number throws: an object
    with a key [toString] of its own, or an array holding such a value. *)
Fixpoint unconvertible (v : JSValue) : bool :=
  match v with
  | JObject properties => hasOwn "toString" properties
  | JArray elements => existsb unconvertible elements
  | _ => false
  end.

(** The names the parser reads from a record. *)
Definition recordKeys : list string :=
  ["id"; "music_id"; "rank"; "title"; "name"; "author"; "artist";
   "play_count"; "video_count"; "cover_url"; "cover"].

(** A record on which the parser can throw: it is [null] or [undefined],
    or one of the fields read from it cannot be converted. *)
Definition faulty (record : JSValue) : Prop :=
  isNullish record = true
  \/ Exists (fun k => unconvertible (field record k) = true) recordKeys.

(** An object carrying none of them, or only with [null] or [undefined]. *)
Definition bare (record : JSValue) : Prop :=
  isNullish record = false
  /\ Forall (fun k => isNullish (field record k) = true) recordKeys.

(** The item the parser builds for a bare record at a given index. *)
Definition defaultItem (index : nat) : TrendItem :=
  mkTrendItem ("tiktok-" +:+ pretty index) (ofNat (index + 1))
    "Unknown" "Unknown" (ofZ 0) EmptyString.

(** Every character is a digit: [/^\d*$/] *)
Fixpoint allDigits (s : string) : bool :=
  match s with
  | EmptyString => true
  | String c r => isDigit c && allDigits r
  end.

(** A snippet of fallback HTML carrying a count. *)
Definition countSnippet : string :=
  "{" +:+ dquote +:+ "video_count" +:+ dquote +:+ ":1500}".

(** A parsed response whose second record carries a rank that is no
    number. *)
Definition nanRank : JSValue :=
  JObject
    [("data",
      JArray
        [JObject [("id", JString "p"); ("rank", JNumber (ofZ 2))];
         JObject [("id", JString "q"); ("rank", JString "x")];
         JObject [("id", JString "r"); ("rank", JNumber (ofZ 1))]])].

(** A response whose one record has an id that cannot be converted. *)
Definition ownToString : JSValue :=
  JObject [("data", JArray [JObject [("id", JObject [("toString", JNumber (ofZ 0))])]])].

Definition twoBareRecords : list JSValue :=
  [JObject []; JObject [("id", JNull); ("views", JNumber (ofZ 7))]].

(** ** Notions for the acquisition *)

(** The backoff delays among the events, in order. *)
Definition sleeps (events : list Event) : list Z :=
  flat_map (fun e => match e with EvSleep ms => [ms] | _ => [] end) events.

Section AcquisitionNotions.
Context {world : Collaborators}.

(** What one batch of [cacheResults] wrote. *)
Definition cached (data : list TrendItem) (before after : Store) : Prop :=
  exists timestamp,
    batch (map (fun item => CacheUpsert item timestamp) data) before
    = Resolved after.

(** The stale rows as [getStaleData] hands them over. *)
Definition staleRowsOf (db : Store) : list TrendItem :=
  match selectStale db with
  | Resolved (Some results) => results
  | _ => []
  end.

(** A computation whose runs all relate the world before to the world
    after, whether it returns or throws. *)
Definition keeps {A} (R : World -> World -> Prop) (m : M A) : Prop :=
  forall w, R w (snd (m w)).

(** No delay is added. *)
Definition quiet (w w' : World) : Prop := sleeps (trace w') = sleeps (trace w).

(** The delays the retry loop sleeps for, read off the answers of the
    primary scraper from call number [call] on. *)
Fixpoint backoff (attempts : list nat) (call : nat) : list Z :=
  match attempts with
  | [] => []
  | attempt :: rest =>
      match snd (scrapeWithPuppeteer call) with
      | Rejected _ =>
          (if (attempt <? MAX_RETRIES)%nat
           then [calculateRetryDelay (Z.of_nat attempt - 1)] else [])
          ++ backoff rest (S call)
      | Resolved [] => backoff rest (S call)
      | Resolved _ => []
      end
  end.
End AcquisitionNotions.

(** ** Notions for the pipeline *)

Section PipelineNotions.
Context {runtime : JSRuntime} {world : Collaborators}.

(** The statements queued for a batch of items, given the tags each item
    ends up with. *)
Definition queuedStatements (historyMap : gmap string HistoryRow)
    (timestamp : Z) (items : list TrendItem)
    (tags : list (option string * option string)) : list Statement :=
  concat (zip_with
            (fun item t => itemStatements historyMap timestamp item (fst t) (snd t))
            items tags).

(** The history rows and tag rows as the two lookups hand them over. *)
Definition historyMapOf (results : option (list HistoryRow))
  : gmap string HistoryRow :=
  fold_left (fun m row => <[h_id row := row]> m) (default [] results) ∅.

Definition tagMapOf (results : option (list TagRow))
  : gmap string (option string * option string) :=
  fold_left (fun m row => <[t_id row := (t_genre row, t_vibe row)]> m)
    (default [] results) ∅.
End PipelineNotions.

(** The vibes the keyword heuristic can answer with. *)
Definition heuristicVibes : list string :=
  ["sad"; "romantic"; "chill"; "gym"; "dance"; "funny"; "energetic"; "mixed"].

(** ** Cron bookkeeping (worker entry point)

    [MOCK_KV] holds two documents as JSON text, the cron state under
    "cron:execution" and the metrics of the day under "metrics:daily";
    both are written by the functions below only, and read back with
    [JSON.parse].  An entry is kept as the document its text parses to.
    [kvPut] with a time to live also sets a timer that deletes the key;
    the timers set and not yet run are part of the state. *)

Module CronExecution.
Record t : Type := mk {
  lastRun : Z;
  lastSuccess : Z;
  lastFailure : Z;
  consecutiveFailures : Z;
  consecutiveSuccesses : Z;
  totalRuns : Z;
}.

(** The state assumed when the key is absent. *)
Definition initial : t := mk 0 0 0 0 0 0.
End CronExecution.

(** [Partial<CronExecution>]: a field is present or not. *)
Module CronUpdate.
Record t : Type := mk {
  lastRun : option Z;
  lastSuccess : option Z;
  lastFailure : option Z;
  consecutiveFailures : option Z;
  consecutiveSuccesses : option Z;
  totalRuns : option Z;
}.
End CronUpdate.

Module MetricStatus.
Inductive t : Type := success | partial | error.
End MetricStatus.

Module PipelineMetrics.
Record t : Type := mk {
  timestamp : Z;
  duration : Z;
  status : MetricStatus.t;
  itemCount : nat;
  tagsGenerated : nat;
  source : Source;
  errorMessage : option string;
}.
End PipelineMetrics.

(** The two averages are the exact quotients; their rounding to a double
    is not modelled, and nothing below depends on their value. *)
Module DailyMetrics.
Record t : Type := mk {
  date : string;
  executions : list PipelineMetrics.t;
  totalRuns : Z;
  successCount : Z;
  failureCount : Z;
  averageDuration : Q;
  averageItemCount : Q;
}.

(** The document assumed when the key is absent or holds another day. *)
Definition fresh (today : string) : t := mk today [] 0 0 0 0%Q 0%Q.
End DailyMetrics.

Inductive KVKey : Type := CRON_EXECUTION_KEY | METRICS_KEY.

Record KV : Type := mkKV {
  cronEntry : option CronExecution.t;
  metricsEntry : option DailyMetrics.t;
  (** pending deletions: due time, key *)
  timers : list (Z * KVKey);
}.

Definition emptyKV : KV := mkKV None None [].

(** [kvDelete] *)
Definition kvDelete (key : KVKey) (kv : KV) : KV :=
  match key with
  | CRON_EXECUTION_KEY => mkKV None (metricsEntry kv) (timers kv)
  | METRICS_KEY => mkKV (cronEntry kv) None (timers kv)
  end.

(** The timer [kvPut] sets at time [now] for a time to live in seconds
    ([if (ttl)]: none for 0). *)
Definition setTimer (key : KVKey) (ttl now : Z) (kv : KV) : KV :=
  if ttl =? 0 then kv
  else mkKV (cronEntry kv) (metricsEntry kv)
         (timers kv ++ [(now + ttl * 1000, key)]).

(** The event loop at time [now]: the timers that are due run, in the
    order they were set. *)
Definition runTimers (now : Z) (kv : KV) : KV :=
  let due := filter (fun t => fst t <= now) (timers kv) in
  let pending := filter (fun t => ~ fst t <= now) (timers kv) in
  fold_left (fun s t => kvDelete (snd t) s) due
    (mkKV (cronEntry kv) (metricsEntry kv) pending).

(** [recordCronExecution(env, update)], the write made at time [now] *)
Definition recordCronExecution (now : Z) (update : CronUpdate.t) (kv : KV)
  : KV :=
  let current := default CronExecution.initial (cronEntry kv) in
  let updated :=
    {| CronExecution.lastRun :=
         default (CronExecution.lastRun current) (CronUpdate.lastRun update);
       CronExecution.lastSuccess :=
         default (CronExecution.lastSuccess current)
           (CronUpdate.lastSuccess update);
       CronExecution.lastFailure :=
         default (CronExecution.lastFailure current)
           (CronUpdate.lastFailure update);
       CronExecution.consecutiveFailures :=
         default (CronExecution.consecutiveFailures current)
           (CronUpdate.consecutiveFailures update);
       CronExecution.consecutiveSuccesses :=
         default (CronExecution.consecutiveSuccesses current)
           (CronUpdate.consecutiveSuccesses update);
       CronExecution.totalRuns := CronExecution.totalRuns current + 1 |} in
  setTimer CRON_EXECUTION_KEY 86400 now
    (mkKV (Some updated) (metricsEntry kv) (timers kv)).

(** [recordCronFailure(env)]; [now] and [later] are its two readings of
    the clock. *)
Definition recordCronFailure (now later : Z) (kv : KV) : KV :=
  let current := default CronExecution.initial (cronEntry kv) in
  let updated :=
    {| CronExecution.lastRun := now;
       CronExecution.lastSuccess := CronExecution.lastSuccess current;
       CronExecution.lastFailure := later;
       CronExecution.consecutiveFailures :=
         CronExecution.consecutiveFailures current + 1;
       CronExecution.consecutiveSuccesses := 0;
       CronExecution.totalRuns := CronExecution.totalRuns current + 1 |} in
  setTimer CRON_EXECUTION_KEY 86400 later
    (mkKV (Some updated) (metricsEntry kv) (timers kv)).

(** [executions.reduce((sum, m) => sum + f(m), 0) / executions.length] *)
Definition average (f : PipelineMetrics.t -> Z)
    (executions : list PipelineMetrics.t) : Q :=
  Qdiv (inject_Z (fold_left (fun sum m => sum + f m) executions 0))
    (inject_Z (Z.of_nat (length executions))).

(** [metrics.status === "success"] *)
Definition succeeded (metrics : PipelineMetrics.t) : bool :=
  match PipelineMetrics.status metrics with
  | MetricStatus.success => true
  | _ => false
  end.

(** [recordMetrics(env, metrics)]; [today] is the date it reads, [now]
    the time of its write. *)
Definition recordMetrics (today : string) (now : Z)
    (metrics : PipelineMetrics.t) (kv : KV) : KV :=
  let stored := default (DailyMetrics.fresh today) (metricsEntry kv) in
  let daily :=
    if negb (String.eqb (DailyMetrics.date stored) today)
    then DailyMetrics.fresh today else stored in
  let executions := DailyMetrics.executions daily ++ [metrics] in
  let updated :=
    {| DailyMetrics.date := DailyMetrics.date daily;
       DailyMetrics.executions := executions;
       DailyMetrics.totalRuns := DailyMetrics.totalRuns daily + 1;
       DailyMetrics.successCount :=
         if succeeded metrics then DailyMetrics.successCount daily + 1
         else DailyMetrics.successCount daily;
       DailyMetrics.failureCount :=
         if succeeded metrics then DailyMetrics.failureCount daily
         else DailyMetrics.failureCount daily + 1;
       DailyMetrics.averageDuration :=
         average PipelineMetrics.duration executions;
       DailyMetrics.averageItemCount :=
         average (fun m => Z.of_nat (PipelineMetrics.itemCount m))
           executions |} in
  setTimer METRICS_KEY (86400 * 7) now
    (mkKV (cronEntry kv) (Some updated) (timers kv)).

(** The update [scheduled] passes after a run that returned. *)
Definition successUpdate (now : Z) : CronUpdate.t :=
  CronUpdate.mk (Some now) (Some now) (Some 0) (Some 0) (Some 1) (Some 1).

(** [new Date().toISOString().split("T")[0]] at a given time *)
Class JSDate : Type := {
  toISODate : Z -> string;
}.

Section Scheduled.
Context {runtime : JSRuntime} {world : Collaborators} {calendar : JSDate}.

(** The body handed to [ctx.waitUntil] by the [scheduled] handler, on the
    worker's world and the bookkeeping store. *)
Definition scheduled (env : Env) (state : World * KV) : World * KV :=
  let '(w, kv) := state in
  let startTime := clock w in
  match runPipeline env (mkPipelineOptions true false false false) w with
  | (Resolved result, w') =>
      let now := clock w' in
      let duration := now - startTime in
      let kv1 := recordCronExecution now (successUpdate now) kv in
      let kv2 :=
        recordMetrics (toISODate now) now
          {| PipelineMetrics.timestamp := now;
             PipelineMetrics.duration := duration;
             PipelineMetrics.status :=
               match status result with
               | Status.success => MetricStatus.success
               | _ => MetricStatus.partial
               end;
             PipelineMetrics.itemCount := count result;
             PipelineMetrics.tagsGenerated := tags_generated result;
             PipelineMetrics.source := default puppeteer (source result);
             PipelineMetrics.errorMessage := None |} kv1 in
      (emit (EvLog Level.info
               ("[Cron] Pipeline completed in " +:+ pretty duration +:+ "ms"))
         w', kv2)
  | (Rejected e, w') =>
      let now := clock w' in
      let duration := now - startTime in
      let kv1 := recordCronFailure now now kv in
      let kv2 :=
        recordMetrics (toISODate now) now
          {| PipelineMetrics.timestamp := now;
             PipelineMetrics.duration := duration;
             PipelineMetrics.status := MetricStatus.error;
             PipelineMetrics.itemCount := 0;
             PipelineMetrics.tagsGenerated := 0;
             PipelineMetrics.source := puppeteer;
             PipelineMetrics.errorMessage := Some e |} kv1 in
      (emit (EvLog Level.error "[Cron] Pipeline failed") w', kv2)
  end.
End Scheduled.

(** The cron records of a series of scheduled runs, [true] for a run that
    returned and [false] for one that threw, each with its clock
    reading. *)
Definition recordRun (kv : KV) (run : bool * Z) : KV :=
  let '(returned, now) := run in
  if returned then recordCronExecution now (successUpdate now) kv
  else recordCronFailure now now kv.

(** A series of scheduled runs, each recording itself at its clock reading.
    Timers run at turns of the event loop, between the runs: when a run
    records itself, the timers that were due by then have run. *)
Definition recordRuns (runs : list (bool * Z)) (kv : KV) : KV :=
  fold_left (fun kv run => recordRun (runTimers (snd run) kv) run) runs kv.

(** The number of failures at the end of a series of runs. *)
Fixpoint trailingFailures (runs : list (bool * Z)) : Z :=
  match runs with
  | [] => 0
  | run :: earlier =>
      if fst run then 0 else 1 + trailingFailures earlier
  end.

(** The counters of a day's document agree with its list of runs. *)
Definition metricsConsistent (d : DailyMetrics.t) : Prop :=
  DailyMetrics.totalRuns d = Z.of_nat (length (DailyMetrics.executions d))
  /\ DailyMetrics.successCount d
     = Z.of_nat (length (List.filter succeeded (DailyMetrics.executions d)))
  /\ DailyMetrics.totalRuns d
     = DailyMetrics.successCount d + DailyMetrics.failureCount d.

(** ** Requests to the worker ([fetch], [handleApi]) *)

(** [a < b] *)
Definition jsLt (a b : number) : bool :=
  match a, b with
  | NaN, _ | _, NaN => false
  | Infinity s, Infinity s' => s && negb s'
  | Infinity s, Num _ => s
  | Num _, Infinity s => negb s
  | Num x, Num y => negb (Qle_bool y x)
  end.

(** What a handler reads of a request: the Authorization header and the
    first value of each query parameter, [None] for [null]. *)
Record Request : Type := mkRequest {
  authorization : option string;
  searchParam : string -> option string;
}.

(** [`${s}`] on a string that may be [undefined] *)
Definition interpolate (s : option string) : string :=
  default "undefined" s.

(** [isAuthorized(request, env)], on [env.CRON_SECRET] *)
Definition isAuthorized (request : Request) (CRON_SECRET : option string)
  : bool :=
  if bool_decide
       (authorization request = Some ("Bearer " +:+ interpolate CRON_SECRET))
  then true
  else
    match searchParam request "secret" with
    | Some secret => bool_decide (Some secret = CRON_SECRET)
    | None => false
    end.

(** [isApiAuthorized(request, env)], on [env.API_TOKEN] *)
Definition isApiAuthorized (request : Request) (API_TOKEN : option string)
  : bool :=
  if negb (truthy API_TOKEN) then false
  else if bool_decide
            (authorization request = Some ("Bearer " +:+ interpolate API_TOKEN))
  then true
  else
    match searchParam request "key" with
    | Some key => bool_decide (Some key = API_TOKEN)
    | None => false
    end.

Section Limits.
Context {runtime : JSRuntime}.

(** The limit of [/api/v1/trends] in [handleApi]: the value bound to the
    query, or the validation error. *)
Definition trendsLimit (request : Request) : number + string :=
  let limit :=
    jsMin (StringToNumber (default "50" (searchParam request "limit")))
      (ofZ 100) in
  if jsLt limit (ofZ 1) || jsLt (ofZ 100) limit
  then inr "Limit must be between 1 and 100"
  else inl limit.
End Limits.

(** ** [slugify] (the in-page script of [scrapeWithPuppeteer])

    Strings are held as UTF-8.  A character outside ASCII is a run of
    bytes above 127, none of which is a letter or a digit, so a run of
    characters outside [a-z0-9] is a run of such bytes and is replaced by
    the same single dash; what is left is ASCII, where bytes and
    characters agree. *)

Definition dash : ascii := ascii_of_nat 45.

(** [a-z0-9] *)
Definition isSlugChar (c : ascii) : bool :=
  let n := nat_of_ascii c in
  ((97 <=? n)%nat && (n <=? 122)%nat) || isDigit c.

(** [.replace(/[^a-z0-9]+/g, "-")]; [inRun] tells that the run being read
    has its dash already. *)
Fixpoint dashRuns (inRun : bool) (s : list ascii) : list ascii :=
  match s with
  | [] => []
  | c :: r =>
      if isSlugChar c then c :: dashRuns false r
      else if inRun then dashRuns true r
      else dash :: dashRuns true r
  end.

(** The string without its leading dashes. *)
Fixpoint dropDashes (s : list ascii) : list ascii :=
  match s with
  | [] => []
  | c :: r => if Ascii.eqb c dash then dropDashes r else s
  end.

(** [.replace(/^-+|-+$/g, "")] *)
Definition trimDashes (s : list ascii) : list ascii :=
  reverse (dropDashes (reverse (dropDashes s))).

Section Slugs.
Context {runtime : JSRuntime}.

Definition slugify (value : string) : string :=
  string_of_list_ascii
    (take 64
       (trimDashes
          (dashRuns false (list_ascii_of_string (toLowerCase value))))).
End Slugs.

(** No two dashes in a row. *)
Fixpoint noDoubleDash (s : list ascii) : Prop :=
  match s with
  | c :: ((d :: _) as r) => ~ (c = dash /\ d = dash) /\ noDoubleDash r
  | _ => True
  end.

(** * Properties *)

(** ** Normalisation *)

Section Normalisation.
Implicit Types (m : JSMap TrendItem) (items : list TrendItem).

Lemma Map_has_app {V} k (m1 m2 : JSMap V) :
  Map_has k (m1 ++ m2) = Map_has k m1 || Map_has k m2.
Proof. unfold Map_has. apply existsb_app. Qed.

Lemma Map_has_false_notin {V} k (m : JSMap V) :
  Map_has k m = false <-> ~ In k (map fst m).
Proof.
  unfold Map_has. induction m as [|[k' v] m IH]; simpl.
  - tauto.
  - rewrite orb_false_iff, IH, String.eqb_neq. tauto.
Qed.

Lemma dedupeStep_eq m item :
  dedupeStep m item =
  if Map_has (id item) m then m else m ++ [(id item, item)].
Proof.
  unfold dedupeStep, Map_set. destruct (Map_has (id item) m); reflexivity.
Qed.

Lemma dedupeStep_keyed m item : keyed m -> keyed (dedupeStep m item).
Proof.
  intros Hk. rewrite dedupeStep_eq. destruct (Map_has (id item) m); [done|].
  apply Forall_app. split; [done|]. by constructor.
Qed.

Lemma dedupeStep_NoDup m item :
  NoDup (map fst m) -> NoDup (map fst (dedupeStep m item)).
Proof.
  intros Hn. rewrite dedupeStep_eq.
  destruct (Map_has (id item) m) eqn:Hhas; [done|].
  rewrite map_app. simpl. apply NoDup_app. split; [done|]. split.
  - intros k Hk Hk'. apply list_elem_of_In in Hk.
    apply list_elem_of_singleton in Hk'. subst k.
    by apply Map_has_false_notin in Hhas.
  - apply NoDup_singleton.
Qed.

Lemma dedupe_fold_invariants items m :
  keyed m -> NoDup (map fst m) ->
  keyed (fold_left dedupeStep items m)
  /\ NoDup (map fst (fold_left dedupeStep items m)).
Proof.
  revert m. induction items as [|x items IH]; intros m Hk Hn; simpl.
  - done.
  - apply IH; [by apply dedupeStep_keyed | by apply dedupeStep_NoDup].
Qed.

Lemma firstWithId_cons k x items :
  firstWithId k (x :: items) =
  if String.eqb (id x) k then Some x else firstWithId k items.
Proof. reflexivity. Qed.

Lemma dedupe_fold_members items : forall m it,
  In it (Map_values (fold_left dedupeStep items m)) <->
  In it (Map_values m)
  \/ (Map_has (id it) m = false /\ firstWithId (id it) items = Some it).
Proof.
  induction items as [|x items IH]; intros m it; simpl fold_left.
  - unfold firstWithId. simpl. intuition congruence.
  - rewrite IH, dedupeStep_eq, firstWithId_cons.
    destruct (Map_has (id x) m) eqn:Hx.
    + destruct (String.eqb_spec (id x) (id it)) as [e|ne].
      * rewrite <- e, Hx. intuition congruence.
      * tauto.
    + unfold Map_values. rewrite map_app, in_app_iff, Map_has_app.
      simpl. rewrite orb_false_r, orb_false_iff.
      destruct (String.eqb_spec (id x) (id it)) as [e|ne].
      * split.
        -- intros [[?|[->|[]]]|[[_ ?] _]]; try tauto; try congruence.
        -- intros [?|[? [= ->]]]; tauto.
      * split.
        -- intros [[?|[->|[]]]|[[? _] ?]]; try tauto; congruence.
        -- tauto.
  Qed.

Lemma numLe_trans a b c : numLe a b -> numLe b c -> numLe a c.
Proof.
  destruct a as [|[]|x], b as [|[]|y], c as [|[]|z]; simpl; try tauto.
  apply Qle_trans.
Qed.

Lemma insert_perm {A} (x : A) k l :
  Permutation (take k l ++ x :: drop k l) (x :: l).
Proof.
  rewrite <- Permutation_middle. by rewrite take_drop.
Qed.

Lemma BinaryInsertionSort_perm {A} (cmp : A -> A -> number) rest :
  forall sorted,
    Permutation (BinaryInsertionSort cmp sorted rest) (sorted ++ rest).
Proof.
  induction rest as [|pivot rest IH]; intros sorted; simpl.
  - by rewrite app_nil_r.
  - rewrite IH, insert_perm. by rewrite <- Permutation_middle.
Qed.

Lemma CountAndMakeRun_perm {A} (cmp : A -> A -> number) l :
  Permutation (snd (CountAndMakeRun cmp l)) l.
Proof.
  destruct l as [|a [|b rest]]; try done.
  unfold CountAndMakeRun. destruct (orderNegative _); [|done].
  cbn [snd]. rewrite <- Permutation_rev. by rewrite take_drop.
Qed.

Lemma Array_sort_perm {A} (cmp : A -> A -> number) l :
  Permutation (Array_sort cmp l) l.
Proof.
  unfold Array_sort. destruct (length l <? 2)%nat; [done|].
  pose proof (CountAndMakeRun_perm cmp l) as Hrun.
  destruct (CountAndMakeRun cmp l) as [n w]. simpl in Hrun.
  by rewrite BinaryInsertionSort_perm, take_drop.
Qed.

(** An array in which no element compares below the one before it is
    returned as it is. *)
Lemma runTail_ascending {A} (cmp : A -> A -> number) rest : forall previous,
  Sorted (fun a b => orderNegative (cmp b a) = false) (previous :: rest) ->
  runTail cmp false previous rest = length rest.
Proof.
  induction rest as [|x rest IH]; intros previous Hs; [done|].
  apply Sorted_inv in Hs as [Hs Hhd]. apply HdRel_inv in Hhd.
  simpl. rewrite Hhd. simpl. f_equal. by apply IH.
Qed.

Lemma Array_sort_sorted_id {A} (cmp : A -> A -> number) l :
  Sorted (fun a b => orderNegative (cmp b a) = false) l ->
  Array_sort cmp l = l.
Proof.
  intros Hs. unfold Array_sort. destruct (length l <? 2)%nat; [done|].
  destruct l as [|a [|b rest]]; try done.
  unfold CountAndMakeRun.
  pose proof Hs as Hs'. apply Sorted_inv in Hs' as [Hs' Hhd].
  apply HdRel_inv in Hhd. rewrite Hhd.
  rewrite (runTail_ascending cmp rest b Hs').
  change (2 + length rest)%nat with (length (a :: b :: rest)).
  by rewrite firstn_all, drop_all.
Qed.

Lemma rankCompare_negative a b :
  orderNegative (rankCompare a b) = true -> below a b.
Proof.
  unfold below, byRank, rankCompare, orderNegative.
  destruct (rank a) as [|[]|x], (rank b) as [|[]|y]; simpl; try done;
    try tauto.
  destruct (x - y ?= 0)%Q eqn:Hc; try done. intros _.
  apply Qlt_alt in Hc. split; [lra|]. intros ?. lra.
Qed.

Lemma rankCompare_not_negative a b :
  rank a <> NaN -> rank b <> NaN ->
  orderNegative (rankCompare a b) = false -> byRank b a.
Proof.
  unfold byRank, rankCompare, orderNegative.
  destruct (rank a) as [|[]|x], (rank b) as [|[]|y]; simpl; try done.
  intros _ _. destruct (x - y ?= 0)%Q eqn:Hc; try done; intros _.
  - apply Qeq_alt in Hc. lra.
  - apply Qgt_alt in Hc. lra.
Qed.

Lemma byRank_trans a b c : byRank a b -> byRank b c -> byRank a c.
Proof. apply numLe_trans. Qed.

Lemma below_byRank a b c : below a b -> byRank b c -> below a c.
Proof.
  intros [Hab Hba] Hbc. split; [by eapply byRank_trans|].
  intros Hca. apply Hba. by eapply byRank_trans.
Qed.

Lemma byRank_below a b c : byRank a b -> below b c -> below a c.
Proof.
  intros Hab [Hbc Hcb]. split; [by eapply byRank_trans|].
  intros Hca. apply Hcb. by eapply byRank_trans.
Qed.

Lemma sameNumber_numLe a b :
  sameNumber a b = true <-> numLe a b /\ numLe b a.
Proof.
  destruct a as [|[]|x], b as [|[]|y]; simpl; try tauto; try (split; [done|tauto]).
  rewrite Qeq_bool_iff. split; [intros ->; split; lra|intros [? ?]; lra].
Qed.

Lemma ofRank_app r l1 l2 : ofRank r (l1 ++ l2) = ofRank r l1 ++ ofRank r l2.
Proof. apply List.filter_app. Qed.

Lemma ofRank_cons r x l :
  ofRank r (x :: l)
  = (if sameNumber (rank x) r then [x] else []) ++ ofRank r l.
Proof. unfold ofRank. simpl. by destruct (sameNumber (rank x) r). Qed.

Lemma ofRank_none r l :
  Forall (fun x => sameNumber (rank x) r = false) l -> ofRank r l = [].
Proof.
  induction 1 as [|x l Hx _ IH]; [done|]. unfold ofRank in *. simpl.
  by rewrite Hx.
Qed.

Lemma insertionPoint_turn {A} (cmp : A -> A -> number) pivot w turns left right :
  insertionPoint cmp pivot w (S turns) left right
  = if (left <? right)%nat
    then
      match w !! (left + (right - left) / 2)%nat with
      | Some element =>
          if orderNegative (cmp pivot element)
          then insertionPoint cmp pivot w turns left
                 (left + (right - left) / 2)
          else insertionPoint cmp pivot w turns
                 (left + (right - left) / 2 + 1) right
      | None => left
      end
    else left.
Proof. reflexivity. Qed.

(** The loop has ended after [right - left] turns: more turns change
    nothing, whatever the comparator answers. *)
Lemma insertionPoint_ended {A} (cmp : A -> A -> number) pivot w :
  forall turns more left right,
    (right - left <= turns)%nat ->
    insertionPoint cmp pivot w (turns + more) left right
    = insertionPoint cmp pivot w turns left right.
Proof.
  induction turns as [|turns IH]; intros more left right Hturns.
  - destruct more as [|more]; [done|].
    cbn [Nat.add]. rewrite insertionPoint_turn.
    destruct (Nat.ltb_spec left right); [lia|done].
  - cbn [Nat.add]. rewrite !insertionPoint_turn.
    destruct (Nat.ltb_spec left right) as [Hlt|]; [|done].
    assert (Hmid : (left <= left + (right - left) / 2 < right)%nat).
    { split; [lia|]. pose proof (Nat.div_lt (right - left) 2). lia. }
    destruct (w !! _); [|done].
    destruct (orderNegative _); apply IH; lia.
Qed.

(** The binary search: on a sorted array it ends between the elements not
    above the pivot and those above it. *)
Lemma insertionPoint_spec pivot sorted :
  rank pivot <> NaN ->
  Forall (fun it => rank it <> NaN) sorted ->
  StronglySorted byRank sorted ->
  forall turns left right,
    (left <= right <= length sorted)%nat ->
    (right - left <= turns)%nat ->
    (forall i x, (i < left)%nat -> sorted !! i = Some x -> byRank x pivot) ->
    (forall i x, (right <= i)%nat -> sorted !! i = Some x -> below pivot x) ->
    let k := insertionPoint rankCompare pivot sorted turns left right in
    (k <= length sorted)%nat
    /\ Forall (fun x => byRank x pivot) (take k sorted)
    /\ Forall (fun x => below pivot x) (drop k sorted).
Proof.
  intros Hp Hnan Hs. induction turns as [|turns IH];
    intros left right Hlr Hturns Hlow Hhigh.
  - assert (left = right) as -> by lia. simpl. split; [lia|]. split.
    + apply Forall_lookup. intros i x Hi.
      apply lookup_take_Some in Hi as [Hi ?]. eauto.
    + apply Forall_lookup. intros i x Hi. rewrite lookup_drop in Hi.
      eapply Hhigh; [|exact Hi]. lia.
  - cbv zeta. rewrite insertionPoint_turn.
    destruct (left <? right)%nat eqn:Hlt.
    + apply Nat.ltb_lt in Hlt.
      set (mid := (left + (right - left) / 2)%nat).
      assert (Hmid : (left <= mid < right)%nat).
      { unfold mid. split; [lia|].
        pose proof (Nat.div_lt (right - left) 2). lia. }
      destruct (sorted !! mid) as [element|] eqn:Hel.
      2:{ apply lookup_ge_None in Hel. lia. }
      assert (Hen : rank element <> NaN).
      { rewrite Forall_lookup in Hnan. by apply (Hnan mid). }
      destruct (orderNegative (rankCompare pivot element)) eqn:Hc.
      * apply IH; [lia|lia|done|].
        intros i x Hi Hx. apply rankCompare_negative in Hc.
        destruct (decide (i = mid)) as [->|Hne]; [congruence|].
        eapply below_byRank; [exact Hc|].
        apply (StronglySorted_app_1_elem_of byRank (take (S mid) sorted)
                 (drop (S mid) sorted)).
        -- by rewrite take_drop.
        -- apply list_elem_of_lookup. exists mid.
           rewrite lookup_take_lt by lia. done.
        -- apply list_elem_of_lookup. exists (i - S mid)%nat.
           rewrite lookup_drop. rewrite <- Hx. f_equal. lia.
      * apply IH; [lia|lia| |done].
        intros i x Hi Hx. apply rankCompare_not_negative in Hc; [|done..].
        destruct (decide (i = mid)) as [->|Hne]; [congruence|].
        eapply byRank_trans; [|exact Hc].
        apply (StronglySorted_app_1_elem_of byRank (take mid sorted)
                 (drop mid sorted)).
        -- by rewrite take_drop.
        -- apply list_elem_of_lookup. exists i.
           rewrite lookup_take_lt by lia. done.
        -- apply list_elem_of_lookup. exists 0%nat.
           rewrite lookup_drop. rewrite <- Hel. f_equal. lia.
    + apply Nat.ltb_ge in Hlt. assert (left = right) as -> by lia.
      split; [lia|]. split.
      * apply Forall_lookup. intros i x Hi.
        apply lookup_take_Some in Hi as [Hi ?]. eauto.
      * apply Forall_lookup. intros i x Hi. rewrite lookup_drop in Hi.
        eapply Hhigh; [|exact Hi]. lia.
Qed.

Lemma below_other_rank r a b :
  sameNumber (rank a) r = true -> below a b \/ below b a ->
  sameNumber (rank b) r = false.
Proof.
  intros Ha Hab. destruct (sameNumber (rank b) r) eqn:Hb; [|done].
  apply sameNumber_numLe in Ha as [? ?]. apply sameNumber_numLe in Hb as [? ?].
  assert (byRank a b) by (unfold byRank; by eapply numLe_trans).
  assert (byRank b a) by (unfold byRank; by eapply numLe_trans).
  destruct Hab as [[_ []]|[_ []]]; done.
Qed.

Lemma insert_sorted pivot sorted k :
  StronglySorted byRank sorted ->
  Forall (fun x => byRank x pivot) (take k sorted) ->
  Forall (fun x => below pivot x) (drop k sorted) ->
  StronglySorted byRank (take k sorted ++ pivot :: drop k sorted).
Proof.
  intros Hs Hlow Hhigh. rewrite <- (take_drop k sorted) in Hs.
  apply StronglySorted_app in Hs as (Hcross & Hl & Hr).
  apply StronglySorted_app_2; [|done|].
  - intros x1 x2 H1 [->|H2]%elem_of_cons; [|by apply Hcross].
    rewrite Forall_forall in Hlow. by apply Hlow.
  - constructor; [done|]. eapply Forall_impl; [exact Hhigh|].
    by intros x [? _].
Qed.

Lemma insert_ofRank r pivot sorted k :
  Forall (fun x => below pivot x) (drop k sorted) ->
  ofRank r (take k sorted ++ pivot :: drop k sorted)
  = ofRank r (sorted ++ [pivot]).
Proof.
  intros Hhigh. rewrite <- (take_drop k sorted) at 3.
  rewrite !ofRank_app, !ofRank_cons.
  destruct (sameNumber (rank pivot) r) eqn:Hp.
  - rewrite (ofRank_none r (drop k sorted)).
    + change (ofRank r []) with (@nil TrendItem). by rewrite !app_nil_r.
    + eapply Forall_impl; [exact Hhigh|]. intros x Hx.
      eapply below_other_rank; [exact Hp|by left].
  - change (ofRank r []) with (@nil TrendItem). by rewrite !app_nil_r.
Qed.

Lemma BinaryInsertionSort_sorted rest : forall sorted,
  Forall (fun it => rank it <> NaN) (sorted ++ rest) ->
  StronglySorted byRank sorted ->
  StronglySorted byRank (BinaryInsertionSort rankCompare sorted rest)
  /\ forall r,
       ofRank r (BinaryInsertionSort rankCompare sorted rest)
       = ofRank r (sorted ++ rest).
Proof.
  induction rest as [|pivot rest IH]; intros sorted Hnan Hs.
  - simpl. by rewrite app_nil_r.
  - apply Forall_app in Hnan as [Hsn Hrn].
    apply Forall_cons in Hrn as [Hp Hrn].
    destruct (insertionPoint_spec pivot sorted Hp Hsn Hs (length sorted) 0
                (length sorted)) as (Hk & Hlow & Hhigh);
      [lia|lia|intros; lia|..].
    { intros i x Hi Hx. apply lookup_lt_Some in Hx. lia. }
    cbn [BinaryInsertionSort]. cbv zeta.
    set (k := insertionPoint rankCompare pivot sorted (length sorted) 0
                (length sorted)) in *.
    destruct (IH (take k sorted ++ pivot :: drop k sorted)) as [Hsorted Hranks].
    + apply Forall_app. split; [|done].
      apply Forall_app. split; [by apply Forall_take|].
      constructor; [done|by apply Forall_drop].
    + by apply insert_sorted.
    + split; [done|]. intros r.
      rewrite Hranks, (ofRank_app r (_ ++ _)), insert_ofRank by done.
      by rewrite <- ofRank_app, <- app_assoc.
Qed.

Lemma runTail_le {A} (cmp : A -> A -> number) d rest : forall previous,
  (runTail cmp d previous rest <= length rest)%nat.
Proof.
  induction rest as [|x rest IH]; intros previous; simpl; [lia|].
  destruct (Bool.eqb _ _); [|lia]. specialize (IH x). lia.
Qed.

Lemma runTail_descending rest : forall previous,
  Sorted (fun a b => below b a)
    (previous :: take (runTail rankCompare true previous rest) rest).
Proof.
  induction rest as [|x rest IH]; intros previous; simpl.
  - repeat constructor.
  - destruct (orderNegative (rankCompare x previous)) eqn:Hc; simpl.
    + constructor; [apply IH|]. constructor. by apply rankCompare_negative.
    + repeat constructor.
Qed.

Lemma runTail_ascending_sorted rest : forall previous,
  Forall (fun it => rank it <> NaN) (previous :: rest) ->
  Sorted byRank
    (previous :: take (runTail rankCompare false previous rest) rest).
Proof.
  induction rest as [|x rest IH]; intros previous Hnan; simpl.
  - repeat constructor.
  - apply Forall_cons in Hnan as [Hp Hnan]. pose proof Hnan as Hnan'.
    apply Forall_cons in Hnan' as [Hx _].
    destruct (orderNegative (rankCompare x previous)) eqn:Hc; simpl.
    + repeat constructor.
    + constructor; [by apply IH|]. constructor.
      by apply rankCompare_not_negative.
Qed.

Lemma below_trans a b c : below a b -> below b c -> below a c.
Proof. intros Hab [Hbc _]. by eapply below_byRank. Qed.

Lemma StronglySorted_rev {A} (R : A -> A -> Prop) l :
  StronglySorted R l -> StronglySorted (fun a b => R b a) (rev l).
Proof.
  induction 1 as [|x l Hs IH Hx]; simpl; [constructor|].
  apply StronglySorted_app_2; [|done|repeat constructor].
  intros x1 x2 H1 ->%list_elem_of_singleton.
  rewrite Forall_forall in Hx. apply Hx.
  apply list_elem_of_In. apply in_rev. by apply list_elem_of_In.
Qed.

Lemma StronglySorted_weaken {A} (R S : A -> A -> Prop) l :
  (forall a b, R a b -> S a b) -> StronglySorted R l -> StronglySorted S l.
Proof.
  intros HRS. induction 1 as [|x l Hs IH Hx]; constructor; [done|].
  eapply Forall_impl; [exact Hx|]. auto.
Qed.

Lemma ofRank_descending r l :
  StronglySorted (fun a b => below b a) l -> ofRank r (rev l) = ofRank r l.
Proof.
  intros Hs. unfold ofRank. rewrite List.filter_rev.
  assert (Hshort : (length (ofRank r l) <= 1)%nat).
  { induction Hs as [|x l Hs IH Hx]; simpl; [lia|].
    unfold ofRank. simpl. destruct (sameNumber (rank x) r) eqn:Hr; [|done].
    fold (ofRank r l). rewrite (ofRank_none r l); [simpl; lia|].
    eapply Forall_impl; [exact Hx|]. intros y Hy.
    eapply below_other_rank; [exact Hr|by right]. }
  unfold ofRank in Hshort.
  destruct (List.filter _ l) as [|a [|b rest]]; simpl in *; [done|done|lia].
Qed.

Lemma CountAndMakeRun_sorted l :
  Forall (fun it => rank it <> NaN) l ->
  let '(n, w) := CountAndMakeRun rankCompare l in
  StronglySorted byRank (take n w)
  /\ forall r, ofRank r w = ofRank r l.
Proof.
  intros Hnan. destruct l as [|a [|b rest]].
  - simpl. split; [constructor|done].
  - simpl. split; [repeat constructor|done].
  - unfold CountAndMakeRun.
    destruct (orderNegative (rankCompare b a)) eqn:Hc.
    + set (t := runTail rankCompare true b rest).
      assert (Hrun : StronglySorted (fun x y => below y x)
                       (take (2 + t) (a :: b :: rest))).
      { apply Sorted_StronglySorted.
        - intros x y z Hxy Hyz. by eapply below_trans.
        - cbn [take Nat.add]. constructor; [apply runTail_descending|].
          constructor. by apply rankCompare_negative. }
      assert (Hlen : length (rev (take (2 + t) (a :: b :: rest)))
                     = (2 + t)%nat).
      { rewrite length_rev, length_take. cbn [length].
        pose proof (runTail_le rankCompare true rest b). fold t in H. lia. }
      split.
      * rewrite take_app_length' by done.
        eapply StronglySorted_weaken; [|apply StronglySorted_rev, Hrun].
        by intros x y [? _].
      * intros r. rewrite ofRank_app, ofRank_descending by done.
        by rewrite <- ofRank_app, take_drop.
    + set (t := runTail rankCompare false b rest). split; [|done].
      apply Sorted_StronglySorted.
      * intros x y z. apply byRank_trans.
      * cbn [take Nat.add]. apply Forall_cons in Hnan as [Ha Hnan].
        pose proof Hnan as Hnan'. apply Forall_cons in Hnan' as [Hb _].
        constructor; [by apply runTail_ascending_sorted|].
        constructor. by apply rankCompare_not_negative.
Qed.

(** On ranks that are numbers the sort is the stable sort by rank: the
    result is in ascending order, and the items of each rank keep the
    order they had. *)
Lemma Array_sort_sorted l :
  Forall (fun it => rank it <> NaN) l ->
  StronglySorted byRank (Array_sort rankCompare l).
Proof.
  intros Hnan. unfold Array_sort. destruct (length l <? 2)%nat eqn:Hlen.
  - apply Nat.ltb_lt in Hlen. destruct l as [|a [|b rest]];
      [constructor|repeat constructor|simpl in Hlen; lia].
  - pose proof (CountAndMakeRun_sorted l Hnan) as Hrun.
    pose proof (CountAndMakeRun_perm rankCompare l) as Hperm.
    destruct (CountAndMakeRun rankCompare l) as [n w].
    destruct Hrun as [Hs _]. simpl in Hperm.
    apply BinaryInsertionSort_sorted; [|done].
    rewrite take_drop. by rewrite Hperm.
Qed.

Lemma Array_sort_stable l :
  Forall (fun it => rank it <> NaN) l ->
  forall r, ofRank r (Array_sort rankCompare l) = ofRank r l.
Proof.
  intros Hnan r. unfold Array_sort. destruct (length l <? 2)%nat; [done|].
  pose proof (CountAndMakeRun_sorted l Hnan) as Hrun.
  pose proof (CountAndMakeRun_perm rankCompare l) as Hperm.
  destruct (CountAndMakeRun rankCompare l) as [n w].
  destruct Hrun as [Hs Hranks]. simpl in Hperm.
  destruct (BinaryInsertionSort_sorted (drop n w) (take n w)) as [_ Hr];
    [|done|].
  - rewrite take_drop. by rewrite Hperm.
  - by rewrite Hr, take_drop.
Qed.

Lemma rerank_from_ranks k l :
  map rank (imap (fun i x => withRank (ofNat (k + i + 1)) x) l)
  = map ofNat (seq (k + 1) (length l)).
Proof.
  revert k. induction l as [|x l IH]; intros k; simpl; [done|].
  f_equal. { do 2 f_equal. lia. }
  etransitivity; [|apply (IH (S k))].
  f_equal. apply imap_ext. intros i y _. simpl. do 2 f_equal. lia.
Qed.

Lemma rerank_ranks l : map rank (rerank l) = map ofNat (seq 1 (length l)).
Proof. apply (rerank_from_ranks 0). Qed.

Lemma rerank_length l : length (rerank l) = length l.
Proof. apply length_imap. Qed.

Lemma rerank_lookup l i o :
  rerank l !! i = Some o <->
  exists s, l !! i = Some s /\ o = withRank (ofNat (i + 1)) s.
Proof.
  unfold rerank. rewrite list_lookup_imap.
  destruct (l !! i); simpl; split.
  - intros [= <-]. eauto.
  - intros (s & [= ->] & ->). done.
  - done.
  - intros (s & ? & _). done.
Qed.

Lemma imap_withRank_ids (f : nat -> number) l :
  map id (imap (fun i x => withRank (f i) x) l) = map id l.
Proof.
  revert f. induction l as [|x l IH]; intros f; simpl; [done|].
  f_equal. apply (IH (f ∘ S)).
Qed.

Lemma rerank_ids l : map id (rerank l) = map id l.
Proof. apply (imap_withRank_ids (fun i => ofNat (i + 1))). Qed.

Lemma normalizeTrends_unfold items :
  normalizeTrends items =
  rerank (take 50 (Array_sort rankCompare
                     (Map_values (fold_left dedupeStep items [])))).
Proof. reflexivity. Qed.
End Normalisation.

(** The claim of C1 at a batch with a rank that is NaN: of three items with
    distinct ids and the ranks 2, NaN and 1, all are kept, in the order
    they came in.  The item of rank 2 is numbered 1 and the item of rank 1
    is numbered 3: the survivors are not in ascending order of their
    original ranks.  The batch is what the structured parser returns for
    the response [nanRank], where the string "x" reads as NaN. *)
Lemma normalizeTrends_NaN_rank_breaks_order :
  normalizeTrends [ex_two; ex_nan; ex_one]
  = [withRank (ofZ 1) ex_two; withRank (ofZ 2) ex_nan;
     withRank (ofZ 3) ex_one]
  /\ rank ex_two = ofZ 2
  /\ rank ex_one = ofZ 1
  /\ ~ numLe (rank ex_two) (rank ex_one)
  /\ parseTikTokResponse (runtime := decimalRuntime) nanRank
     = Resolved [ex_two; ex_nan; ex_one].
Proof.
  split; [reflexivity|]. split; [reflexivity|]. split; [reflexivity|].
  split; [|vm_compute; reflexivity].
  simpl. unfold Qle. simpl. lia.
Qed.

(** C1, amended.  Normalisation keeps, for each id, the first item carrying it
    (dedupe, first occurrence wins); orders these survivors by their
    original rank, ascending, whenever no rank is NaN; keeps the first 50 at
    most; and numbers the result 1..N in its new order, leaving the other
    fields as they were.  On the example batch [a(3), b(1), a(3)] the result
    is [b(1), a(2)], of length 2. *)
Theorem normalizeTrends_dedupes_sorts_truncates_reranks :
  (forall items : list TrendItem,
     exists survivors : list TrendItem,
       (forall it, In it survivors <-> firstWithId (id it) items = Some it)
       /\ NoDup (map id survivors)
       /\ (Forall (fun it => rank it <> NaN) items ->
           StronglySorted (fun a b => numLe (rank a) (rank b)) survivors)
       /\ length (normalizeTrends items) = Nat.min 50 (length survivors)
       /\ (forall i o,
             normalizeTrends items !! i = Some o <->
             (i < 50)%nat /\
             exists s, survivors !! i = Some s
                       /\ o = withRank (ofNat (i + 1)) s)
       /\ map rank (normalizeTrends items)
          = map ofNat (seq 1 (length (normalizeTrends items)))
       /\ NoDup (map id (normalizeTrends items)))
  /\ (forall ta aa ca tb ab cb,
        let a := mkTrendItem "a" (ofZ 3) ta aa (ofZ 100) ca in
        let b := mkTrendItem "b" (ofZ 1) tb ab (ofZ 50) cb in
        normalizeTrends [a; b; a]
        = [mkTrendItem "b" (ofZ 1) tb ab (ofZ 50) cb;
           mkTrendItem "a" (ofZ 2) ta aa (ofZ 100) ca]
        /\ length (normalizeTrends [a; b; a]) = 2%nat).
Proof.
  split.
  - intros items.
    set (deduped := fold_left dedupeStep items []).
    exists (Array_sort rankCompare (Map_values deduped)).
    destruct (dedupe_fold_invariants items []) as [Hkeyed Hnodup];
      [constructor | constructor |]. fold deduped in Hkeyed, Hnodup.
    assert (Hmem : forall it, In it (Map_values deduped)
                              <-> firstWithId (id it) items = Some it).
    { intros it. unfold deduped. rewrite dedupe_fold_members. simpl. tauto. }
    assert (Hids : map id (Map_values deduped) = map fst deduped).
    { unfold Map_values. rewrite map_map. apply map_ext_Forall.
      eapply Forall_impl; [exact Hkeyed|]. simpl. congruence. }
    assert (Hsurv :
      NoDup (map id (Array_sort rankCompare (Map_values deduped)))).
    { rewrite (Array_sort_perm rankCompare), Hids. done. }
    rewrite normalizeTrends_unfold. fold deduped.
    split_and!.
    + intros it. rewrite <- Hmem. rewrite <- !list_elem_of_In.
      by rewrite (Array_sort_perm rankCompare).
    + done.
    + intros Hnan. apply Array_sort_sorted.
      apply Forall_forall. intros it Hit. apply list_elem_of_In, Hmem in Hit.
      apply find_some in Hit as [Hit _].
      rewrite Forall_forall in Hnan. apply Hnan. by apply list_elem_of_In.
    + rewrite rerank_length, length_take. done.
    + intros i o. rewrite rerank_lookup. split.
      * intros (s & Hs & ->). apply lookup_take_Some in Hs as [Hs Hi]. eauto.
      * intros (Hi & s & Hs & ->). exists s. split; [|done].
        by rewrite lookup_take_lt.
    + rewrite rerank_length. apply rerank_ranks.
    + rewrite rerank_ids. rewrite <- firstn_map.
      eapply sublist_NoDup; [exact Hsurv | apply sublist_take].
  - intros. split; reflexivity.
Qed.

(** ** Circuit breaker *)

Lemma recordFailures_cons t times b :
  recordFailures (t :: times) b
  = recordFailures times (recordCircuitFailure (fst t) (snd t) b).
Proof. reflexivity. Qed.

Lemma recordCircuitFailure_count now later b :
  failureCount (recordCircuitFailure now later b) = failureCount b + 1.
Proof.
  unfold recordCircuitFailure.
  destruct (CIRCUIT_THRESHOLD <=? failureCount b + 1); reflexivity.
Qed.

Lemma recordCircuitFailure_isOpen now later b :
  isOpen (recordCircuitFailure now later b)
  = isOpen b || (CIRCUIT_THRESHOLD <=? failureCount b + 1).
Proof.
  unfold recordCircuitFailure.
  destruct (CIRCUIT_THRESHOLD <=? failureCount b + 1); simpl;
    [by rewrite orb_true_r | by rewrite orb_false_r].
Qed.

(** After any number of consecutive failures the counter has grown by that
    number, and the breaker is open exactly if it was open before or the
    counter has reached the threshold. *)
Lemma recordFailures_state times : forall b,
  failureCount (recordFailures times b)
  = failureCount b + Z.of_nat (length times)
  /\ isOpen (recordFailures times b)
     = isOpen b
       || (negb (length times =? 0)%nat
           && (CIRCUIT_THRESHOLD <=? failureCount b + Z.of_nat (length times))).
Proof.
  induction times as [|t0 times IH]; intros b.
  - simpl. split; [lia | by rewrite orb_false_r].
  - rewrite recordFailures_cons.
    destruct (IH (recordCircuitFailure (fst t0) (snd t0) b)) as [Hc Ho].
    rewrite Hc, Ho, recordCircuitFailure_count, recordCircuitFailure_isOpen.
    split; [simpl length; lia|].
    simpl length. unfold CIRCUIT_THRESHOLD.
    destruct (isOpen b); simpl; [done|].
    destruct times as [|t times]; simpl length; simpl negb; simpl andb;
      repeat match goal with
             | |- context [?x <=? ?y] => destruct (Z.leb_spec x y)
             end; simpl; try done; lia.
Qed.

Lemma recordFailures_nextAttempt times t b :
  CIRCUIT_THRESHOLD <= failureCount b + Z.of_nat (length times) + 1 ->
  nextAttemptTime (recordFailures (times ++ [t]) b) = snd t + CIRCUIT_TIMEOUT.
Proof.
  intros Hc. unfold recordFailures. rewrite fold_left_app. simpl.
  fold (recordFailures times b).
  unfold recordCircuitFailure.
  destruct (recordFailures_state times b) as [-> _].
  destruct (Z.leb_spec CIRCUIT_THRESHOLD
              (failureCount b + Z.of_nat (length times) + 1)); [done|lia].
Qed.

(** C2.  With the threshold of 5, a closed breaker with no recorded failure
    is open after five consecutive failures, with its next attempt due one
    timeout after the last of them; [canExecute] then answers false at every
    time before that instant and true again from that instant on; and one
    [recordSuccess] puts the counter back to 0 and closes the breaker. *)
Theorem circuit_breaker_opens_after_threshold_and_recovers :
  CIRCUIT_THRESHOLD = 5
  /\ (forall (b : CircuitBreakerState) (t1 t2 t3 t4 t5 : Z * Z),
        isOpen b = false -> failureCount b = 0 ->
        let opened := recordFailures [t1; t2; t3; t4; t5] b in
        isOpen opened = true
        /\ failureCount opened = 5
        /\ nextAttemptTime opened = snd t5 + CIRCUIT_TIMEOUT
        /\ (forall now, now < nextAttemptTime opened ->
                        canExecuteCircuit now opened = (false, opened))
        /\ (forall now, nextAttemptTime opened < now ->
                        fst (canExecuteCircuit now opened) = true))
  /\ (forall b : CircuitBreakerState,
        failureCount (recordCircuitSuccess b) = 0
        /\ isOpen (recordCircuitSuccess b) = false).
Proof.
  split; [reflexivity|]. split; [|by intros b].
  intros b t1 t2 t3 t4 t5 Hopen Hcount opened.
  destruct (recordFailures_state [t1; t2; t3; t4; t5] b) as [Hc Ho].
  fold opened in Hc, Ho. rewrite Hopen, Hcount in Ho. rewrite Hcount in Hc.
  assert (Hn : nextAttemptTime opened = snd t5 + CIRCUIT_TIMEOUT).
  { apply (recordFailures_nextAttempt [t1; t2; t3; t4] t5 b).
    rewrite Hcount. unfold CIRCUIT_THRESHOLD. simpl. lia. }
  simpl in Hc, Ho.
  split_and!; try done.
  - intros now Hlt. unfold canExecuteCircuit. rewrite Ho. simpl.
    destruct (Z.leb_spec (nextAttemptTime opened) now); [lia|done].
  - intros now Hlt. unfold canExecuteCircuit. rewrite Ho. simpl.
    destruct (Z.leb_spec (nextAttemptTime opened) now); [done|lia].
Qed.

(** Five failures from start-up, the last one reading the clock at 50 and
    at 51. *)
Lemma circuit_breaker_opens_after_threshold_and_recovers_witness :
  let opened :=
    recordFailures [at_ 10; at_ 20; at_ 30; at_ 40; (50, 51)] initialBreaker in
  isOpen opened = true
  /\ failureCount opened = 5
  /\ nextAttemptTime opened = 51 + CIRCUIT_TIMEOUT
  /\ (forall now, now < nextAttemptTime opened ->
                  canExecuteCircuit now opened = (false, opened))
  /\ (forall now, nextAttemptTime opened < now ->
                  fst (canExecuteCircuit now opened) = true).
Proof.
  apply (proj1 (proj2 circuit_breaker_opens_after_threshold_and_recovers));
    reflexivity.
Defined.

(** The claim of C3 at a concrete breaker: opened by five failures at time
    0, probed at time 300000 (the timeout has elapsed, the call is let
    through), the probe failing at time 300001.  The breaker is still
    closed after that one failure. *)
Lemma failed_probe_does_not_reopen :
  let opened :=
    recordFailures [at_ 0; at_ 0; at_ 0; at_ 0; at_ 0] initialBreaker in
  let probe := canExecuteCircuit 300000 opened in
  isOpen opened = true
  /\ nextAttemptTime opened <= 300000
  /\ fst probe = true
  /\ isOpen (recordCircuitFailure 300001 300001 (snd probe)) = false.
Proof. vm_compute. repeat split; congruence. Qed.

(** C3, amended.  Once the timeout of an open breaker has elapsed,
    [canExecute] lets the next call through and closes the breaker with its
    counter at 0.  A probe that then fails counts as the first failure of a
    closed breaker: after it the breaker is closed with counter 1, it stays
    closed through fewer than five consecutive failures, and it is open
    again after five. *)
Theorem elapsed_timeout_closes_and_restarts_count :
  forall (b : CircuitBreakerState) (now : Z),
    isOpen b = true -> nextAttemptTime b <= now ->
    let probe := canExecuteCircuit now b in
    fst probe = true
    /\ isOpen (snd probe) = false
    /\ failureCount (snd probe) = 0
    /\ (forall now' later,
          isOpen (recordCircuitFailure now' later (snd probe)) = false
          /\ failureCount (recordCircuitFailure now' later (snd probe)) = 1)
    /\ (forall times,
          isOpen (recordFailures times (snd probe)) = true
          <-> (5 <= length times)%nat).
Proof.
  intros b now Hopen Hdue probe. subst probe. unfold canExecuteCircuit.
  rewrite Hopen. simpl.
  destruct (Z.leb_spec (nextAttemptTime b) now); [|lia]. simpl.
  split_and!; try done.
  intros times.
  match goal with |- isOpen (recordFailures _ ?c) = _ <-> _ =>
    destruct (recordFailures_state times c) as [_ ->] end.
  cbn [isOpen failureCount orb]. unfold CIRCUIT_THRESHOLD.
  rewrite andb_true_iff, negb_true_iff, Nat.eqb_neq, Z.leb_le. lia.
Qed.

(** A breaker opened at time 0 and probed when its timeout has elapsed. *)
Lemma elapsed_timeout_closes_and_restarts_count_witness :
  let b := recordFailures [at_ 0; at_ 0; at_ 0; at_ 0; at_ 0] initialBreaker in
  let probe := canExecuteCircuit 300000 b in
  fst probe = true
  /\ isOpen (snd probe) = false
  /\ failureCount (snd probe) = 0
  /\ (forall now' later,
        isOpen (recordCircuitFailure now' later (snd probe)) = false
        /\ failureCount (recordCircuitFailure now' later (snd probe)) = 1)
  /\ (forall times,
        isOpen (recordFailures times (snd probe)) = true
        <-> (5 <= length times)%nat).
Proof.
  apply (elapsed_timeout_closes_and_restarts_count
           (recordFailures [at_ 0; at_ 0; at_ 0; at_ 0; at_ 0] initialBreaker)
           300000).
  - reflexivity.
  - vm_compute. congruence.
Defined.

(** ** Acquisition *)

Section Acquisition.
Context {world : Collaborators}.

Ltac run_in H :=
  cbv beta iota zeta delta
    [clock puppeteerBreaker proxyGridBreaker DB puppeteerCalls
     proxyGridCalls tagCalls trace fst snd] in H.

Ltac run :=
  cbv beta iota zeta delta
    [puppeteerAttempt scrapeWithProxyGridFallback
     tryCatch bind ret act callPuppeteer callProxyGrid recordFailure
     recordSuccess canExecute logWithContext sleep sendAlert
     getStaleData cacheResults emit elapse setBreaker breakerOf
     setPuppeteerBreaker setProxyGridBreaker setDB
     clock puppeteerBreaker proxyGridBreaker DB puppeteerCalls
     proxyGridCalls tagCalls trace fst snd negb andb].

Lemma puppeteerAttempt_empty attempt (w : World) took :
  scrapeWithPuppeteer (puppeteerCalls w) = (took, Resolved []) ->
  puppeteerAttempt attempt w
  = (Resolved None,
     mkWorld (clock w + took) (puppeteerBreaker w) (proxyGridBreaker w)
       (DB w) (S (puppeteerCalls w)) (proxyGridCalls w) (tagCalls w)
       (trace w
          ++ [EvLog Level.warn "Puppeteer scrape returned empty results"])).
Proof.
  intros Hcall. destruct w. run. run_in Hcall. rewrite Hcall. reflexivity.
Qed.

Lemma puppeteerAttempt_thrown attempt (w : World) took e :
  scrapeWithPuppeteer (puppeteerCalls w) = (took, Rejected e) ->
  exists w',
    puppeteerAttempt attempt w = (Resolved None, w')
    /\ puppeteerBreaker w'
       = recordCircuitFailure (clock w + took) (clock w + took)
           (puppeteerBreaker w)
    /\ proxyGridBreaker w' = proxyGridBreaker w
    /\ DB w' = DB w
    /\ puppeteerCalls w' = S (puppeteerCalls w)
    /\ proxyGridCalls w' = proxyGridCalls w
    /\ tagCalls w' = tagCalls w
    /\ clock w'
       = clock w + took
         + (if (attempt <? MAX_RETRIES)%nat
            then calculateRetryDelay (Z.of_nat attempt - 1) else 0)
    /\ ((attempt < MAX_RETRIES)%nat ->
        last (trace w')
        = Some (EvSleep (calculateRetryDelay (Z.of_nat attempt - 1)))).
Proof.
  intros Hcall. destruct w. run. run_in Hcall. rewrite Hcall. run.
  destruct (Nat.ltb_spec attempt MAX_RETRIES); run;
  destruct (CIRCUIT_THRESHOLD <=? _) eqn:Hopen; run;
    (eexists; split; [reflexivity|]); run;
    split_and!; try reflexivity; try lia; intros _; apply last_snoc.
Qed.

(** C4, the primary attempt on an empty result: the attempt ends without
    a result and leaves the primary breaker as it was (no failure is
    recorded); the clock has advanced by the time the scrape took and by
    nothing else, and the one event added is the warning (no backoff
    sleep). *)
Theorem empty_primary_attempt_records_no_failure :
  forall (attempt : nat) (w : World) (took : Z),
    scrapeWithPuppeteer (puppeteerCalls w) = (took, Resolved []) ->
    exists w',
      puppeteerAttempt attempt w = (Resolved None, w')
      /\ puppeteerBreaker w' = puppeteerBreaker w
      /\ clock w' = clock w + took
      /\ trace w'
         = trace w
             ++ [EvLog Level.warn "Puppeteer scrape returned empty results"].
Proof.
  intros attempt w took Hcall.
  rewrite (puppeteerAttempt_empty attempt w took Hcall).
  eexists. split; [reflexivity|]. done.
Qed.

Lemma puppeteerAttempt_failed attempt (w : World) :
  failed (snd (scrapeWithPuppeteer (puppeteerCalls w))) ->
  exists w',
    puppeteerAttempt attempt w = (Resolved None, w')
    /\ DB w' = DB w
    /\ proxyGridBreaker w' = proxyGridBreaker w
    /\ puppeteerCalls w' = S (puppeteerCalls w)
    /\ proxyGridCalls w' = proxyGridCalls w.
Proof.
  destruct (scrapeWithPuppeteer (puppeteerCalls w))
    as [took [data|e]] eqn:Hcall; simpl; intros Hf.
  - subst data. rewrite (puppeteerAttempt_empty attempt w took Hcall).
    eexists. split; [reflexivity|]. done.
  - destruct (puppeteerAttempt_thrown attempt w took e Hcall)
      as (w' & -> & _ & ? & ? & ? & ? & _).
    exists w'. done.
Qed.

Lemma puppeteerLoop_failed attempts : forall w : World,
  (forall k, (k < length attempts)%nat ->
             failed (snd (scrapeWithPuppeteer (puppeteerCalls w + k)))) ->
  exists w',
    puppeteerLoop attempts w = (Resolved None, w')
    /\ DB w' = DB w
    /\ proxyGridBreaker w' = proxyGridBreaker w
    /\ puppeteerCalls w' = (puppeteerCalls w + length attempts)%nat
    /\ proxyGridCalls w' = proxyGridCalls w.
Proof.
  induction attempts as [|attempt rest IH]; intros w Hall.
  - exists w. simpl. split_and!; done.
  - destruct (puppeteerAttempt_failed attempt w)
      as (w1 & Hrun & Hdb & Hpg & Hcalls & Hpc).
    { specialize (Hall 0%nat). rewrite Nat.add_0_r in Hall.
      apply Hall. simpl. lia. }
    destruct (IH w1) as (w2 & Hloop & ? & ? & ? & ?).
    { intros k Hk. rewrite Hcalls.
      replace (S (puppeteerCalls w) + k)%nat with (puppeteerCalls w + S k)%nat
        by lia.
      apply Hall. simpl. lia. }
    exists w2. simpl puppeteerLoop. unfold bind at 1. rewrite Hrun.
    split; [exact Hloop|]. simpl length. split_and!; try congruence; lia.
Qed.

Lemma staleOrNothing_serves env foundLog staleAlert emptyAlert
    (staleItems : list TrendItem) (w : World) :
  (0 < length staleItems)%nat ->
  exists w',
    staleOrNothing env foundLog staleAlert emptyAlert staleItems w
    = (Resolved (rerank staleItems), w')
    /\ puppeteerCalls w' = puppeteerCalls w
    /\ proxyGridCalls w' = proxyGridCalls w.
Proof.
  intros Hlen. apply Nat.ltb_lt in Hlen. destruct w as [c pb gb db pc gc tc tr].
  unfold staleOrNothing. rewrite Hlen. run.
  destruct (truthy (SLACK_WEBHOOK_URL env)); run; eexists; done.
Qed.

Lemma scrapeWithProxyGridFallback_failed env (w : World) staleItems :
  truthy (PROXY_GRID_SECRET env) = true ->
  isOpen (proxyGridBreaker w) = false ->
  failed (snd (scrapeWithProxyGrid (proxyGridCalls w))) ->
  selectStale (DB w) = Resolved (Some staleItems) ->
  (0 < length staleItems)%nat ->
  exists w',
    scrapeWithProxyGridFallback env w = (Resolved (rerank staleItems), w')
    /\ puppeteerCalls w' = puppeteerCalls w
    /\ proxyGridCalls w' = S (proxyGridCalls w).
Proof.
  intros Hsecret Hclosed Hfail Hstale Hlen.
  destruct w as [c pb gb db pc gc tc tr].
  run_in Hclosed. run_in Hfail. run_in Hstale.
  run. rewrite Hsecret. run.
  unfold canExecuteCircuit. rewrite Hclosed. run.
  destruct (scrapeWithProxyGrid gc) as [took [data|e]];
    simpl in Hfail; [subst data; change (0 <? length [])%nat with false|];
    run; destruct (CIRCUIT_THRESHOLD <=? _); run; rewrite Hstale; run;
    match goal with
    | |- context [staleOrNothing env ?a ?b ?c staleItems ?w] =>
        destruct (staleOrNothing_serves env a b c staleItems w Hlen)
          as (w' & -> & Hc1 & Hc2)
    end; exists w'; done.
Qed.

(** C5.  With both breakers closed, the next three calls of the primary
    scraper failing (by throwing or by returning nothing), the secondary
    source configured and its call failing, and a stale read of 10 rows,
    the scrape returns those 10 rows, in their order, with ranks 1..10 and
    all other fields untouched.  Unless an option short-cuts the primary
    path, it gets there through exactly three primary calls and one
    secondary call. *)
Theorem scrape_falls_back_to_reranked_stale_data :
  forall (env : Env) (options : ScrapeOptions) (w : World)
         (staleItems : list TrendItem),
    isOpen (puppeteerBreaker w) = false ->
    isOpen (proxyGridBreaker w) = false ->
    (forall k, (k < 3)%nat ->
               failed (snd (scrapeWithPuppeteer (puppeteerCalls w + k)))) ->
    truthy (PROXY_GRID_SECRET env) = true ->
    failed (snd (scrapeWithProxyGrid (proxyGridCalls w))) ->
    selectStale (DB w) = Resolved (Some staleItems) ->
    length staleItems = 10%nat ->
    exists (out : list TrendItem) (w' : World),
      scrapeTikTokTrends env options w = (Resolved out, w')
      /\ length out = 10%nat
      /\ map rank out = map ofZ [1; 2; 3; 4; 5; 6; 7; 8; 9; 10]
      /\ (forall i o,
            out !! i = Some o <->
            exists s, staleItems !! i = Some s
                      /\ o = withRank (ofNat (i + 1)) s)
      /\ (forceProxyGrid options = false ->
          useStaleFallback options = false ->
          puppeteerCalls w' = (puppeteerCalls w + 3)%nat
          /\ proxyGridCalls w' = (proxyGridCalls w + 1)%nat).
Proof.
  intros env options w staleItems Hp Hg Hprimary Hsecret Hsecondary Hstale Hlen.
  exists (rerank staleItems).
  assert (Hpos : (0 <? length staleItems)%nat = true)
    by (apply Nat.ltb_lt; lia).
  assert (Hshape :
    length (rerank staleItems) = 10%nat
    /\ map rank (rerank staleItems) = map ofZ [1; 2; 3; 4; 5; 6; 7; 8; 9; 10]
    /\ (forall i o,
          rerank staleItems !! i = Some o <->
          exists s, staleItems !! i = Some s
                    /\ o = withRank (ofNat (i + 1)) s)).
  { split_and!.
    - by rewrite rerank_length.
    - rewrite rerank_ranks, Hlen. reflexivity.
    - apply rerank_lookup. }
  destruct Hshape as (Hs1 & Hs2 & Hs3).
  unfold scrapeTikTokTrends. unfold bind at 1.
  assert (Hread : getStaleData w = (Resolved staleItems, w))
    by (unfold getStaleData; by rewrite Hstale).
  rewrite Hread, Hpos. cbn [andb].
  destruct (useStaleFallback options) eqn:Hopt.
  { eexists. split; [reflexivity|]. split_and!; try done. }
  unfold bind at 1.
  assert (Hallowed : canExecute Puppeteer w = (Resolved true, w)).
  { destruct w. run. run_in Hp. unfold canExecuteCircuit. by rewrite Hp. }
  rewrite Hallowed. cbn [negb].
  destruct (forceProxyGrid options) eqn:Hforce.
  { destruct (scrapeWithProxyGridFallback_failed env w staleItems)
      as (w' & -> & ? & ?); try done; [lia|].
    exists w'. split_and!; try done. }
  destruct (puppeteerLoop_failed (seq 1 MAX_RETRIES) w)
    as (w1 & Hloop & Hdb & Hpg & Hcalls & Hpc).
  { intros k Hk. apply Hprimary. by rewrite length_seq in Hk. }
  unfold bind at 1. rewrite Hloop.
  destruct (scrapeWithProxyGridFallback_failed env w1 staleItems)
    as (w' & -> & Hc1 & Hc2); try congruence; [lia|].
  exists w'. split_and!; try done.
  intros _ _. rewrite Hc1, Hc2, Hcalls, Hpc, length_seq.
  unfold MAX_RETRIES. lia.
Qed.
End Acquisition.

(** ** The worker never throws below the store *)

Section Totality.
Context {runtime : JSRuntime} {world : Collaborators}.

Lemma total_ret {A} (a : A) : total (ret a).
Proof. intros w. by exists a, w. Qed.

Lemma total_act f : total (act f).
Proof. intros w. by exists tt, (f w). Qed.

Lemma total_bind {A B} (m : M A) (k : A -> M B) :
  total m -> (forall a, total (k a)) -> total (bind m k).
Proof.
  intros Hm Hk w. destruct (Hm w) as (a & w1 & Hrun).
  destruct (Hk a w1) as (b & w2 & Hrun'). exists b, w2.
  unfold bind. by rewrite Hrun.
Qed.

Lemma total_tryCatch {A} (m : M A) handler :
  (forall e, total (handler e)) -> total (tryCatch m handler).
Proof.
  intros Hh w. unfold tryCatch. destruct (m w) as [[a|e] w1]; [by eauto|].
  apply Hh.
Qed.

Lemma total_if {A} (c : bool) (m1 m2 : M A) :
  total m1 -> total m2 -> total (if c then m1 else m2).
Proof. by destruct c. Qed.

Lemma total_logWithContext level message : total (logWithContext level message).
Proof. apply total_act. Qed.

Lemma total_sleep ms : total (sleep ms).
Proof. apply total_act. Qed.

Lemma total_sendAlert env message : total (sendAlert env message).
Proof.
  unfold sendAlert. apply total_if; [apply total_ret | apply total_act].
Qed.

Lemma total_recordSuccess b : total (recordSuccess b).
Proof. apply total_act. Qed.

Lemma total_recordFailure b : total (recordFailure b).
Proof. intros w. unfold recordFailure. eauto. Qed.

Lemma total_canExecute b : total (canExecute b).
Proof.
  intros w. unfold canExecute.
  destruct (canExecuteCircuit (clock w) (breakerOf b w)). eauto.
Qed.

Lemma total_getStaleData : total getStaleData.
Proof.
  intros w. unfold getStaleData.
  destruct (selectStale (DB w)) as [[r|]|e]; eauto.
Qed.

Lemma total_cacheResults data : total (cacheResults data).
Proof.
  intros w. unfold cacheResults. destruct (0 <? _)%nat; [|by eauto].
  destruct (batch _ _); eauto.
Qed.

Create HintDb total.
#[local] Hint Resolve total_ret total_act total_logWithContext total_sleep
  total_sendAlert total_recordSuccess total_recordFailure total_canExecute
  total_getStaleData total_cacheResults : total.

Ltac total_step :=
  first [ apply total_bind; [|intros ?]
        | apply total_tryCatch; intros ?
        | apply total_if
        | match goal with |- total (match ?x with _ => _ end) => destruct x end
        | solve [auto with total] ].

Lemma total_puppeteerAttempt attempt : total (puppeteerAttempt attempt).
Proof. unfold puppeteerAttempt. repeat total_step. Qed.

Lemma total_puppeteerLoop attempts : total (puppeteerLoop attempts).
Proof.
  induction attempts as [|attempt rest IH]; simpl; [apply total_ret|].
  apply total_bind; [apply total_puppeteerAttempt|].
  intros [data|]; auto with total.
Qed.

Lemma total_staleOrNothing env a b c staleData :
  total (staleOrNothing env a b c staleData).
Proof. unfold staleOrNothing. repeat total_step. Qed.

Lemma total_scrapeWithProxyGridFallback env :
  total (scrapeWithProxyGridFallback env).
Proof.
  unfold scrapeWithProxyGridFallback.
  repeat first [ apply total_staleOrNothing | total_step ].
Qed.

(** The scrape never throws. *)
Lemma total_scrapeTikTokTrends env options :
  total (scrapeTikTokTrends env options).
Proof.
  unfold scrapeTikTokTrends.
  repeat first [ apply total_scrapeWithProxyGridFallback
               | apply total_puppeteerLoop | total_step ].
Qed.

Lemma total_tagAudioWithAI env t a : total (tagAudioWithAI env t a).
Proof.
  intros w. unfold tagAudioWithAI. destruct (negb (AI env)); [by eauto|].
  destruct (aiClassify _ _ _); eauto.
Qed.

Lemma total_processItem env maxTags hm tm ts acc item :
  total (processItem env maxTags hm tm ts acc item).
Proof.
  unfold processItem. destruct acc as [statements tagsGenerated].
  apply total_bind.
  - apply total_if; [|apply total_ret].
    apply total_bind; [apply total_tagAudioWithAI|]. intros ?. apply total_ret.
  - intros [[g v] n]. apply total_ret.
Qed.

Lemma total_processItems env maxTags hm tm ts normalized : forall acc,
  total (processItems env maxTags hm tm ts normalized acc).
Proof.
  induction normalized as [|item rest IH]; intros acc; simpl.
  - apply total_ret.
  - apply total_bind; [apply total_processItem | apply IH].
Qed.

Lemma total_maybeIngestHashtags env ts : total (maybeIngestHashtags env ts).
Proof.
  unfold maybeIngestHashtags. apply total_if; [apply total_ret|].
  intros w. destruct (ingestHashtags ts (DB w)). eauto.
Qed.
End Totality.

(** ** Pipeline results *)

Section Pipeline.
Context {runtime : JSRuntime} {world : Collaborators}.

Lemma bind_resolved {A B} (m : M A) (k : A -> M B) (w w1 : World) a :
  m w = (Resolved a, w1) -> bind m k w = k a w1.
Proof. intros Hm. unfold bind. by rewrite Hm. Qed.

Lemma bind_rejected {A B} (m : M A) (k : A -> M B) (w w1 : World) e :
  m w = (Rejected e, w1) -> bind m k w = (Rejected e, w1).
Proof. intros Hm. unfold bind. by rewrite Hm. Qed.

Lemma bind_now {B} (k : Z -> M B) (w : World) : bind now k w = k (clock w) w.
Proof. reflexivity. Qed.

(** What a run of the pipeline can end in, given what the scrape
    returned. *)
Lemma runPipeline_cases env options (w : World) :
  exists trends w1,
    scrapeTikTokTrends env
      (mkScrapeOptions (opt_forceProxyGrid options)
         (opt_useStaleFallback options)) w
    = (Resolved trends, w1)
    /\ ((trends = []
         /\ runPipeline env options w
            = (Resolved
                 (mkPipelineResult Status.warning
                    (Some "No trends found, using stale data fallback")
                    0 None 0 None (Some stale)
                    (Some (clock w1 - clock w))), w1))
        \/ (trends <> []
            /\ exists r w',
                 runPipeline env options w = (Resolved r, w')
                 /\ status r = Status.warning /\ count r = 0%nat
                 /\ source r = Some puppeteer)
        \/ (trends <> []
            /\ exists e w' db,
                 runPipeline env options w = (Rejected e, w')
                 /\ ((exists ids, selectLatestHistory ids db = Rejected e)
                     \/ (exists ids, selectExistingTags ids db = Rejected e)
                     \/ (exists statements,
                           batch statements db = Rejected e)))
        \/ (trends <> []
            /\ exists r w',
                 runPipeline env options w = (Resolved r, w')
                 /\ status r = Status.success
                 /\ count r = length (normalizeTrends trends)
                 /\ source r
                    = Some (if opt_forceProxyGrid options
                            then proxy_grid else puppeteer))).
Proof.
  destruct (total_scrapeTikTokTrends env
              (mkScrapeOptions (opt_forceProxyGrid options)
                 (opt_useStaleFallback options)) w) as (trends & w1 & Hscrape).
  exists trends, w1. split; [done|].
  remember (runPipeline env options w) as R eqn:HR.
  unfold runPipeline in HR.
  rewrite bind_now, (bind_resolved _ _ _ _ _ Hscrape) in HR.
  destruct trends as [|t trends].
  { left. split; [done|]. by rewrite HR. }
  right. change (length (t :: trends) =? 0)%nat with false in HR.
  cbv iota in HR.
  destruct (length (normalizeTrends (t :: trends)) =? 0)%nat eqn:Hnorm.
  { left. split; [done|]. rewrite HR. eexists _, _.
    split; [reflexivity|]. done. }
  right.
  rewrite bind_now in HR.
  assert (Hids : (length (map id (normalizeTrends (t :: trends))) =? 0)%nat
                 = false) by (by rewrite length_map).
  set (ids := map id (normalizeTrends (t :: trends))) in *.
  destruct (selectLatestHistory ids (DB w1)) as [history|e] eqn:Hhist.
  2:{ left. split; [done|]. exists e, w1, (DB w1). split; [|left; eauto].
      rewrite HR. apply bind_rejected. unfold getLatestHistoryMap.
      by rewrite Hids, Hhist. }
  erewrite bind_resolved in HR
    by (unfold getLatestHistoryMap; rewrite Hids, Hhist; reflexivity).
  destruct (selectExistingTags ids (DB w1)) as [tags|e] eqn:Htags.
  2:{ left. split; [done|]. exists e, w1, (DB w1). split; [|right; left; eauto].
      rewrite HR. apply bind_rejected. unfold getExistingTagMap.
      by rewrite Hids, Htags. }
  erewrite bind_resolved in HR
    by (unfold getExistingTagMap; rewrite Hids, Htags; reflexivity).
  match type of HR with context [processItems ?a ?b ?c ?d ?e ?f ?g] =>
    destruct (total_processItems a b c d e f g w1)
      as ([stmts n] & w2 & Hloop) end.
  rewrite (bind_resolved _ _ _ _ _ Hloop) in HR.
  destruct (batch stmts (DB w2)) as [db'|e] eqn:Hbatch.
  2:{ left. split; [done|]. exists e, w2, (DB w2).
      split; [|right; right; eauto].
      rewrite HR. apply bind_rejected. unfold dbBatch. by rewrite Hbatch. }
  erewrite bind_resolved in HR
    by (unfold dbBatch; rewrite Hbatch; reflexivity).
  match type of HR with context [maybeIngestHashtags ?a ?b] =>
    destruct (total_maybeIngestHashtags a b (setDB db' w2))
      as (h & w3 & Hingest) end.
  rewrite (bind_resolved _ _ _ _ _ Hingest), bind_now in HR.
  right. split; [done|]. rewrite HR. eexists _, _. split; [reflexivity|]. done.
Qed.


(** C10.  A result with status "success" names as its source "proxy-grid"
    when [forceProxyGrid] was set and "puppeteer" otherwise, whichever
    path produced the items; it never names "stale". *)
Theorem success_source_follows_forceProxyGrid :
  forall env options (w w' : World) (r : PipelineResult),
    runPipeline env options w = (Resolved r, w') ->
    status r = Status.success ->
    source r = Some (if opt_forceProxyGrid options
                     then proxy_grid else puppeteer)
    /\ source r <> Some stale.
Proof.
  intros env options w w' r Hrun Hsuccess.
  assert (Hsource : source r = Some (if opt_forceProxyGrid options
                                     then proxy_grid else puppeteer)).
  { destruct (runPipeline_cases env options w)
      as (trends & w1 & _ & [(_ & Hrun') | [(_ & r' & w2 & Hrun' & Hs & _)
           | [(_ & e & w2 & db & Hrun' & _)
             | (_ & r' & w2 & Hrun' & _ & _ & Hsrc)]]]);
      rewrite Hrun in Hrun'; try discriminate.
    - injection Hrun' as -> _. simpl in Hsuccess. discriminate.
    - injection Hrun' as -> _. congruence.
    - injection Hrun' as -> _. exact Hsrc. }
  split; [exact Hsource|]. rewrite Hsource.
  destruct (opt_forceProxyGrid options); discriminate.
Qed.
End Pipeline.

(** ** Tagging quota *)

Section Tagging.
Context {runtime : JSRuntime} {world : Collaborators}.

Lemma missingOr_spec placeholder tag :
  missingOr placeholder tag = true <-> missingOrPlaceholder placeholder tag.
Proof.
  unfold missingOr, missingOrPlaceholder, truthy.
  rewrite orb_true_iff, bool_decide_eq_true.
  destruct tag as [s|]; [|tauto].
  rewrite negb_involutive, String.eqb_eq.
  split; [intros [->|?]; tauto | intros [?|[[= ->]|?]]; try done; tauto].
Qed.

Lemma shouldTag_spec genre vibe :
  shouldTag genre vibe = true <->
  missingOrPlaceholder "unknown" genre \/ missingOrPlaceholder "mixed" vibe.
Proof.
  unfold shouldTag. by rewrite orb_true_iff, !missingOr_spec.
Qed.

Lemma tagAudioWithAI_run env title author (w : World) :
  exists w',
    tagAudioWithAI env title author w
    = (Resolved (taggerReply env w title author), w')
    /\ tagCalls w' = S (tagCalls w).
Proof.
  unfold tagAudioWithAI, taggerReply. destruct (AI env); simpl.
  - destruct (aiClassify _ _ _); eexists; split; try reflexivity; by destruct w.
  - eexists; split; reflexivity.
Qed.

(** One turn of the tagging loop. *)
Lemma processItem_run env maxTags historyMap tagMap timestamp statements
    tagsGenerated item (w : World) :
  let invoked :=
    shouldTag (existingGenre tagMap item) (existingVibe tagMap item)
    && counterLt tagsGenerated maxTags in
  exists w',
    processItem env maxTags historyMap tagMap timestamp
      (statements, tagsGenerated) item w
    = (Resolved
         (statements
            ++ (if invoked
                then let tags :=
                       taggerReply env w (title item) (author item) in
                     itemStatements historyMap timestamp item
                       (Some (genre tags)) (Some (vibe tags))
                else itemStatements historyMap timestamp item
                       (existingGenre tagMap item) (existingVibe tagMap item)),
          if invoked then (tagsGenerated + 1)%nat else tagsGenerated), w')
    /\ tagCalls w' = if invoked then S (tagCalls w) else tagCalls w.
Proof.
  intros invoked. subst invoked. unfold processItem.
  fold (existingGenre tagMap item). fold (existingVibe tagMap item).
  destruct (shouldTag _ _ && counterLt _ _).
  - destruct (tagAudioWithAI_run env (title item) (author item) w)
      as (w' & Hrun & Hcalls).
    exists w'. split; [|done].
    rewrite (bind_resolved _ _ _ _ _
               (bind_resolved _ _ _ _ _ Hrun)). reflexivity.
  - exists w. done.
Qed.

Lemma parseTagLimit_range value :
  exists q, parseTagLimit value = Num q /\ (0 < q)%Q /\ (q <= 50)%Q.
Proof.
  unfold parseTagLimit.
  destruct (StringToNumber (default "15" value)) as [| |q]; simpl;
    try (exists (inject_Z 15); split; [done|]; split; done).
  destruct (Qle_bool q 0) eqn:Hle.
  - exists (inject_Z 15). split; [done|]. split; done.
  - unfold ofZ. simpl. destruct (Qle_bool q (inject_Z 50)) eqn:Hcap.
    + exists q. split; [done|]. apply Qle_bool_iff in Hcap.
      split; [|done]. apply Qnot_le_lt. intros Hq.
      apply Qle_bool_iff in Hq. congruence.
    + exists (inject_Z 50). split; [done|]. split; [done|apply Qle_refl].
Qed.

(** C6.  An item is tagged exactly when its genre or its vibe is missing
    (null or empty) or a placeholder ("unknown", "mixed") and the counter
    of tags generated in this run is still below the limit; each tagged
    item takes one call of the tagger and adds one to the counter,
    whatever the classifier answered; an item that is not tagged keeps
    the tags it had.  The limit is 15 when none is configured and never
    above 50.  With a limit of 2 and five items that all need tags, the
    first two are tagged and the other three keep their tags. *)
Theorem tagging_follows_need_and_quota :
  (forall genre vibe,
     shouldTag genre vibe = true <->
     missingOrPlaceholder "unknown" genre
     \/ missingOrPlaceholder "mixed" vibe)
  /\ (forall env maxTags historyMap tagMap timestamp statements
             tagsGenerated item (w : World),
        let invoked :=
          shouldTag (existingGenre tagMap item) (existingVibe tagMap item)
          && counterLt tagsGenerated maxTags in
        exists w',
          processItem env maxTags historyMap tagMap timestamp
            (statements, tagsGenerated) item w
          = (Resolved
               (statements
                  ++ (if invoked
                      then let tags :=
                             taggerReply env w (title item) (author item) in
                           itemStatements historyMap timestamp item
                             (Some (genre tags)) (Some (vibe tags))
                      else itemStatements historyMap timestamp item
                             (existingGenre tagMap item)
                             (existingVibe tagMap item)),
                if invoked then (tagsGenerated + 1)%nat else tagsGenerated),
             w')
          /\ tagCalls w' = if invoked then S (tagCalls w) else tagCalls w)
  /\ (StringToNumber "15" = ofZ 15 -> parseTagLimit None = ofZ 15)
  /\ (forall value,
        exists q, parseTagLimit value = Num q /\ (0 < q)%Q /\ (q <= 50)%Q)
  /\ (forall env historyMap tagMap timestamp i1 i2 i3 i4 i5 (w : World),
        parseTagLimit (AI_TAG_LIMIT env) = ofZ 2 ->
        Forall (fun item =>
                  shouldTag (existingGenre tagMap item)
                    (existingVibe tagMap item) = true)
          [i1; i2; i3; i4; i5] ->
        exists t1 t2 w',
          processItems env (parseTagLimit (AI_TAG_LIMIT env)) historyMap
            tagMap timestamp [i1; i2; i3; i4; i5] ([], 0%nat) w
          = (Resolved
               (itemStatements historyMap timestamp i1
                  (Some (genre t1)) (Some (vibe t1))
                ++ itemStatements historyMap timestamp i2
                     (Some (genre t2)) (Some (vibe t2))
                ++ itemStatements historyMap timestamp i3
                     (existingGenre tagMap i3) (existingVibe tagMap i3)
                ++ itemStatements historyMap timestamp i4
                     (existingGenre tagMap i4) (existingVibe tagMap i4)
                ++ itemStatements historyMap timestamp i5
                     (existingGenre tagMap i5) (existingVibe tagMap i5),
                2%nat), w')
          /\ tagCalls w' = (tagCalls w + 2)%nat).
Proof.
  split; [apply shouldTag_spec|].
  split; [intros; apply processItem_run|].
  split.
  { intros H15. unfold parseTagLimit. simpl default. rewrite H15. reflexivity. }
  split; [apply parseTagLimit_range|].
  intros env hm tm ts i1 i2 i3 i4 i5 w Hlimit Hneed.
  rewrite Hlimit.
  repeat match goal with
         | H : Forall _ (_ :: _) |- _ => apply Forall_cons in H as [? H]
         end.
  destruct (processItem_run env (ofZ 2) hm tm ts [] 0 i1 w) as (w1 & E1 & C1).
  destruct (processItem_run env (ofZ 2) hm tm ts
              (itemStatements hm ts i1
                 (Some (genre (taggerReply env w (title i1) (author i1))))
                 (Some (vibe (taggerReply env w (title i1) (author i1)))))
              1 i2 w1) as (w2 & E2 & C2).
  set (s2 := itemStatements hm ts i1
               (Some (genre (taggerReply env w (title i1) (author i1))))
               (Some (vibe (taggerReply env w (title i1) (author i1))))
             ++ itemStatements hm ts i2
                  (Some (genre (taggerReply env w1 (title i2) (author i2))))
                  (Some (vibe (taggerReply env w1 (title i2) (author i2))))).
  destruct (processItem_run env (ofZ 2) hm tm ts s2 2 i3 w2) as (w3 & E3 & C3).
  destruct (processItem_run env (ofZ 2) hm tm ts
              (s2 ++ itemStatements hm ts i3 (existingGenre tm i3)
                       (existingVibe tm i3)) 2 i4 w3) as (w4 & E4 & C4).
  destruct (processItem_run env (ofZ 2) hm tm ts
              ((s2 ++ itemStatements hm ts i3 (existingGenre tm i3)
                        (existingVibe tm i3))
               ++ itemStatements hm ts i4 (existingGenre tm i4)
                    (existingVibe tm i4)) 2 i5 w4) as (w5 & E5 & C5).
  repeat match goal with
         | H : shouldTag _ _ = true |- _ => rewrite H in *; clear H
         end.
  change (counterLt 0 (ofZ 2)) with true in *.
  change (counterLt 1 (ofZ 2)) with true in *.
  change (counterLt 2 (ofZ 2)) with false in *.
  cbn [andb] in *. cbv zeta in *.
  exists (taggerReply env w (title i1) (author i1)),
         (taggerReply env w1 (title i2) (author i2)), w5.
  split.
  - cbn [processItems].
    rewrite (bind_resolved _ _ _ _ _ E1), (bind_resolved _ _ _ _ _ E2).
    fold s2. rewrite (bind_resolved _ _ _ _ _ E3),
      (bind_resolved _ _ _ _ _ E4), (bind_resolved _ _ _ _ _ E5).
    unfold ret, s2. by rewrite <- !app_assoc.
  - rewrite C5, C4, C3, C2, C1. lia.
Qed.
End Tagging.

(** ** Growth rate and response parsing *)

(** C8.  The growth rate is 0 when there is no previous snapshot; with a
    previous play count of 1000 it is 50 (per cent) for a current play count
    of 1500 and -50 for a current play count of 500. *)
Theorem growth_rate_sign :
  forall (world : Collaborators),
    (forall current, calculateGrowthRate current None = ofZ 0)
    /\ (forall i r t a c hid hr hs,
          exists q,
            calculateGrowthRate
              (mkTrendItem i r t a (ofZ 1500) c)
              (Some (mkHistoryRow hid (ofZ 1000) hr hs)) = Num q
            /\ (q == 50)%Q /\ (0 < q)%Q)
    /\ (forall i r t a c hid hr hs,
          exists q,
            calculateGrowthRate
              (mkTrendItem i r t a (ofZ 500) c)
              (Some (mkHistoryRow hid (ofZ 1000) hr hs)) = Num q
            /\ (q == -50)%Q /\ (q < 0)%Q).
Proof.
  intros world. split; [reflexivity|].
  split; intros; eexists; (split; [reflexivity|]); split; reflexivity.
Qed.

(** The fallback-HTML parser takes its play counts from [extractPlayCount],
    whose [|| 0] turns NaN into 0. *)
Lemma extractPlayCount_not_NaN (runtime : JSRuntime) (snippet : string) :
  extractPlayCount snippet <> NaN.
Proof.
  unfold extractPlayCount.
  match goal with
  | |- match ?found with _ => _ end <> _ => destruct found as [d|]
  end; [|discriminate].
  unfold orZero. destruct (StringToNumber d) as [| |q]; simpl; try discriminate.
  destruct (negb (Qeq_bool q 0)); discriminate.
Qed.

(** C9, the structured-JSON parser on [oddPlayCounts]: the play counts of
    the parsed items are -5, 5/2 and whatever [Number("abc")] is (NaN in
    the language); none is replaced by 0. *)
Theorem parseTikTokResponse_keeps_invalid_play_counts :
  forall (runtime : JSRuntime),
    parseTikTokResponse oddPlayCounts
    = Resolved
        [mkTrendItem "x" (ofZ 1) "Unknown" "Unknown" (ofZ (-5)) EmptyString;
         mkTrendItem "y" (ofZ 2) "Unknown" "Unknown" (Num (5 # 2)) EmptyString;
         mkTrendItem "z" (ofZ 3) "Unknown" "Unknown" (StringToNumber "abc")
           EmptyString].
Proof. intros runtime. vm_compute. reflexivity. Qed.

(** ** Worked examples *)

(** The example batch has no NaN rank, so its survivors are sorted. *)
Lemma normalizeTrends_dedupes_sorts_truncates_reranks_witness :
  Forall (fun it => rank it <> NaN) [ex_a; ex_b; ex_a]
  /\ exists survivors : list TrendItem,
       StronglySorted (fun a b => numLe (rank a) (rank b)) survivors
       /\ NoDup (map id survivors)
       /\ length (normalizeTrends [ex_a; ex_b; ex_a])
          = Nat.min 50 (length survivors).
Proof.
  assert (Hranks : Forall (fun it => rank it <> NaN) [ex_a; ex_b; ex_a])
    by (repeat constructor; discriminate).
  split; [exact Hranks|].
  destruct (proj1 normalizeTrends_dedupes_sorts_truncates_reranks
              [ex_a; ex_b; ex_a])
    as (survivors & _ & Hnodup & Hsorted & Hlen & _).
  exists survivors. split; [exact (Hsorted Hranks)|]. split; assumption.
Defined.

(** A first attempt whose scrape returns nothing, from start-up. *)
Lemma empty_primary_attempt_records_no_failure_witness :
  let w := memWorld [Resolved []] [] (memStore [] false) in
  exists w',
    puppeteerAttempt 1 w = (Resolved None, w')
    /\ puppeteerBreaker w' = puppeteerBreaker w
    /\ clock w' = clock w + 1000
    /\ trace w'
       = trace w
           ++ [EvLog Level.warn "Puppeteer scrape returned empty results"].
Proof.
  apply (@empty_primary_attempt_records_no_failure
           (memCollaborators [Resolved []] []) 1%nat
           (memWorld [Resolved []] [] (memStore [] false)) 1000).
  reflexivity.
Defined.

(** Primary scraper throwing three times, secondary returning nothing, ten
    stored rows. *)
Lemma scrape_falls_back_to_reranked_stale_data_witness :
  let w := memWorld [] [Resolved []] (memStore staleTen false) in
  exists (out : list TrendItem) w',
    scrapeTikTokTrends exampleEnv (mkScrapeOptions false false) w
    = (Resolved out, w')
    /\ length out = 10%nat
    /\ map rank out = map ofZ [1; 2; 3; 4; 5; 6; 7; 8; 9; 10]
    /\ (forall i o,
          out !! i = Some o <->
          exists s, staleTen !! i = Some s /\ o = withRank (ofNat (i + 1)) s)
    /\ (forceProxyGrid (mkScrapeOptions false false) = false ->
        useStaleFallback (mkScrapeOptions false false) = false ->
        puppeteerCalls w' = (puppeteerCalls w + 3)%nat
        /\ proxyGridCalls w' = (proxyGridCalls w + 1)%nat).
Proof.
  apply (@scrape_falls_back_to_reranked_stale_data
           (memCollaborators [] [Resolved []]) exampleEnv
           (mkScrapeOptions false false)
           (memWorld [] [Resolved []] (memStore staleTen false)) staleTen).
  - reflexivity.
  - reflexivity.
  - intros k _. exact I.
  - reflexivity.
  - reflexivity.
  - reflexivity.
  - reflexivity.
Defined.

(** A limit of "2", no stored tags, five items: the first classification
    fails and falls back to the heuristic, the second succeeds, and both
    count. *)
Lemma tagging_follows_need_and_quota_witness :
  parseTagLimit (runtime := decimalRuntime) None = ofZ 15
  /\ exists t1 t2 w',
       processItems (runtime := decimalRuntime) (world := idleCollaborators)
         exampleEnv
         (parseTagLimit (runtime := decimalRuntime) (AI_TAG_LIMIT exampleEnv))
         noHistory noTags 0
         [ex_nth 0; ex_nth 1; ex_nth 2; ex_nth 3; ex_nth 4] ([], 0%nat)
         idleWorld
       = (Resolved
            (itemStatements (world := idleCollaborators) noHistory 0 (ex_nth 0)
               (Some (genre t1)) (Some (vibe t1))
             ++ itemStatements (world := idleCollaborators) noHistory 0
                  (ex_nth 1) (Some (genre t2)) (Some (vibe t2))
             ++ itemStatements (world := idleCollaborators) noHistory 0
                  (ex_nth 2) (existingGenre noTags (ex_nth 2))
                  (existingVibe noTags (ex_nth 2))
             ++ itemStatements (world := idleCollaborators) noHistory 0
                  (ex_nth 3) (existingGenre noTags (ex_nth 3))
                  (existingVibe noTags (ex_nth 3))
             ++ itemStatements (world := idleCollaborators) noHistory 0
                  (ex_nth 4) (existingGenre noTags (ex_nth 4))
                  (existingVibe noTags (ex_nth 4)),
             2%nat), w')
       /\ tagCalls w' = (tagCalls idleWorld + 2)%nat.
Proof.
  destruct (@tagging_follows_need_and_quota decimalRuntime
              idleCollaborators) as (_ & _ & Hdefault & _ & Hquota).
  split; [apply Hdefault; reflexivity|].
  apply (Hquota exampleEnv noHistory noTags 0 (ex_nth 0) (ex_nth 1) (ex_nth 2)
           (ex_nth 3) (ex_nth 4) idleWorld).
  - reflexivity.
  - repeat constructor.
Defined.



(** A run served from the stale store without any primary call reports
    "puppeteer" as its source. *)
Lemma success_source_follows_forceProxyGrid_witness :
  exists r w',
    runPipeline (runtime := decimalRuntime)
      (world := memCollaborators [] []) exampleEnv staleOptions
      (memWorld [] [] (memStore staleTen false))
    = (Resolved r, w')
    /\ status r = Status.success
    /\ puppeteerCalls w' = 0%nat
    /\ source r = Some puppeteer
    /\ source r <> Some stale.
Proof.
  eexists _, _. split; [vm_compute; reflexivity|].
  split; [reflexivity|]. split; [reflexivity|].
  eapply (@success_source_follows_forceProxyGrid decimalRuntime
            (memCollaborators [] []) exampleEnv staleOptions
            (memWorld [] [] (memStore staleTen false))).
  - vm_compute. reflexivity.
  - reflexivity.
Defined.

(** * Further properties *)

(** ** Retry delay, breaker states and normalisation *)

(** X1.  The retry delay is 1 s doubled once per attempt and capped at
    10 s: for attempt numbers from 0 it lies between 1 s and 10 s, is
    1000 * 2^attempt up to attempt 3 and 10 s from attempt 4 on, and never
    decreases with the attempt number. *)
Theorem calculateRetryDelay_bounded_and_monotone :
  forall attempt : Z,
    0 <= attempt ->
    1000 <= calculateRetryDelay attempt <= 10000
    /\ (attempt <= 3 -> calculateRetryDelay attempt = 1000 * 2 ^ attempt)
    /\ (4 <= attempt -> calculateRetryDelay attempt = 10000)
    /\ (forall later, attempt <= later ->
          calculateRetryDelay attempt <= calculateRetryDelay later).
Proof.
  intros attempt Hpos. unfold calculateRetryDelay, INITIAL_RETRY_DELAY.
  assert (Hone : 1 <= 2 ^ attempt) by (apply Z.pow_le_mono_r with (b := 0) (a := 2); lia).
  split_and!.
  - lia.
  - lia.
  - intros Hsmall.
    assert (2 ^ attempt <= 2 ^ 3) by (apply Z.pow_le_mono_r; lia).
    change (2 ^ 3) with 8 in *. lia.
  - intros Hlarge.
    assert (2 ^ 4 <= 2 ^ attempt) by (apply Z.pow_le_mono_r; lia).
    change (2 ^ 4) with 16 in *. lia.
  - intros later Hle.
    assert (2 ^ attempt <= 2 ^ later) by (apply Z.pow_le_mono_r; lia).
    lia.
Qed.

Lemma calculateRetryDelay_bounded_and_monotone_witness :
  1000 <= calculateRetryDelay 2 <= 10000
  /\ (2 <= 3 -> calculateRetryDelay 2 = 1000 * 2 ^ 2)
  /\ (4 <= 2 -> calculateRetryDelay 2 = 10000)
  /\ (forall later, 2 <= later ->
        calculateRetryDelay 2 <= calculateRetryDelay later).
Proof. apply (calculateRetryDelay_bounded_and_monotone 2). lia. Defined.

(** X2.  The state reported for a breaker agrees with what [canExecuteCircuit]
    would answer at the same instant: the call is let through exactly when
    the reported breaker is closed or its reported time until reset is 0,
    and refused exactly when it is reported open with time left, which is
    then the time to its next attempt.  The reported time is never
    negative. *)
Theorem circuit_state_view_matches_canExecute :
  forall (now : Z) (b : CircuitBreakerState),
    let view := getCircuitState now b in
    view_isOpen view = isOpen b
    /\ view_failureCount view = failureCount b
    /\ 0 <= timeUntilReset view
    /\ (fst (canExecuteCircuit now b) = true
        <-> isOpen b = false \/ timeUntilReset view = 0)
    /\ (fst (canExecuteCircuit now b) = false
        <-> isOpen b = true /\ timeUntilReset view = nextAttemptTime b - now
            /\ 0 < timeUntilReset view).
Proof.
  intros now b. unfold getCircuitState, canExecuteCircuit. cbn.
  destruct (isOpen b); cbn;
    destruct (Z.leb_spec (nextAttemptTime b) now); cbn;
    split_and!; try done; try lia; try (split; [intros; lia | intros [? | ?]; try done; lia]);
    try (split; [done | intros (? & ? & ?); try done; lia]);
    try (split; [intros; split_and!; try done; lia | done]).
Qed.

(** X3.  [canExecuteCircuit] changes a breaker only by closing it: a refusal
    leaves the breaker as it was; once a call is let through, the breaker
    lets every later call through, at any time, until a failure is
    recorded; the answer for a given breaker never turns from yes to no as
    time passes; and the two time stamps are never touched. *)
Theorem canExecute_refusal_is_pure_and_permission_is_stable :
  forall (now : Z) (b : CircuitBreakerState),
    (fst (canExecuteCircuit now b) = false ->
     snd (canExecuteCircuit now b) = b)
    /\ (fst (canExecuteCircuit now b) = true ->
        forall later : Z,
          canExecuteCircuit later (snd (canExecuteCircuit now b))
          = (true, snd (canExecuteCircuit now b)))
    /\ (fst (canExecuteCircuit now b) = true ->
        forall later : Z, now <= later ->
          fst (canExecuteCircuit later b) = true)
    /\ (isOpen (snd (canExecuteCircuit now b)) = true -> isOpen b = true)
    /\ (failureCount (snd (canExecuteCircuit now b)) = failureCount b
        \/ failureCount (snd (canExecuteCircuit now b)) = 0)
    /\ lastFailureTime (snd (canExecuteCircuit now b)) = lastFailureTime b
    /\ nextAttemptTime (snd (canExecuteCircuit now b)) = nextAttemptTime b.
Proof.
  intros now b. unfold canExecuteCircuit.
  destruct (isOpen b) eqn:Hopen; cbn.
  - destruct (Z.leb_spec (nextAttemptTime b) now); cbn; split_and!;
      try done; try lia; try tauto.
    intros _ later Hle.
    destruct (Z.leb_spec (nextAttemptTime b) later); [done|lia].
  - split_and!; rewrite ?Hopen; try done; tauto.
Qed.

Lemma breakerConsistent_initial : breakerConsistent initialBreaker.
Proof. unfold breakerConsistent, CIRCUIT_THRESHOLD. simpl. split; [done|lia]. Qed.

Lemma breakerConsistent_success b : breakerConsistent (recordCircuitSuccess b).
Proof. unfold breakerConsistent, CIRCUIT_THRESHOLD. simpl. split; [done|lia]. Qed.

Lemma breakerConsistent_failure now later b :
  breakerConsistent b -> breakerConsistent (recordCircuitFailure now later b).
Proof.
  unfold breakerConsistent, recordCircuitFailure, CIRCUIT_THRESHOLD.
  intros Hb. destruct (Z.leb_spec 5 (failureCount b + 1)); simpl.
  - split; [lia|done].
  - split; [|lia]. intros Ho. apply Hb in Ho. lia.
Qed.

Lemma breakerConsistent_canExecute now b :
  breakerConsistent b -> breakerConsistent (snd (canExecuteCircuit now b)).
Proof.
  unfold breakerConsistent, canExecuteCircuit, CIRCUIT_THRESHOLD. intros Hb.
  destruct (isOpen b) eqn:Ho; simpl; [|by rewrite Ho].
  destruct (nextAttemptTime b <=? now); simpl; [split; [done|lia]|by rewrite Ho].
Qed.

(* normalisation *)
Lemma dedupe_fold_nodup items : forall m : JSMap TrendItem,
  NoDup (map fst m ++ map id items) ->
  fold_left dedupeStep items m = m ++ map (fun it => (id it, it)) items.
Proof.
  induction items as [|x items IH]; intros m Hn; simpl.
  - by rewrite app_nil_r.
  - rewrite dedupeStep_eq.
    assert (Hx : Map_has (id x) m = false).
    { apply Map_has_false_notin. intros Hin. apply list_elem_of_In in Hin.
      apply NoDup_app in Hn as (_ & Hn & _). apply (Hn _ Hin). left. }
    rewrite Hx, IH.
    + by rewrite <- app_assoc.
    + rewrite map_app. simpl. by rewrite <- app_assoc.
Qed.

Lemma ofNat_order i j :
  (i <= j)%nat -> orderNegative (jsSub (ofNat j) (ofNat i)) = false.
Proof.
  intros Hle. unfold orderNegative, ofNat, ofZ. simpl.
  destruct (_ ?= 0)%Q eqn:Hc; try done. apply Qlt_alt in Hc.
  assert (inject_Z (Z.of_nat i) <= inject_Z (Z.of_nat j))%Q
    by (rewrite <- Zle_Qle; lia).
  lra.
Qed.

Lemma rerank_from_sorted k l :
  StronglySorted (fun a b => orderNegative (rankCompare b a) = false)
    (imap (fun i x => withRank (ofNat (k + i + 1)) x) l)
  /\ Forall (fun b => exists j, rank b = ofNat (k + j + 1))
       (imap (fun i x => withRank (ofNat (k + i + 1)) x) l).
Proof.
  revert k. induction l as [|x l IH]; intros k; simpl.
  - split; constructor.
  - destruct (IH (S k)) as [Hs Hf].
    assert (Heq : imap ((fun i x0 => withRank (ofNat (k + i + 1)) x0) ∘ S) l
                  = imap (fun i x0 => withRank (ofNat (S k + i + 1)) x0) l).
    { apply imap_ext. intros i y _. simpl. do 2 f_equal. lia. }
    rewrite Heq. split.
    + constructor; [done|]. eapply Forall_impl; [exact Hf|].
      intros b [j Hj]. unfold rankCompare. simpl. rewrite Hj.
      apply ofNat_order. lia.
    + constructor; [by exists 0%nat|]. eapply Forall_impl; [exact Hf|].
      intros b [j Hj]. exists (S j). rewrite Hj. f_equal. lia.
Qed.

Lemma rerank_rerank l : rerank (rerank l) = rerank l.
Proof.
  apply list_eq. intros i. unfold rerank at 1. rewrite list_lookup_imap.
  destruct (rerank l !! i) as [o|] eqn:Ho; simpl; [|done].
  apply rerank_lookup in Ho as (s & Hs & ->). by destruct s.
Qed.

Lemma deduped_ids items :
  map id (Map_values (fold_left dedupeStep items [])) 
  = map fst (fold_left dedupeStep items []).
Proof.
  destruct (dedupe_fold_invariants items []) as [Hkeyed _];
    [constructor | constructor |].
  unfold Map_values. rewrite map_map. apply map_ext_Forall.
  eapply Forall_impl; [exact Hkeyed|]. simpl. congruence.
Qed.

Lemma normalizeTrends_ids_NoDup items : NoDup (map id (normalizeTrends items)).
Proof.
  destruct (dedupe_fold_invariants items []) as [_ Hnodup];
    [constructor | constructor |].
  rewrite normalizeTrends_unfold, rerank_ids, <- firstn_map.
  eapply sublist_NoDup; [|apply sublist_take].
  rewrite (Array_sort_perm rankCompare), deduped_ids. done.
Qed.

(** X4.  Normalising a normalised batch changes nothing. *)
Theorem normalizeTrends_idempotent :
  forall items : list TrendItem,
    normalizeTrends (normalizeTrends items) = normalizeTrends items.
Proof.
  intros items.
  assert (Hlen : (length (normalizeTrends items) <= 50)%nat).
  { rewrite normalizeTrends_unfold, rerank_length, length_take. lia. }
  assert (Hnodup : NoDup (map id (normalizeTrends items)))
    by apply normalizeTrends_ids_NoDup.
  set (out := normalizeTrends items) in *.
  rewrite (normalizeTrends_unfold out).
  rewrite (dedupe_fold_nodup out []) by done. simpl.
  unfold Map_values. rewrite map_map. simpl. rewrite map_id.
  assert (Hout : out = rerank (take 50 (Array_sort rankCompare
                   (Map_values (fold_left dedupeStep items [])))))
    by apply normalizeTrends_unfold.
  rewrite Array_sort_sorted_id.
  - rewrite take_ge by lia. rewrite Hout. apply rerank_rerank.
  - rewrite Hout. apply StronglySorted_Sorted, (rerank_from_sorted 0).
Qed.

Lemma dedupe_fold_length items : forall m : JSMap TrendItem,
  (length m <= length (fold_left dedupeStep items m) <= length m + length items)%nat.
Proof.
  induction items as [|x items IH]; intros m; simpl; [lia|].
  specialize (IH (dedupeStep m x)). rewrite dedupeStep_eq in *.
  destruct (Map_has (id x) m); [lia|].
  rewrite length_app in IH. simpl in IH. lia.
Qed.

Lemma dedupe_fold_keys items : forall (m : JSMap TrendItem) k,
  In k (map fst (fold_left dedupeStep items m)) ->
  In k (map fst m) \/ In k (map id items).
Proof.
  induction items as [|x items IH]; intros m k Hk; simpl in *; [by left|].
  apply IH in Hk as [Hk|Hk]; [|by right; right].
  rewrite dedupeStep_eq in Hk. destruct (Map_has (id x) m); [by left|].
  rewrite map_app, in_app_iff in Hk. simpl in Hk.
  destruct Hk as [?|[?|[]]]; [by left|by right; left].
Qed.

Lemma normalizeTrends_length items :
  length (normalizeTrends items)
  = Nat.min 50 (length (fold_left dedupeStep items [])).
Proof.
  rewrite normalizeTrends_unfold, rerank_length, length_take.
  f_equal. rewrite (Permutation_length (Array_sort_perm rankCompare _)).
  unfold Map_values. apply length_map.
Qed.

Lemma normalizeTrends_nil_iff items : normalizeTrends items = [] <-> items = [].
Proof.
  split; [|by intros ->].
  intros Hempty. apply (f_equal length) in Hempty.
  rewrite normalizeTrends_length in Hempty.
  destruct items as [|x rest]; [done|]. exfalso.
  pose proof (dedupe_fold_length rest (dedupeStep [] x)) as [Hlow _].
  cbn [fold_left] in Hempty.
  change (dedupeStep [] x) with [(id x, x)] in *.
  cbn [length] in *. lia.
Qed.

(** X5.  Normalisation returns nothing only when it is given nothing; it never
    returns more items than it was given, nor more than 50; and every id
    it returns is the id of an item it was given. *)
Theorem normalizeTrends_empty_only_on_empty :
  forall items : list TrendItem,
    (normalizeTrends items = [] <-> items = [])
    /\ (length (normalizeTrends items) <= Nat.min 50 (length items))%nat
    /\ (forall k, In k (map id (normalizeTrends items)) -> In k (map id items)).
Proof.
  intros items. split_and!.
  - apply normalizeTrends_nil_iff.
  - rewrite normalizeTrends_length.
    pose proof (dedupe_fold_length items []) as [_ Hup]. simpl in Hup. lia.
  - intros k Hk. rewrite normalizeTrends_unfold, rerank_ids in Hk.
    rewrite <- firstn_map in Hk. apply list_elem_of_In in Hk.
    eapply elem_of_sublist in Hk; [|apply sublist_take].
    rewrite (Array_sort_perm rankCompare), deduped_ids in Hk.
    apply list_elem_of_In, dedupe_fold_keys in Hk as [[]|Hk]. exact Hk.
Qed.

Lemma normalizeTrends_of_unique items :
  NoDup (map id items) ->
  (length items <= 50)%nat ->
  exists order : list TrendItem,
    Permutation order items
    /\ normalizeTrends items = rerank order
    /\ length (normalizeTrends items) = length items
    /\ (Forall (fun it => rank it <> NaN) items ->
        StronglySorted byRank order
        /\ forall r, ofRank r order = ofRank r items).
Proof.
  intros Hnodup Hlen. exists (Array_sort rankCompare items).
  assert (Heq : normalizeTrends items = rerank (Array_sort rankCompare items)).
  { rewrite normalizeTrends_unfold, (dedupe_fold_nodup items []) by done.
    simpl. unfold Map_values. rewrite map_map. simpl. rewrite map_id.
    rewrite take_ge; [done|].
    by rewrite (Permutation_length (Array_sort_perm rankCompare items)). }
  split_and!.
  - apply Array_sort_perm.
  - exact Heq.
  - by rewrite Heq, rerank_length, (Permutation_length (Array_sort_perm _ _)).
  - intros Hnan. split; [by apply Array_sort_sorted|by apply Array_sort_stable].
Qed.

(** X6.  A batch of at most 50 items with pairwise distinct ids loses nothing:
    the result has as many items, and it is the batch in some order,
    renumbered from 1.  When no rank is NaN that order is the stable sort
    by rank: the ranks ascend, and the items of any one rank keep the
    order they had in the batch. *)
Theorem normalizeTrends_keeps_unique_batches :
  forall items : list TrendItem,
    NoDup (map id items) ->
    (length items <= 50)%nat ->
    exists order : list TrendItem,
      Permutation order items
      /\ normalizeTrends items = rerank order
      /\ length (normalizeTrends items) = length items
      /\ (Forall (fun it => rank it <> NaN) items ->
          StronglySorted (fun a b => numLe (rank a) (rank b)) order
          /\ forall r, ofRank r order = ofRank r items).
Proof. apply normalizeTrends_of_unique. Qed.

(** The two example items, whose ranks are 3 and 1. *)
Lemma normalizeTrends_keeps_unique_batches_witness :
  exists order : list TrendItem,
    Permutation order [ex_a; ex_b]
    /\ normalizeTrends [ex_a; ex_b] = rerank order
    /\ length (normalizeTrends [ex_a; ex_b]) = length [ex_a; ex_b]
    /\ StronglySorted (fun a b => numLe (rank a) (rank b)) order.
Proof.
  destruct (normalizeTrends_keeps_unique_batches [ex_a; ex_b])
    as (order & Hperm & Heq & Hlen & Hsorted).
  - apply (bool_decide_unpack _). by vm_compute.
  - simpl. lia.
  - exists order. split_and!; [exact Hperm|exact Heq|exact Hlen|].
    apply Hsorted. repeat constructor; discriminate.
Defined.

(** X7.  Whatever sequence of [canExecuteCircuit], [recordCircuitSuccess] and
    [recordCircuitFailure] a breaker has gone through since start-up, at
    whatever times, it is open exactly when its counter has reached the
    threshold, and its counter is not negative. *)
Theorem breaker_open_iff_threshold_reached :
  forall ops : list BreakerOp,
    let b := fold_left applyOp ops initialBreaker in
    (isOpen b = true <-> CIRCUIT_THRESHOLD <= failureCount b)
    /\ 0 <= failureCount b.
Proof.
  intros ops.
  assert (Hinv : forall b,
    breakerConsistent b /\ 0 <= failureCount b ->
    breakerConsistent (fold_left applyOp ops b)
    /\ 0 <= failureCount (fold_left applyOp ops b)).
  { induction ops as [|op ops IH]; intros b [Hc Hn]; [done|].
    simpl. apply IH. destruct op as [now| |now later]; simpl.
    - split; [by apply breakerConsistent_canExecute|].
      unfold canExecuteCircuit. destruct (isOpen b); simpl; [|done].
      by destruct (nextAttemptTime b <=? now).
    - split; [apply breakerConsistent_success|done].
    - split; [by apply breakerConsistent_failure|].
      rewrite recordCircuitFailure_count. lia. }
  apply Hinv. split; [apply breakerConsistent_initial|done].
Qed.

(** ** Response parsers *)

Section Parsing.
Context {runtime : JSRuntime}.

Lemma getProp_spec v k :
  getProp v k
  = if isNullish v then Rejected "TypeError" else Resolved (field v k).
Proof.
  destruct v; try reflexivity. unfold field, getProp.
  by destruct (List.find _ _).
Qed.

Lemma join_cons convert x rest :
  join convert (x :: rest)
  = andThen
      match x with
      | JUndefined | JNull => Resolved EmptyString
      | _ => convert x
      end
      (fun e =>
         match rest with
         | [] => Resolved e
         | _ => andThen (join convert rest)
                  (fun r => Resolved (e +:+ "," +:+ r))
         end).
Proof. reflexivity. Qed.

Lemma join_outcome convert elements :
  Forall
    (fun x =>
       match convert x with
       | Resolved _ => unconvertible x = false
       | Rejected e => e = "TypeError" /\ unconvertible x = true
       end) elements ->
  match join convert elements with
  | Resolved _ => existsb unconvertible elements = false
  | Rejected e => e = "TypeError" /\ existsb unconvertible elements = true
  end.
Proof.
  induction 1 as [|x rest Hx _ IH]; [done|].
  rewrite join_cons. cbn [existsb].
  assert (Hhead :
    match match x with
          | JUndefined | JNull => Resolved EmptyString
          | _ => convert x
          end with
    | Resolved _ => unconvertible x = false
    | Rejected e => e = "TypeError" /\ unconvertible x = true
    end) by (by destruct x).
  destruct (match x with JUndefined | JNull => _ | _ => _ end) as [sx|ex];
    cbn [andThen].
  - rewrite Hhead. cbn [orb]. destruct rest as [|y rest']; [done|].
    destruct (join convert (y :: rest')); cbn [andThen]; exact IH.
  - destruct Hhead as [-> ->]. done.
Qed.

Lemma ToString_outcome : forall v : JSValue,
  match ToString v with
  | Resolved _ => unconvertible v = false
  | Rejected e => e = "TypeError" /\ unconvertible v = true
  end.
Proof.
  fix IH 1. intros [| | b | n | s | elements | properties]; try done.
  - cbn [ToString unconvertible]. apply join_outcome.
    induction elements as [|x rest IHrest]; constructor; [apply IH|done].
  - cbn [ToString unconvertible]. by destruct (hasOwn _ _).
Qed.

Lemma ToNumber_outcome (v : JSValue) :
  match ToNumber v with
  | Resolved _ => unconvertible v = false
  | Rejected e => e = "TypeError" /\ unconvertible v = true
  end.
Proof.
  pose proof (ToString_outcome v) as Hv.
  destruct v; try done; unfold ToNumber; by destruct (ToString _).
Qed.

Lemma unconvertible_nullish a b :
  unconvertible (a ?? b) = true ->
  unconvertible a = true \/ unconvertible b = true.
Proof. destruct a; simpl; auto. Qed.

Lemma parseRecord_spec index record seen :
  parseRecord index record seen
  = if isNullish record then Rejected "TypeError"
    else
      andThen
        (ToString (field record "id" ?? field record "music_id"
                   ?? JString ("tiktok-" +:+ pretty index)))
        (fun id =>
      if decide (id ∈ seen) then Resolved None
      else
        andThen (ToNumber (field record "rank"
                           ?? JNumber (ofNat (index + 1))))
          (fun rank =>
        andThen (ToString (field record "title" ?? field record "name"
                           ?? JString "Unknown"))
          (fun title =>
        andThen (ToString (field record "author" ?? field record "artist"
                           ?? JString "Unknown"))
          (fun author =>
        andThen (ToNumber (field record "play_count"
                           ?? field record "video_count"
                           ?? JNumber (ofZ 0)))
          (fun play_count =>
        andThen (ToString (field record "cover_url" ?? field record "cover"
                           ?? JString EmptyString))
          (fun cover_url =>
        Resolved (Some
          {| id := id; rank := rank; title := title; author := author;
             play_count := play_count; cover_url := cover_url |}))))))).
Proof.
  unfold parseRecord. rewrite !getProp_spec.
  by destruct (isNullish record).
Qed.

Ltac conversions :=
  repeat match goal with
         | |- context [andThen (ToString ?v) _] =>
             let H := fresh "Hconv" in
             pose proof (ToString_outcome v) as H;
             destruct (ToString v); cbn [andThen]
         | |- context [andThen (ToNumber ?v) _] =>
             let H := fresh "Hconv" in
             pose proof (ToNumber_outcome v) as H;
             destruct (ToNumber v); cbn [andThen]
         | |- context [decide (?a ∈ ?b)] => destruct (decide (a ∈ b))
         end.

Lemma parseRecord_fresh index record seen item :
  parseRecord index record seen = Resolved (Some item) -> id item ∉ seen.
Proof.
  rewrite parseRecord_spec. destruct (isNullish record); [done|].
  conversions; try done. by intros [= <-].
Qed.

Lemma unconvertible_field record a b (d : JSValue) :
  unconvertible d = false ->
  a ∈ recordKeys -> b ∈ recordKeys ->
  unconvertible (field record a ?? field record b ?? d) = true ->
  Exists (fun k => unconvertible (field record k) = true) recordKeys.
Proof.
  intros Hd Ha Hb [[H|H]%unconvertible_nullish|H]%unconvertible_nullish;
    [| |congruence]; apply Exists_exists; eauto.
Qed.

Lemma parseRecord_rejects index record seen e :
  parseRecord index record seen = Rejected e ->
  e = "TypeError" /\ faulty record.
Proof.
  rewrite parseRecord_spec. unfold faulty.
  destruct (isNullish record); [intros [= <-]; auto|].
  assert (Hkeys : forall k, k ∈ recordKeys <->
            k ∈ ["id"; "music_id"; "rank"; "title"; "name"; "author";
                 "artist"; "play_count"; "video_count"; "cover_url"; "cover"])
    by done.
  conversions; try done; intros [= <-];
    match goal with
    | H : _ = "TypeError" /\ _ |- _ => destruct H as [-> H]
    end;
    (split; [done|]); right;
    match goal with
    | H : unconvertible (field _ ?a ?? field _ ?b ?? _) = true |- _ =>
        eapply (unconvertible_field record a b); [| | |exact H];
        [done|rewrite Hkeys, !elem_of_cons; auto 20..]
    | H : unconvertible (field _ ?a ?? _) = true |- _ =>
        apply unconvertible_nullish in H as [H|H]; [|done];
        apply Exists_exists; exists a; split; [|done];
        rewrite Hkeys, !elem_of_cons; auto 20
    end.
Qed.

(** The loop keeps the ids of [items] pairwise distinct and recorded in
    [seen], and stops at 50 items. *)
Lemma parseLoop_invariant dataArray : forall index items seen,
  (forall k, k ∈ seen <-> k ∈ map id items) ->
  NoDup (map id items) ->
  (length items < MAX_ITEMS)%nat ->
  match parseLoop dataArray index items seen with
  | Resolved out =>
      NoDup (map id out)
      /\ (length out <= MAX_ITEMS)%nat
      /\ (length out <= length items + length dataArray)%nat
  | Rejected e => e = "TypeError" /\ Exists faulty dataArray
  end.
Proof.
  induction dataArray as [|record rest IH]; intros index items seen Hseen Hn Hl.
  - simpl. split_and!; [done|lia|lia].
  - simpl. destruct (parseRecord index record seen) as [[item|]|e] eqn:Hrec.
    + apply parseRecord_fresh in Hrec.
      assert (Hn' : NoDup (map id (items ++ [item]))).
      { rewrite map_app. simpl. apply NoDup_app. split; [done|].
        split; [|apply NoDup_singleton].
        intros k Hk Hk'. apply list_elem_of_singleton in Hk'. subst k.
        by apply Hseen in Hk. }
      destruct (decide (MAX_ITEMS <= length (items ++ [item]))%nat) as [Hfull|Hroom].
      * rewrite length_app in *. simpl in *. split_and!; [done|lia|lia].
      * specialize (IH (S index) (items ++ [item]) ({[id item]} ∪ seen)).
        destruct (parseLoop rest (S index) (items ++ [item]) _) as [out|e].
        -- destruct IH as (? & ? & Hlen); [|done|lia|].
           { intros k. rewrite map_app, elem_of_union, elem_of_singleton,
               elem_of_app, Hseen. simpl. rewrite list_elem_of_singleton.
             tauto. }
           rewrite length_app in Hlen. simpl in *. split_and!; [done|lia|lia].
        -- destruct IH as (? & ?); [|done|lia|].
           { intros k. rewrite map_app, elem_of_union, elem_of_singleton,
               elem_of_app, Hseen. simpl. rewrite list_elem_of_singleton.
             tauto. }
           split; [done|by apply Exists_cons_tl].
    + specialize (IH (S index) items seen Hseen Hn Hl).
      destruct (parseLoop rest (S index) items seen) as [out|e].
      * destruct IH as (? & ? & ?). simpl. split_and!; [done|lia|lia].
      * destruct IH as (? & ?). split; [done|by apply Exists_cons_tl].
    + apply parseRecord_rejects in Hrec as [-> Hfaulty].
      split; [done|by apply Exists_cons_hd].
Qed.

Lemma parseTikTokResponse_unfold json :
  parseTikTokResponse json
  = if isNullish json then Rejected "TypeError"
    else parseLoop (responseRecords json) 0 [] ∅.
Proof.
  unfold parseTikTokResponse, responseRecords. rewrite getProp_spec.
  by destruct (isNullish json).
Qed.

Lemma parseTikTokResponse_shape json :
  match parseTikTokResponse json with
  | Resolved items =>
      NoDup (map id items)
      /\ (length items <= MAX_ITEMS)%nat
      /\ (length items <= length (responseRecords json))%nat
  | Rejected e =>
      e = "TypeError"
      /\ (isNullish json = true \/ Exists faulty (responseRecords json))
  end.
Proof.
  rewrite parseTikTokResponse_unfold. destruct (isNullish json); [by auto|].
  assert (Hseen : forall k : string, k ∈ (∅ : gset string) <-> k ∈ map id []).
  { intros k. split; [intros []%elem_of_empty | intros []%elem_of_nil]. }
  assert (Hroom : (length (@nil TrendItem) < MAX_ITEMS)%nat)
    by (unfold MAX_ITEMS; simpl; lia).
  pose proof (parseLoop_invariant (responseRecords json) 0 [] ∅
                Hseen (NoDup_nil_2 : NoDup (map id [])) Hroom) as Hinv.
  destruct (parseLoop _ _ _ _) as [out|e]; [exact Hinv|].
  destruct Hinv as [? ?]. auto.
Qed.

(** X8.  The structured parser returns at most 50 items, never more than the
    response has records, with pairwise distinct ids.  It throws only a
    TypeError, and only when the response itself or one of its records is
    [null] or [undefined], or when a field it reads from a record cannot
    be converted: the field is an object with a key [toString] of its
    own, or an array holding one.  A response whose one record has such an
    id makes it throw.  A response whose data is not an array parses to
    the empty list. *)
Theorem parseTikTokResponse_distinct_capped_or_TypeError :
  (forall json : JSValue,
     match parseTikTokResponse json with
     | Resolved items =>
         NoDup (map id items)
         /\ (length items <= 50)%nat
         /\ (length items <= length (responseRecords json))%nat
     | Rejected e =>
         e = "TypeError"
         /\ (isNullish json = true
             \/ Exists
                  (fun record =>
                     isNullish record = true
                     \/ Exists
                          (fun k => unconvertible (field record k) = true)
                          recordKeys)
                  (responseRecords json))
     end)
  /\ parseTikTokResponse ownToString = Rejected "TypeError".
Proof. split; [apply parseTikTokResponse_shape|reflexivity]. Qed.


Lemma nullish_default a b : isNullish a = true -> a ?? b = b.
Proof. by destruct a. Qed.

Lemma parseRecord_bare index record seen :
  bare record ->
  parseRecord index record seen
  = if decide ("tiktok-" +:+ pretty index ∈ seen) then Resolved None
    else Resolved (Some (defaultItem index)).
Proof.
  intros [Hobj Hkeys]. rewrite parseRecord_spec, Hobj. cbv zeta.
  unfold recordKeys in Hkeys.
  repeat match goal with
         | H : Forall _ (_ :: _) |- _ => apply Forall_cons in H as [? H]
         end.
  repeat match goal with
         | H : isNullish ?a = true |- _ => rewrite !(nullish_default a _ H)
         end.
  reflexivity.
Qed.

Lemma parseLoop_bare records : forall index items seen,
  Forall bare records ->
  (forall k, k ∈ seen -> exists j, (j < index)%nat /\ k = "tiktok-" +:+ pretty j) ->
  (length items < MAX_ITEMS)%nat ->
  parseLoop records index items seen
  = Resolved
      (items
         ++ map defaultItem
              (seq index (Nat.min (length records)
                            (MAX_ITEMS - length items)))).
Proof.
  induction records as [|record rest IH]; intros index items seen Hbare Hseen Hl.
  - simpl. by rewrite app_nil_r.
  - apply Forall_cons in Hbare as [Hrecord Hrest].
    simpl parseLoop. rewrite (parseRecord_bare _ _ _ Hrecord).
    destruct (decide _) as [Hin|_].
    { apply Hseen in Hin as (j & Hj & Heq).
      apply String.app_inj, pretty_nat_inj in Heq. lia. }
    destruct (decide (MAX_ITEMS <= length (items ++ [defaultItem index]))%nat)
      as [Hfull|Hroom]; rewrite length_app in *; simpl length in *.
    + replace (Nat.min (S (length rest)) (MAX_ITEMS - length items))
        with 1%nat by lia. reflexivity.
    + rewrite IH; [|done| |rewrite length_app; simpl; lia].
      * rewrite <- app_assoc, length_app. simpl length.
        replace (Nat.min (S (length rest)) (MAX_ITEMS - length items))
          with (S (Nat.min (length rest)
                     (MAX_ITEMS - (length items + 1)))) by lia.
        reflexivity.
      * intros k [Hk|Hk]%elem_of_union.
        -- apply elem_of_singleton in Hk. exists index. split; [lia|done].
        -- apply Hseen in Hk as (j & ? & ?). exists j. split; [lia|done].
Qed.

(** X9.  Records that carry none of the fields the parser reads (or carry
    them as [null]) are all kept, up to 50: the record at index i becomes
    the item with id "tiktok-i", rank i + 1, title and author "Unknown",
    play count 0 and no cover. *)
Theorem parseTikTokResponse_defaults :
  forall records : list JSValue,
    Forall bare records ->
    parseTikTokResponse (JArray records)
    = Resolved (map defaultItem (seq 0 (Nat.min (length records) 50))).
Proof.
  intros records Hbare. rewrite parseTikTokResponse_unfold.
  cbn [isNullish]. change (responseRecords (JArray records)) with records.
  rewrite parseLoop_bare; [|done| |unfold MAX_ITEMS; simpl; lia].
  - reflexivity.
  - intros k []%elem_of_empty.
Qed.


(** X10.  What the structured parser returns goes through normalisation
    whole: nothing is dropped as a duplicate or cut off; the result is
    the parsed items in some order, renumbered from 1.  When none of the
    parsed ranks is NaN that order is the stable sort by rank. *)
Theorem parsed_batches_survive_normalisation :
  forall (json : JSValue) (items : list TrendItem),
    parseTikTokResponse json = Resolved items ->
    exists order : list TrendItem,
      Permutation order items
      /\ normalizeTrends items = rerank order
      /\ length (normalizeTrends items) = length items
      /\ (Forall (fun it => rank it <> NaN) items ->
          StronglySorted (fun a b => numLe (rank a) (rank b)) order
          /\ forall r, ofRank r order = ofRank r items).
Proof.
  intros json items Hparse.
  pose proof (parseTikTokResponse_shape json) as Hshape.
  rewrite Hparse in Hshape. destruct Hshape as (Hnodup & Hlen & _).
  by apply normalizeTrends_of_unique.
Qed.

Lemma digitsPrefix_allDigits s : allDigits (digitsPrefix s) = true.
Proof.
  induction s as [|c r IH]; simpl; [done|].
  destruct (isDigit c) eqn:Hc; simpl; [by rewrite Hc|done].
Qed.

Lemma matchDigitsAfter_digits key s d :
  matchDigitsAfter key s = Some d ->
  d <> EmptyString /\ allDigits d = true.
Proof.
  induction s as [|c r IH].
  - cbn [matchDigitsAfter]. destruct (String.prefix key EmptyString); [|done].
    pose proof (digitsPrefix_allDigits (dropString (String.length key) EmptyString)).
    destruct (digitsPrefix _); [done|]. by intros [= <-].
  - cbn [matchDigitsAfter]. destruct (String.prefix key (String c r)).
    + pose proof (digitsPrefix_allDigits
                    (dropString (String.length key) (String c r))).
      destruct (digitsPrefix _); [exact IH|]. by intros [= <-].
    + exact IH.
Qed.

Lemma extractPlayCount_cases snippet :
  extractPlayCount snippet = ofZ 0
  \/ exists d,
       d <> EmptyString /\ allDigits d = true
       /\ extractPlayCount snippet = StringToNumber d
       /\ truthyNumber (StringToNumber d) = true.
Proof.
  unfold extractPlayCount. cbv zeta.
  match goal with
  | |- context [match ?first with Some d => Some d | None => ?second end] =>
      destruct first as [d|] eqn:H1; [|destruct second as [d|] eqn:H2]
  end; [| |by left].
  all: apply matchDigitsAfter_digits in H1 || apply matchDigitsAfter_digits in H2.
  all: unfold orZero; destruct (truthyNumber (StringToNumber d)) eqn:Ht;
    [right; exists d; tauto | by left].
Qed.

(** X11.  The play count the fallback-HTML parser extracts is 0, or what the
    language reads from a non-empty string of decimal digits, and then not
    0 and not NaN.  As the language reads such a string as a non-negative
    integer or as Infinity, the play count is never negative, fractional
    or NaN. *)
Theorem extractPlayCount_is_a_count :
  (forall d, d <> EmptyString -> allDigits d = true ->
     StringToNumber d = Infinity false
     \/ exists n : Z, 0 <= n /\ StringToNumber d = ofZ n) ->
  forall snippet : string,
    extractPlayCount snippet = Infinity false
    \/ exists n : Z, 0 <= n /\ extractPlayCount snippet = ofZ n.
Proof.
  intros Hreads snippet.
  destruct (extractPlayCount_cases snippet) as [->|(d & Hne & Hd & -> & _)].
  - right. by exists 0.
  - by apply Hreads.
Qed.

End Parsing.

Lemma decimalValue_digits s : forall acc,
  0 <= acc -> allDigits s = true ->
  exists n, 0 <= n /\ decimalValue acc s = Some n.
Proof.
  induction s as [|c r IH]; intros acc Hacc Hd; simpl in *.
  - by exists acc.
  - apply andb_true_iff in Hd as [Hc Hr]. rewrite Hc.
    apply IH; [lia|done].
Qed.

Lemma decimalRuntime_reads_digits d :
  d <> EmptyString -> allDigits d = true ->
  StringToNumber (JSRuntime := decimalRuntime) d = Infinity false
  \/ exists n : Z, 0 <= n /\ StringToNumber (JSRuntime := decimalRuntime) d = ofZ n.
Proof.
  intros Hne Hd. right. destruct d as [|c r]; [done|].
  destruct (decimalValue_digits (String c r) 0 ltac:(lia) Hd) as (n & Hn & Hv).
  exists n. split; [done|]. cbn [StringToNumber decimalRuntime]. by rewrite Hv.
Qed.

Lemma extractPlayCount_is_a_count_witness :
  extractPlayCount (runtime := decimalRuntime) countSnippet = Infinity false
  \/ exists n : Z,
       0 <= n /\ extractPlayCount (runtime := decimalRuntime) countSnippet = ofZ n.
Proof.
  apply (extractPlayCount_is_a_count (runtime := decimalRuntime)
           decimalRuntime_reads_digits countSnippet).
Defined.

(** The response [oddPlayCounts], whose records carry no rank and so get
    the ranks 1, 2 and 3. *)
Lemma parsed_batches_survive_normalisation_witness :
  let items :=
    [mkTrendItem "x" (ofZ 1) "Unknown" "Unknown" (ofZ (-5)) EmptyString;
     mkTrendItem "y" (ofZ 2) "Unknown" "Unknown" (Num (5 # 2)) EmptyString;
     mkTrendItem "z" (ofZ 3) "Unknown" "Unknown" NaN EmptyString] in
  parseTikTokResponse (runtime := decimalRuntime) oddPlayCounts
  = Resolved items
  /\ exists order : list TrendItem,
       Permutation order items
       /\ normalizeTrends items = rerank order
       /\ length (normalizeTrends items) = length items
       /\ StronglySorted (fun a b => numLe (rank a) (rank b)) order.
Proof.
  intros items.
  assert (Hparse : parseTikTokResponse (runtime := decimalRuntime)
                     oddPlayCounts = Resolved items)
    by (vm_compute; reflexivity).
  split; [exact Hparse|].
  destruct (parsed_batches_survive_normalisation (runtime := decimalRuntime)
              oddPlayCounts items Hparse)
    as (order & Hperm & Heq & Hlen & Hsorted).
  exists order. split_and!; [exact Hperm|exact Heq|exact Hlen|].
  apply Hsorted. repeat constructor; discriminate.
Defined.


Lemma parseTikTokResponse_defaults_witness :
  parseTikTokResponse (runtime := decimalRuntime) (JArray twoBareRecords)
  = Resolved (map defaultItem (seq 0 (Nat.min (length twoBareRecords) 50))).
Proof.
  apply (parseTikTokResponse_defaults (runtime := decimalRuntime) twoBareRecords).
  unfold twoBareRecords, bare, recordKeys. repeat constructor.
Defined.

(** ** What a scrape does to the world *)

Lemma canExecuteCircuit_refused now b s :
  canExecuteCircuit now b = (false, s) -> s = b.
Proof.
  unfold canExecuteCircuit. destruct (isOpen b); simpl; [|congruence].
  destruct (nextAttemptTime b <=? now); congruence.
Qed.

Section AcquisitionEffects.
Context {world : Collaborators}.

Ltac run_in H :=
  cbv beta iota zeta delta
    [clock puppeteerBreaker proxyGridBreaker DB puppeteerCalls
     proxyGridCalls tagCalls trace fst snd] in H.

Ltac run :=
  cbv beta iota zeta delta
    [puppeteerAttempt scrapeWithProxyGridFallback
     tryCatch bind ret act callPuppeteer callProxyGrid recordFailure
     recordSuccess canExecute logWithContext sleep sendAlert
     cacheResults emit elapse setBreaker breakerOf
     setPuppeteerBreaker setProxyGridBreaker setDB
     clock puppeteerBreaker proxyGridBreaker DB puppeteerCalls
     proxyGridCalls tagCalls trace fst snd negb andb].

(** One turn of the retry loop, whatever the primary scraper answers. *)
Lemma puppeteerAttempt_effect attempt (w : World) :
  exists r w',
    puppeteerAttempt attempt w = (Resolved r, w')
    /\ puppeteerCalls w' = S (puppeteerCalls w)
    /\ proxyGridCalls w' = proxyGridCalls w
    /\ tagCalls w' = tagCalls w
    /\ proxyGridBreaker w' = proxyGridBreaker w
    /\ (breakerConsistent (puppeteerBreaker w) ->
        breakerConsistent (puppeteerBreaker w'))
    /\ match r with
       | Some data =>
           snd (scrapeWithPuppeteer (puppeteerCalls w)) = Resolved data
           /\ data <> []
           /\ puppeteerBreaker w' = recordCircuitSuccess (puppeteerBreaker w)
           /\ (DB w' = DB w \/ cached data (DB w) (DB w'))
       | None =>
           failed (snd (scrapeWithPuppeteer (puppeteerCalls w)))
           /\ DB w' = DB w
       end.
Proof.
  destruct w as [c pb gb db pc gc tc tr]. run.
  destruct (scrapeWithPuppeteer pc) as [took [data|e]] eqn:Hcall; run.
  - destruct data as [|x data].
    + change (0 <? length (@nil TrendItem))%nat with false. run.
      eexists _, _. split; [reflexivity|]. run. split_and!; done.
    + change (0 <? length (x :: data))%nat with true. run.
      change (0 <? length (map _ (x :: data)))%nat with true. run.
      destruct (batch _ db) as [db'|e] eqn:Hbatch; run;
        (eexists _, _; split; [reflexivity|]); run;
        split_and!; try done; try (intros _; apply breakerConsistent_success).
      * right. by exists (c + took).
      * by left.
  - destruct (Nat.ltb_spec attempt MAX_RETRIES); run;
      destruct (CIRCUIT_THRESHOLD <=? _) eqn:Hopen; run;
      (eexists _, _; split; [reflexivity|]); run;
      split_and!; try done; apply breakerConsistent_failure.
Qed.


(** The retry loop over the attempts still to run. *)
Lemma puppeteerLoop_effect attempts : forall w : World,
  exists r w' n,
    puppeteerLoop attempts w = (Resolved r, w')
    /\ (n <= length attempts)%nat
    /\ puppeteerCalls w' = (puppeteerCalls w + n)%nat
    /\ proxyGridCalls w' = proxyGridCalls w
    /\ tagCalls w' = tagCalls w
    /\ proxyGridBreaker w' = proxyGridBreaker w
    /\ (breakerConsistent (puppeteerBreaker w) ->
        breakerConsistent (puppeteerBreaker w'))
    /\ match r with
       | Some data =>
           exists k, n = S k
           /\ (forall j, (j < k)%nat ->
                 failed (snd (scrapeWithPuppeteer (puppeteerCalls w + j))))
           /\ snd (scrapeWithPuppeteer (puppeteerCalls w + k)) = Resolved data
           /\ data <> []
           /\ isOpen (puppeteerBreaker w') = false
           /\ failureCount (puppeteerBreaker w') = 0
           /\ (DB w' = DB w \/ cached data (DB w) (DB w'))
       | None =>
           n = length attempts
           /\ (forall j, (j < n)%nat ->
                 failed (snd (scrapeWithPuppeteer (puppeteerCalls w + j))))
           /\ DB w' = DB w
       end.
Proof.
  induction attempts as [|attempt rest IH]; intros w.
  - exists None, w, 0%nat. simpl. split_and!; try done; try lia.
  - destruct (puppeteerAttempt_effect attempt w)
      as (r & w1 & Hrun & Hpc & Hgc & Htc & Hgb & Hcons & Hr).
    simpl puppeteerLoop. unfold bind at 1. rewrite Hrun.
    destruct r as [data|].
    + destruct Hr as (Hcall & Hne & Hpb & Hdb).
      exists (Some data), w1, 1%nat. unfold ret.
      split_and!; try done; try (simpl; lia).
      exists 0%nat. rewrite Nat.add_0_r, Hpb.
      split_and!; try done. intros j Hj. lia.
    + destruct Hr as (Hfail & Hdb).
      destruct (IH w1) as (r & w2 & n & Hloop & Hn & Hpc2 & Hgc2 & Htc2 & Hgb2
                           & Hcons2 & Hr).
      exists r, w2, (S n). split; [exact Hloop|].
      split_and!; try (simpl; lia); try congruence; [tauto|].
      assert (Hshift : forall j,
        scrapeWithPuppeteer (puppeteerCalls w1 + j)
        = scrapeWithPuppeteer (puppeteerCalls w + S j)).
      { intros j. f_equal. lia. }
      destruct r as [data|].
      * destruct Hr as (k & -> & Hbefore & Hcall & Hne & Ho & Hc & Hdb2).
        exists (S k). rewrite <- Hshift.
        split_and!; try done.
        -- intros [|j] Hj; [by rewrite Nat.add_0_r|].
           rewrite <- Hshift. apply Hbefore. lia.
        -- by rewrite <- Hdb.
      * destruct Hr as (-> & Hall & Hdb2).
        split_and!; try done; [|congruence].
        intros [|j] Hj; [by rewrite Nat.add_0_r|].
        rewrite <- Hshift. apply Hall. simpl in Hj. lia.
Qed.

Lemma getStaleData_run (w : World) :
  getStaleData w = (Resolved (staleRowsOf (DB w)), w).
Proof.
  unfold getStaleData, staleRowsOf.
  by destruct (selectStale (DB w)) as [[rows|]|e].
Qed.

Lemma staleOrNothing_effect env foundLog staleAlert emptyAlert
    (staleItems : list TrendItem) (w : World) :
  exists w',
    staleOrNothing env foundLog staleAlert emptyAlert staleItems w
    = (Resolved (match staleItems with [] => [] | _ => rerank staleItems end),
       w')
    /\ clock w' = clock w
    /\ puppeteerBreaker w' = puppeteerBreaker w
    /\ proxyGridBreaker w' = proxyGridBreaker w
    /\ DB w' = DB w
    /\ puppeteerCalls w' = puppeteerCalls w
    /\ proxyGridCalls w' = proxyGridCalls w
    /\ tagCalls w' = tagCalls w.
Proof.
  destruct w as [c pb gb db pc gc tc tr]. unfold staleOrNothing.
  destruct staleItems as [|x rest].
  - change (0 <? length (@nil TrendItem))%nat with false. run.
    destruct (truthy (SLACK_WEBHOOK_URL env)); run; eexists; done.
  - change (0 <? length (x :: rest))%nat with true. run.
    destruct (truthy (SLACK_WEBHOOK_URL env)); run; eexists; done.
Qed.


Lemma served_stale (l : list TrendItem) :
  match l with [] => [] | _ => rerank l end = rerank l.
Proof. by destruct l. Qed.

(** The secondary path, whatever the configuration, the breaker and the
    endpoint's answer. *)
Lemma scrapeWithProxyGridFallback_effect env (w : World) :
  exists out w' m,
    scrapeWithProxyGridFallback env w = (Resolved out, w')
    /\ (m <= 1)%nat
    /\ proxyGridCalls w' = (proxyGridCalls w + m)%nat
    /\ puppeteerCalls w' = puppeteerCalls w
    /\ puppeteerBreaker w' = puppeteerBreaker w
    /\ tagCalls w' = tagCalls w
    /\ (breakerConsistent (proxyGridBreaker w) ->
        breakerConsistent (proxyGridBreaker w'))
    /\ (truthy (PROXY_GRID_SECRET env) = false ->
        out = [] /\ m = 0%nat /\ DB w' = DB w
        /\ proxyGridBreaker w' = proxyGridBreaker w /\ clock w' = clock w)
    /\ (fst (canExecuteCircuit (clock w) (proxyGridBreaker w)) = false ->
        m = 0%nat /\ proxyGridBreaker w' = proxyGridBreaker w)
    /\ ((out = [] /\ DB w' = DB w)
        \/ (out = rerank (staleRowsOf (DB w)) /\ DB w' = DB w)
        \/ (out <> [] /\ m = 1%nat
            /\ snd (scrapeWithProxyGrid (proxyGridCalls w)) = Resolved out
            /\ isOpen (proxyGridBreaker w') = false
            /\ failureCount (proxyGridBreaker w') = 0
            /\ (DB w' = DB w \/ cached out (DB w) (DB w')))).
Proof.
  unfold scrapeWithProxyGridFallback.
  destruct (truthy (PROXY_GRID_SECRET env)) eqn:Hsecret; cbn [negb].
  2:{ destruct w as [c pb gb db pc gc tc tr]. run.
      destruct (truthy (SLACK_WEBHOOK_URL env)); run;
        eexists [], _, 0%nat; (split; [reflexivity|]); run;
        split_and!; try done; try lia; by left. }
  unfold bind at 1. unfold canExecute.
  destruct (canExecuteCircuit (clock w) (breakerOf ProxyGrid w))
    as [ok s] eqn:Hcan.
  change (breakerOf ProxyGrid w) with (proxyGridBreaker w) in Hcan.
  assert (Hs : s = snd (canExecuteCircuit (clock w) (proxyGridBreaker w)))
    by (by rewrite Hcan).
  assert (Hok : ok = fst (canExecuteCircuit (clock w) (proxyGridBreaker w)))
    by (by rewrite Hcan).
  destruct ok; cbn [negb].
  - (* the call is made *)
    destruct w as [c pb gb db pc gc tc tr]. run. run_in Hs. run_in Hok.
    destruct (scrapeWithProxyGrid gc) as [took [data|e]] eqn:Hcall; run.
    + destruct data as [|x data].
      * change (0 <? length (@nil TrendItem))%nat with false. run.
        destruct (CIRCUIT_THRESHOLD <=? _) eqn:Hopen; run;
          rewrite getStaleData_run; run;
          match goal with
          | |- context [staleOrNothing env ?a ?b ?c ?rows ?w] =>
              destruct (staleOrNothing_effect env a b c rows w)
                as (w' & -> & Hc & Hpb & Hgb & Hdb & Hpc & Hgc & Htc)
          end; rewrite served_stale; run_in Hc; run_in Hpb; run_in Hgb;
          run_in Hdb; run_in Hpc; run_in Hgc; run_in Htc;
          exists (rerank (staleRowsOf db)), w', 1%nat;
          (split; [reflexivity|]);
          (split_and!; try done; try lia; try congruence;
           try solve [ intros Hcons; rewrite Hgb;
                       apply breakerConsistent_failure;
                       rewrite Hs; by apply breakerConsistent_canExecute
                     | right; left; done ]).
      * change (0 <? length (x :: data))%nat with true. run.
        change (0 <? length (map _ (x :: data)))%nat with true. run.
        destruct (batch _ db) as [db'|e] eqn:Hbatch; run;
          destruct (truthy (SLACK_WEBHOOK_URL env)); run;
          eexists (x :: data), _, 1%nat; (split; [reflexivity|]); run;
          (split_and!; try done; try lia; try congruence;
           try solve [ intros _; apply breakerConsistent_success
                     | right; right; split_and!; try done;
                       first [ by left | right; by exists (c + took) ] ]).
    + destruct (CIRCUIT_THRESHOLD <=? _) eqn:Hopen; run;
        rewrite getStaleData_run; run;
        match goal with
        | |- context [staleOrNothing env ?a ?b ?c ?rows ?w] =>
            destruct (staleOrNothing_effect env a b c rows w)
              as (w' & -> & Hc & Hpb & Hgb & Hdb & Hpc & Hgc & Htc)
        end; rewrite served_stale; run_in Hc; run_in Hpb; run_in Hgb;
        run_in Hdb; run_in Hpc; run_in Hgc; run_in Htc;
        exists (rerank (staleRowsOf db)), w', 1%nat;
        (split; [reflexivity|]);
        (split_and!; try done; try lia; try congruence;
         try solve [ intros Hcons; rewrite Hgb;
                     apply breakerConsistent_failure;
                     rewrite Hs; by apply breakerConsistent_canExecute
                   | right; left; done ]).
  - (* the breaker refuses *)
    assert (Hsame : s = proxyGridBreaker w)
      by (by eapply canExecuteCircuit_refused).
    clear Hs Hok. subst s.
    destruct w as [c pb gb db pc gc tc tr]. run. run_in Hcan.
    rewrite getStaleData_run. run.
    match goal with
    | |- context [staleOrNothing env ?a ?b ?c ?rows ?w] =>
        destruct (staleOrNothing_effect env a b c rows w)
          as (w' & -> & Hc & Hpb & Hgb & Hdb & Hpc & Hgc & Htc)
    end. rewrite served_stale. run_in Hc. run_in Hpb. run_in Hgb.
    run_in Hdb. run_in Hpc. run_in Hgc. run_in Htc.
    exists (rerank (staleRowsOf db)), w', 0%nat. split; [reflexivity|].
    split_and!; try done; try lia; try congruence.
    right; left; done.
Qed.


Ltac proj :=
  cbn [emit elapse setBreaker breakerOf setPuppeteerBreaker setProxyGridBreaker
       setDB clock puppeteerBreaker proxyGridBreaker DB puppeteerCalls
       proxyGridCalls tagCalls trace fst snd] in *.

(** The whole acquisition, whatever the options, the breakers and the
    answers of the two sources. *)
Lemma scrapeTikTokTrends_effect env options (w : World) :
  exists out w' n m,
    scrapeTikTokTrends env options w = (Resolved out, w')
    /\ (n <= 3)%nat /\ (m <= 1)%nat
    /\ puppeteerCalls w' = (puppeteerCalls w + n)%nat
    /\ proxyGridCalls w' = (proxyGridCalls w + m)%nat
    /\ tagCalls w' = tagCalls w
    /\ (breakerConsistent (puppeteerBreaker w) ->
        breakerConsistent (puppeteerBreaker w'))
    /\ (breakerConsistent (proxyGridBreaker w) ->
        breakerConsistent (proxyGridBreaker w'))
    /\ (forceProxyGrid options = true -> n = 0%nat)
    /\ (fst (canExecuteCircuit (clock w) (puppeteerBreaker w)) = false ->
        n = 0%nat /\ puppeteerBreaker w' = puppeteerBreaker w)
    /\ (truthy (PROXY_GRID_SECRET env) = false ->
        m = 0%nat /\ proxyGridBreaker w' = proxyGridBreaker w)
    /\ (useStaleFallback options = true -> staleRowsOf (DB w) <> [] ->
        out = rerank (staleRowsOf (DB w))
        /\ w' = emit (EvLog Level.info "Using stale data fallback") w)
    /\ (n = 0%nat
        \/ (n = 3%nat
            /\ forall j, (j < 3)%nat ->
                 failed (snd (scrapeWithPuppeteer (puppeteerCalls w + j))))
        \/ (m = 0%nat /\ out <> []
            /\ exists k, n = S k
                 /\ (forall j, (j < k)%nat ->
                       failed
                         (snd (scrapeWithPuppeteer (puppeteerCalls w + j))))
                 /\ snd (scrapeWithPuppeteer (puppeteerCalls w + k))
                    = Resolved out
                 /\ isOpen (puppeteerBreaker w') = false
                 /\ failureCount (puppeteerBreaker w') = 0))
    /\ ((out = [] /\ DB w' = DB w)
        \/ (out = rerank (staleRowsOf (DB w)) /\ DB w' = DB w)
        \/ (out <> []
            /\ (DB w' = DB w \/ cached out (DB w) (DB w'))
            /\ ((m = 0%nat
                 /\ exists k, n = S k
                      /\ snd (scrapeWithPuppeteer (puppeteerCalls w + k))
                         = Resolved out)
                \/ (m = 1%nat
                    /\ snd (scrapeWithProxyGrid (proxyGridCalls w))
                       = Resolved out
                    /\ isOpen (proxyGridBreaker w') = false
                    /\ failureCount (proxyGridBreaker w') = 0)))).
Proof.
  unfold scrapeTikTokTrends.
  rewrite (bind_resolved _ _ _ _ _ (getStaleData_run w)).
  destruct ((0 <? length (staleRowsOf (DB w)))%nat && useStaleFallback options)
    eqn:Hshort.
  { apply andb_true_iff in Hshort as [Hrows Hopt].
    exists (rerank (staleRowsOf (DB w))),
           (emit (EvLog Level.info "Using stale data fallback") w), 0%nat, 0%nat.
    split; [reflexivity|]. destruct w as [c pb gb db pc gc tc tr]. proj.
    split_and!; try done; try lia. right; left; done. }
  assert (Hnoshort : useStaleFallback options = true ->
                     staleRowsOf (DB w) <> [] -> False).
  { intros Hopt Hrows. rewrite Hopt, andb_true_r in Hshort.
    destruct (staleRowsOf (DB w)); [done|]. discriminate. }
  clear Hshort.
  unfold bind at 1. unfold canExecute.
  change (breakerOf Puppeteer w) with (puppeteerBreaker w).
  destruct (canExecuteCircuit (clock w) (puppeteerBreaker w))
    as [ok s] eqn:Hcan.
  assert (Hs : s = snd (canExecuteCircuit (clock w) (puppeteerBreaker w)))
    by (by rewrite Hcan).
  destruct ok; cbn [negb fst].
  2:{ (* the primary breaker refuses *)
    assert (Hsame : s = puppeteerBreaker w)
      by (by eapply canExecuteCircuit_refused).
    clear Hs. subst s.
    unfold bind at 1, logWithContext at 1, act at 1.
    match goal with |- context [scrapeWithProxyGridFallback env ?w1] =>
      destruct (scrapeWithProxyGridFallback_effect env w1)
        as (out & w' & m & -> & Hm & Hgc & Hpc & Hpb & Htc & Hcons & Hunset
            & _ & Hprov)
    end.
    destruct w as [c pb gb db pc gc tc tr]. proj.
    exists out, w', 0%nat, m. split; [reflexivity|].
    split_and!;
      try solve
        [ done | lia | tauto | congruence
        | intros ?; by rewrite Hpb
        | left; done
        | destruct Hprov as [?|[?|(? & -> & ? & ? & ? & ?)]];
          [ by left | by right; left
          | right; right; split_and!; try done; right; done ] ]. }
  (* the primary breaker lets the call through *)
  set (w1 := setBreaker Puppeteer s w).
  destruct (forceProxyGrid options) eqn:Hforce.
  { destruct (scrapeWithProxyGridFallback_effect env w1)
      as (out & w' & m & -> & Hm & Hgc & Hpc & Hpb & Htc & Hcons & Hunset
          & _ & Hprov).
    subst w1. destruct w as [c pb gb db pc gc tc tr]. proj.
    exists out, w', 0%nat, m. split; [reflexivity|].
    split_and!;
      try solve
        [ done | lia | tauto | congruence
        | intros Hc; rewrite Hpb, Hs; by apply breakerConsistent_canExecute
        | left; done
        | destruct Hprov as [?|[?|(? & -> & ? & ? & ? & ?)]];
          [ by left | by right; left
          | right; right; split_and!; try done; right; done ] ]. }
  destruct (puppeteerLoop_effect (seq 1 MAX_RETRIES) w1)
    as (r & w2 & n & Hloop & Hn & Hpc & Hgc & Htc & Hgb & Hcons & Hr).
  rewrite (bind_resolved _ _ _ _ _ Hloop).
  rewrite length_seq in Hn. unfold MAX_RETRIES in Hn.
  destruct r as [data|].
  - destruct Hr as (k & -> & Hbefore & Hcall & Hne & Hclosed & Hcount & Hdb).
    subst w1. destruct w as [c pb gb db pc gc tc tr]. proj.
    exists data, w2, (S k), 0%nat. split; [reflexivity|].
    split_and!;
      try solve
        [ done | lia | tauto | congruence
        | intros Hc; apply Hcons; rewrite Hs;
          by apply breakerConsistent_canExecute
        | intros ?; by rewrite Hgb
        | right; right; split_and!; try done; exists k; done
        | right; right; split_and!; try done; left; split; [done|];
          by exists k ].
  - destruct Hr as (-> & Hall & Hdb).
    destruct (scrapeWithProxyGridFallback_effect env w2)
      as (out & w' & m & -> & Hm & Hgc2 & Hpc2 & Hpb2 & Htc2 & Hcons2 & Hunset
          & _ & Hprov).
    rewrite length_seq in *. unfold MAX_RETRIES in *.
    subst w1. destruct w as [c pb gb db pc gc tc tr]. proj.
    exists out, w', 3%nat, m. split; [reflexivity|].
    rewrite Hdb, Hgc in Hprov.
    split_and!;
      try solve
        [ done | lia | tauto | congruence
        | intros Hc; rewrite Hpb2; apply Hcons; rewrite Hs;
          by apply breakerConsistent_canExecute
        | intros Hc; apply Hcons2; by rewrite Hgb
        | intros Hunset'; destruct (Hunset Hunset') as (_ & ? & _ & ? & _);
          split; [done|]; congruence
        | right; left; done
        | destruct Hprov as [[? ?]|[[? ?]|(? & -> & ? & ? & ? & ?)]];
          [ left; split; [done|]; congruence
          | right; left; split; [done|]; congruence
          | right; right; split_and!; try done; right; done ] ].
Qed.


Lemma staleRowsOf_read (db : Store) rows :
  selectStale db = Resolved (Some rows) -> staleRowsOf db = rows.
Proof. unfold staleRowsOf. by intros ->. Qed.

(** X12.  With [useStaleFallback] set and rows in the store, the scrape
    answers with the stored rows renumbered from 1 and does nothing else:
    no breaker is consulted or changed, no source is called, nothing is
    written, no time passes; one line is logged. *)
Theorem stale_shortcut_serves_rows_and_touches_nothing :
  forall (env : Env) (options : ScrapeOptions) (w : World)
         (rows : list TrendItem),
    useStaleFallback options = true ->
    selectStale (DB w) = Resolved (Some rows) ->
    rows <> [] ->
    scrapeTikTokTrends env options w
    = (Resolved (rerank rows),
       emit (EvLog Level.info "Using stale data fallback") w).
Proof.
  intros env options w rows Hopt Hread Hrows.
  apply staleRowsOf_read in Hread.
  destruct (scrapeTikTokTrends_effect env options w)
    as (out & w' & n & m & -> & _ & _ & _ & _ & _ & _ & _ & _ & _ & _
        & Hshort & _).
  rewrite Hread in Hshort. destruct (Hshort Hopt Hrows) as [-> ->]. done.
Qed.

(** X13.  One scrape calls the primary scraper at most three times and the
    secondary endpoint at most once, and never the tagger.  The primary
    scraper is not called at all when [forceProxyGrid] is set or when its
    breaker refuses, and a refusing breaker is left as it is; the secondary
    endpoint is not called, and its breaker not touched, when no secret is
    configured. *)
Theorem scrape_call_budget :
  forall (env : Env) (options : ScrapeOptions) (w : World),
    exists (out : list TrendItem) (w' : World),
      scrapeTikTokTrends env options w = (Resolved out, w')
      /\ (puppeteerCalls w <= puppeteerCalls w' <= puppeteerCalls w + 3)%nat
      /\ (proxyGridCalls w <= proxyGridCalls w' <= proxyGridCalls w + 1)%nat
      /\ tagCalls w' = tagCalls w
      /\ (forceProxyGrid options = true ->
          puppeteerCalls w' = puppeteerCalls w)
      /\ (fst (canExecuteCircuit (clock w) (puppeteerBreaker w)) = false ->
          puppeteerCalls w' = puppeteerCalls w
          /\ puppeteerBreaker w' = puppeteerBreaker w)
      /\ (truthy (PROXY_GRID_SECRET env) = false ->
          proxyGridCalls w' = proxyGridCalls w
          /\ proxyGridBreaker w' = proxyGridBreaker w).
Proof.
  intros env options w.
  destruct (scrapeTikTokTrends_effect env options w)
    as (out & w' & n & m & Hrun & Hn & Hm & Hpc & Hgc & Htc & _ & _ & Hforce
        & Hrefused & Hunset & _).
  exists out, w'. split; [exact Hrun|].
  split_and!; try lia; try done.
  - intros Hf. rewrite Hpc, (Hforce Hf). lia.
  - intros Hr. destruct (Hrefused Hr) as [-> ?]. split; [lia|done].
  - intros Hu. destruct (Hunset Hu) as [-> ?]. split; [lia|done].
Qed.

(** X14.  What a scrape returns is nothing, or the stored rows renumbered, or
    the answer of one call of a source, handed on as it came.  In the last
    case the breaker of that source is closed with its counter at 0, an
    answer of the primary scraper was preceded by failing primary calls
    only and by no secondary call, and an answer of the secondary endpoint
    comes from exactly one call of it. *)
Theorem scrape_result_provenance :
  forall (env : Env) (options : ScrapeOptions) (w : World),
    exists (out : list TrendItem) (w' : World),
      scrapeTikTokTrends env options w = (Resolved out, w')
      /\ (out = []
          \/ out = rerank (staleRowsOf (DB w))
          \/ (exists k, (k < 3)%nat
                /\ snd (scrapeWithPuppeteer (puppeteerCalls w + k))
                   = Resolved out
                /\ (forall j, (j < k)%nat ->
                      failed
                        (snd (scrapeWithPuppeteer (puppeteerCalls w + j))))
                /\ puppeteerCalls w' = (puppeteerCalls w + k + 1)%nat
                /\ proxyGridCalls w' = proxyGridCalls w
                /\ isOpen (puppeteerBreaker w') = false
                /\ failureCount (puppeteerBreaker w') = 0)
          \/ (snd (scrapeWithProxyGrid (proxyGridCalls w)) = Resolved out
              /\ proxyGridCalls w' = (proxyGridCalls w + 1)%nat
              /\ isOpen (proxyGridBreaker w') = false
              /\ failureCount (proxyGridBreaker w') = 0)).
Proof.
  intros env options w.
  destruct (scrapeTikTokTrends_effect env options w)
    as (out & w' & n & m & Hrun & Hn & Hm & Hpc & Hgc & Htc & _ & _ & _
        & _ & _ & _ & Hprimary & Hprov).
  exists out, w'. split; [exact Hrun|].
  destruct Hprov as [[? _]|[[? _]|(Hne & _ & [(-> & k & -> & Hcall)
                                               |(-> & Hcall & ? & ?)])]].
  - by left.
  - right; left; done.
  - right; right; left. exists k.
    destruct Hprimary as [?|[[Hthree Hall]|(_ & _ & k' & Hk & Hbefore & _ & ? & ?)]];
      [lia| |].
    + (* three failing calls cannot have answered *)
      exfalso. assert (k = 2%nat) as -> by lia.
      specialize (Hall 2%nat ltac:(lia)). rewrite Hcall in Hall.
      simpl in Hall. done.
    + assert (k' = k) as -> by lia.
      split_and!; try done; lia.
  - right; right; right. split_and!; try done; lia.
Qed.


(** X16.  Each breaker is open exactly when its counter has reached the
    threshold, and a scrape keeps it that way. *)
Theorem scrape_keeps_breakers_consistent :
  forall (env : Env) (options : ScrapeOptions) (w : World),
    breakerConsistent (puppeteerBreaker w) ->
    breakerConsistent (proxyGridBreaker w) ->
    breakerConsistent (puppeteerBreaker (snd (scrapeTikTokTrends env options w)))
    /\ breakerConsistent
         (proxyGridBreaker (snd (scrapeTikTokTrends env options w))).
Proof.
  intros env options w Hp Hg.
  destruct (scrapeTikTokTrends_effect env options w)
    as (out & w' & n & m & -> & _ & _ & _ & _ & _ & Hcp & Hcg & _).
  simpl. auto.
Qed.

End AcquisitionEffects.

(** ** Relations every run of a computation keeps *)

Section Keeps.
Context {world : Collaborators}.
Variable R : World -> World -> Prop.
Hypothesis R_refl : forall w, R w w.
Hypothesis R_trans : forall w1 w2 w3, R w1 w2 -> R w2 w3 -> R w1 w3.

Lemma keeps_ret {A} (a : A) : keeps R (ret a).
Proof. intros w. apply R_refl. Qed.

Lemma keeps_bind {A B} (m : M A) (k : A -> M B) :
  keeps R m -> (forall a, keeps R (k a)) -> keeps R (bind m k).
Proof.
  intros Hm Hk w. unfold bind. specialize (Hm w).
  destruct (m w) as [[a|e] w1]; [|exact Hm].
  eapply R_trans; [exact Hm|apply Hk].
Qed.

Lemma keeps_tryCatch {A} (m : M A) handler :
  keeps R m -> (forall e, keeps R (handler e)) -> keeps R (tryCatch m handler).
Proof.
  intros Hm Hh w. unfold tryCatch. specialize (Hm w).
  destruct (m w) as [[a|e] w1]; [exact Hm|].
  eapply R_trans; [exact Hm|apply Hh].
Qed.

Lemma keeps_if {A} (c : bool) (m1 m2 : M A) :
  keeps R m1 -> keeps R m2 -> keeps R (if c then m1 else m2).
Proof. by destruct c. Qed.

Lemma keeps_act f : (forall w, R w (f w)) -> keeps R (act f).
Proof. intros Hf w. apply Hf. Qed.
End Keeps.


Lemma sleeps_app tr1 tr2 : sleeps (tr1 ++ tr2) = sleeps tr1 ++ sleeps tr2.
Proof. apply flat_map_app. Qed.

Lemma sleeps_snoc tr e :
  sleeps (tr ++ [e])
  = sleeps tr ++ match e with EvSleep ms => [ms] | _ => [] end.
Proof. rewrite sleeps_app. simpl. by rewrite app_nil_r. Qed.

Section Backoff.
Context {world : Collaborators}.

Lemma quiet_refl w : quiet w w.
Proof. done. Qed.

Lemma quiet_trans w1 w2 w3 : quiet w1 w2 -> quiet w2 w3 -> quiet w1 w3.
Proof. unfold quiet. congruence. Qed.

Lemma quiet_emit e w :
  match e with EvSleep _ => False | _ => True end -> quiet w (emit e w).
Proof.
  intros He. unfold quiet, emit. cbn [trace]. rewrite sleeps_snoc.
  destruct e; try done; by rewrite app_nil_r.
Qed.

Lemma keeps_quiet_log level message : keeps quiet (logWithContext level message).
Proof. apply keeps_act. intros w. by apply quiet_emit. Qed.

Lemma keeps_quiet_sendAlert env message : keeps quiet (sendAlert env message).
Proof.
  unfold sendAlert. apply keeps_if; [apply keeps_ret, quiet_refl|].
  apply keeps_act. intros w. by apply quiet_emit.
Qed.

Lemma keeps_quiet_recordSuccess b : keeps quiet (recordSuccess b).
Proof. apply keeps_act. intros w. by destruct b. Qed.

Lemma keeps_quiet_recordFailure b : keeps quiet (recordFailure b).
Proof.
  intros w. unfold recordFailure. cbn [snd].
  destruct (CIRCUIT_THRESHOLD <=? _).
  - eapply quiet_trans; [|by apply quiet_emit]. by destruct b.
  - by destruct b.
Qed.

Lemma keeps_quiet_canExecute b : keeps quiet (canExecute b).
Proof.
  intros w. unfold canExecute.
  destruct (canExecuteCircuit (clock w) (breakerOf b w)). by destruct b.
Qed.

Lemma keeps_quiet_getStaleData : keeps quiet getStaleData.
Proof.
  intros w. unfold getStaleData. by destruct (selectStale (DB w)) as [[?|]|?].
Qed.

Lemma keeps_quiet_cacheResults data : keeps quiet (cacheResults data).
Proof.
  intros w. unfold cacheResults. destruct (0 <? _)%nat; [|done].
  destruct (batch _ _); [done|]. by apply quiet_emit.
Qed.

Lemma keeps_quiet_callProxyGrid : keeps quiet callProxyGrid.
Proof. intros w. unfold callProxyGrid. by destruct (scrapeWithProxyGrid _). Qed.

Lemma keeps_quiet_callPuppeteer : keeps quiet callPuppeteer.
Proof. intros w. unfold callPuppeteer. by destruct (scrapeWithPuppeteer _). Qed.

Create HintDb quiet.
#[local] Hint Resolve keeps_quiet_log keeps_quiet_sendAlert
  keeps_quiet_recordSuccess keeps_quiet_recordFailure keeps_quiet_canExecute
  keeps_quiet_getStaleData keeps_quiet_cacheResults keeps_quiet_callProxyGrid
  keeps_quiet_callPuppeteer quiet_refl : quiet.

Ltac quiet_step :=
  first [ solve [auto with quiet]
        | apply (keeps_ret quiet quiet_refl)
        | apply (keeps_bind quiet quiet_trans); [|intros ?]
        | apply (keeps_tryCatch quiet quiet_trans); [|intros ?]
        | apply keeps_if
        | match goal with |- keeps _ (match ?x with _ => _ end) => destruct x end ].

Lemma keeps_quiet_staleOrNothing env a b c staleData :
  keeps quiet (staleOrNothing env a b c staleData).
Proof. unfold staleOrNothing. repeat quiet_step. Qed.

(** The secondary path never sleeps. *)
Lemma keeps_quiet_scrapeWithProxyGridFallback env :
  keeps quiet (scrapeWithProxyGridFallback env).
Proof.
  unfold scrapeWithProxyGridFallback.
  repeat first [ apply keeps_quiet_staleOrNothing | quiet_step ].
Qed.


Lemma puppeteerAttempt_sleeps attempt (w : World) :
  sleeps (trace (snd (puppeteerAttempt attempt w)))
  = sleeps (trace w)
    ++ match snd (scrapeWithPuppeteer (puppeteerCalls w)) with
       | Rejected _ =>
           if (attempt <? MAX_RETRIES)%nat
           then [calculateRetryDelay (Z.of_nat attempt - 1)] else []
       | Resolved _ => []
       end.
Proof.
  destruct w as [c pb gb db pc gc tc tr].
  cbv beta iota zeta delta
    [puppeteerAttempt tryCatch bind ret act callPuppeteer recordFailure
     recordSuccess logWithContext sleep cacheResults emit elapse setBreaker
     breakerOf setPuppeteerBreaker setDB clock puppeteerBreaker
     proxyGridBreaker DB puppeteerCalls proxyGridCalls tagCalls trace fst snd].
  destruct (scrapeWithPuppeteer pc) as [took [data|e]].
  - destruct (0 <? length data)%nat; [destruct (0 <? _)%nat|];
      [destruct (batch _ db)| |]; cbn [snd trace];
      rewrite ?sleeps_snoc, ?app_nil_r; done.
  - destruct (attempt <? MAX_RETRIES)%nat;
      destruct (CIRCUIT_THRESHOLD <=? _); cbn [snd trace];
      rewrite ?sleeps_snoc, ?app_nil_r; done.
Qed.

Lemma puppeteerLoop_sleeps attempts : forall w : World,
  sleeps (trace (snd (puppeteerLoop attempts w)))
  = sleeps (trace w) ++ backoff attempts (puppeteerCalls w).
Proof.
  induction attempts as [|attempt rest IH]; intros w; simpl.
  - by rewrite app_nil_r.
  - pose proof (puppeteerAttempt_sleeps attempt w) as Hs.
    destruct (puppeteerAttempt_effect attempt w)
      as (r & w1 & Hrun & Hpc & _ & _ & _ & _ & Hr).
    unfold bind at 1. rewrite Hrun in *. cbn [snd] in Hs.
    destruct r as [data|].
    + destruct Hr as (Hcall & Hne & _). rewrite Hcall in *.
      unfold ret. cbn [snd]. rewrite Hs. by destruct data.
    + destruct Hr as (Hfail & _). rewrite IH, Hs, Hpc.
      destruct (snd (scrapeWithPuppeteer (puppeteerCalls w))) as [data|e].
      * simpl in Hfail. subst data. by rewrite app_nil_r.
      * by rewrite <- app_assoc.
Qed.

Lemma backoff_three (call : nat) :
  sublist (backoff (seq 1 MAX_RETRIES) call) [1000; 2000].
Proof.
  unfold MAX_RETRIES. cbn [seq backoff].
  change (calculateRetryDelay (Z.of_nat 1 - 1)) with 1000.
  change (calculateRetryDelay (Z.of_nat 2 - 1)) with 2000.
  change (1 <? 3)%nat with true. change (2 <? 3)%nat with true.
  change (3 <? 3)%nat with false.
  destruct (snd (scrapeWithPuppeteer call)) as [[|? ?]|?];
    destruct (snd (scrapeWithPuppeteer (S call))) as [[|? ?]|?];
    destruct (snd (scrapeWithPuppeteer (S (S call)))) as [[|? ?]|?];
    cbn [app];
    repeat first [ apply sublist_nil_l | apply sublist_skip
                 | apply sublist_cons ].
Qed.

Lemma backoff_none attempts : forall call,
  (forall j, (j < length attempts)%nat ->
     exists data, snd (scrapeWithPuppeteer (call + j)) = Resolved data) ->
  backoff attempts call = [].
Proof.
  induction attempts as [|attempt rest IH]; intros call Hall; [done|].
  simpl. destruct (Hall 0%nat) as [data Hdata]; [simpl; lia|].
  rewrite Nat.add_0_r in Hdata. rewrite Hdata.
  destruct data; [|done]. apply IH. intros j Hj.
  replace (S call + j)%nat with (call + S j)%nat by lia.
  apply Hall. simpl. lia.
Qed.

(** X17.  The backoff schedule.  One scrape sleeps at most twice, for 1 s
    after a first primary attempt that threw and for 2 s after a second
    one; it never sleeps after the third attempt, on the secondary path,
    or after an attempt that returned, empty or not. *)
Theorem scrape_backoff_schedule :
  forall (env : Env) (options : ScrapeOptions) (w : World),
    exists delays : list Z,
      sleeps (trace (snd (scrapeTikTokTrends env options w)))
      = sleeps (trace w) ++ delays
      /\ sublist delays [1000; 2000]
      /\ (delays = []
          \/ delays = backoff (seq 1 MAX_RETRIES) (puppeteerCalls w))
      /\ ((forall j, (j < 3)%nat ->
             exists data,
               snd (scrapeWithPuppeteer (puppeteerCalls w + j))
               = Resolved data) ->
          delays = []).
Proof.
  intros env options w.
  assert (Hcases : exists delays,
    sleeps (trace (snd (scrapeTikTokTrends env options w)))
    = sleeps (trace w) ++ delays
    /\ (delays = []
        \/ delays = backoff (seq 1 MAX_RETRIES) (puppeteerCalls w))).
  { unfold scrapeTikTokTrends.
    rewrite (bind_resolved _ _ _ _ _ (getStaleData_run w)).
    destruct (_ && _).
    { exists []. split; [|by left]. rewrite app_nil_r.
      unfold bind, logWithContext, act, ret. cbn [snd].
      by apply quiet_emit. }
    unfold bind at 1.
    pose proof (keeps_quiet_canExecute Puppeteer w) as Hcan.
    assert (Hpc : puppeteerCalls (snd (canExecute Puppeteer w))
                  = puppeteerCalls w).
    { unfold canExecute. by destruct (canExecuteCircuit _ _). }
    destruct (canExecute Puppeteer w) as [[ok|e] w1] eqn:Hrun;
      [|unfold canExecute in Hrun; destruct (canExecuteCircuit _ _);
        discriminate].
    cbn [snd] in *. unfold quiet in Hcan. rewrite <- Hcan, <- Hpc.
    destruct ok; cbn [negb].
    2:{ exists []. split; [|by left]. rewrite app_nil_r.
        match goal with |- sleeps (trace (snd (?m ?w1))) = _ =>
          assert (Hq : keeps quiet m)
            by (repeat first [ apply keeps_quiet_scrapeWithProxyGridFallback
                             | quiet_step ]);
          apply (Hq w1) end. }
    destruct (forceProxyGrid options).
    { exists []. split; [|by left]. rewrite app_nil_r.
      apply (keeps_quiet_scrapeWithProxyGridFallback env w1). }
    exists (backoff (seq 1 MAX_RETRIES) (puppeteerCalls w1)).
    split; [|by right].
    pose proof (puppeteerLoop_sleeps (seq 1 MAX_RETRIES) w1) as Hloop.
    unfold bind at 1.
    destruct (puppeteerLoop (seq 1 MAX_RETRIES) w1) as [[[data|]|e] w2];
      cbn [snd] in *; try done.
    rewrite <- Hloop. apply (keeps_quiet_scrapeWithProxyGridFallback env w2). }
  destruct Hcases as (delays & Hs & Hd). exists delays.
  split; [exact Hs|]. split; [|split; [exact Hd|]].
  - destruct Hd as [->| ->]; [apply sublist_nil_l | apply backoff_three].
  - intros Hall. destruct Hd as [->| ->]; [done|].
    apply backoff_none. by rewrite length_seq.
Qed.

End Backoff.


(** Ten stored rows and the option set: the rows come back renumbered. *)
Lemma stale_shortcut_serves_rows_and_touches_nothing_witness :
  scrapeTikTokTrends exampleEnv (mkScrapeOptions false true)
    (memWorld [] [] (memStore staleTen false))
  = (Resolved (rerank staleTen),
     emit (EvLog Level.info "Using stale data fallback")
       (memWorld [] [] (memStore staleTen false))).
Proof.
  apply (stale_shortcut_serves_rows_and_touches_nothing
           (world := memCollaborators [] []) exampleEnv
           (mkScrapeOptions false true)
           (memWorld [] [] (memStore staleTen false)) staleTen).
  - reflexivity.
  - reflexivity.
  - discriminate.
Defined.

(** The breakers at start-up. *)
Lemma scrape_keeps_breakers_consistent_witness :
  breakerConsistent
    (puppeteerBreaker
       (snd (scrapeTikTokTrends (world := idleCollaborators) exampleEnv
               (mkScrapeOptions false false) idleWorld)))
  /\ breakerConsistent
       (proxyGridBreaker
          (snd (scrapeTikTokTrends (world := idleCollaborators) exampleEnv
                  (mkScrapeOptions false false) idleWorld))).
Proof.
  apply (scrape_keeps_breakers_consistent (world := idleCollaborators)
           exampleEnv (mkScrapeOptions false false) idleWorld).
  - unfold breakerConsistent, CIRCUIT_THRESHOLD. simpl. split; [done|lia].
  - unfold breakerConsistent, CIRCUIT_THRESHOLD. simpl. split; [done|lia].
Defined.

(** ** What a run of the pipeline does *)

Section PipelineEffects.
Context {runtime : JSRuntime} {world : Collaborators}.

Lemma counterLt_mono c c' maxTags :
  (c <= c')%nat -> counterLt c maxTags = false -> counterLt c' maxTags = false.
Proof.
  intros Hle. destruct maxTags as [|[]|q]; simpl; try done.
  rewrite !negb_false_iff, !Qle_bool_iff. intros Hq.
  eapply Qle_trans; [exact Hq|]. rewrite <- Zle_Qle. lia.
Qed.

Lemma neededBefore_cons tagMap item rest i :
  neededBefore tagMap (item :: rest) (S i)
  = ((if needsTags tagMap item then 1 else 0) + neededBefore tagMap rest i)%nat.
Proof.
  unfold neededBefore. simpl. by destruct (needsTags tagMap item).
Qed.

(** The tagging loop over a batch: two statements per item, in the order
    of the items and with the one timestamp.  An item is sent to the
    tagger exactly when its stored tags call for it and the number of
    such items before it is below the limit; its tags are then both what
    the tagger answers at that call, and the stored ones otherwise.  The
    counter grows by the number of tagger calls. *)
Lemma processItems_run env maxTags historyMap tagMap timestamp normalized :
  forall statements tagsGenerated (w : World),
    exists tags n w',
      processItems env maxTags historyMap tagMap timestamp normalized
        (statements, tagsGenerated) w
      = (Resolved
           (statements
              ++ queuedStatements historyMap timestamp normalized tags, n),
         w')
      /\ length tags = length normalized
      /\ (forall i item,
            normalized !! i = Some item ->
            exists t,
              tags !! i = Some t
              /\ if needsTags tagMap item
                    && counterLt
                         (tagsGenerated + neededBefore tagMap normalized i)
                         maxTags
                 then
                   exists wk : World,
                     tagCalls wk
                     = (tagCalls w + neededBefore tagMap normalized i)%nat
                     /\ t = (Some (genre (taggerReply env wk (title item)
                                            (author item))),
                             Some (vibe (taggerReply env wk (title item)
                                           (author item))))
                 else t = (existingGenre tagMap item,
                           existingVibe tagMap item))
      /\ (tagsGenerated <= n <= tagsGenerated + length normalized)%nat
      /\ tagCalls w' = (tagCalls w + (n - tagsGenerated))%nat
      /\ (n = tagsGenerated \/ counterLt (n - 1) maxTags = true)
      /\ clock w' = clock w
      /\ puppeteerBreaker w' = puppeteerBreaker w
      /\ proxyGridBreaker w' = proxyGridBreaker w
      /\ DB w' = DB w
      /\ puppeteerCalls w' = puppeteerCalls w
      /\ proxyGridCalls w' = proxyGridCalls w.
Proof.
  induction normalized as [|item rest IH]; intros statements tagsGenerated w.
  - exists [], tagsGenerated, w. simpl. unfold queuedStatements. simpl.
    rewrite app_nil_r. split_and!; try done; try lia.
  - destruct (processItem_run env maxTags historyMap tagMap timestamp
                statements tagsGenerated item w) as (w1 & Hrun & Hcalls).
    cbv zeta in Hrun, Hcalls.
    assert (Hframe : clock w1 = clock w
                     /\ puppeteerBreaker w1 = puppeteerBreaker w
                     /\ proxyGridBreaker w1 = proxyGridBreaker w
                     /\ DB w1 = DB w
                     /\ puppeteerCalls w1 = puppeteerCalls w
                     /\ proxyGridCalls w1 = proxyGridCalls w).
    { clear IH Hcalls. unfold processItem in Hrun.
      fold (existingGenre tagMap item) in Hrun.
      fold (existingVibe tagMap item) in Hrun.
      destruct (shouldTag _ _ && counterLt _ _).
      - unfold bind, ret, tagAudioWithAI in Hrun.
        destruct (negb (AI env)); [injection Hrun as _ <-; by destruct w|].
        destruct (aiClassify _ _ _); injection Hrun as _ <-; by destruct w.
      - unfold bind, ret in Hrun. by injection Hrun as <-. }
    destruct Hframe as (Hc & Hpb & Hgb & Hdb & Hpc & Hgc).
    simpl processItems. rewrite (bind_resolved _ _ _ _ _ Hrun).
    fold (needsTags tagMap item) in *.
    destruct (needsTags tagMap item && counterLt tagsGenerated maxTags)
      eqn:Hinvoked.
    + set (reply := taggerReply env w (title item) (author item)) in *.
      destruct (IH (statements
                      ++ itemStatements historyMap timestamp item
                           (Some (genre reply)) (Some (vibe reply)))
                   (tagsGenerated + 1)%nat w1)
        as (tags & n & w' & -> & Hlen & Hshape & Hn & Htc & Hlimit & Hc' & Hpb'
            & Hgb' & Hdb' & Hpc' & Hgc').
      exists ((Some (genre reply), Some (vibe reply)) :: tags), n, w'.
      split.
      { unfold queuedStatements. simpl. by rewrite <- !app_assoc. }
      split_and!; try congruence; try (simpl; lia).
      * apply andb_true_iff in Hinvoked as [Hneed Hlt].
        intros [|i] it Hit; simpl in Hit.
        -- injection Hit as <-. eexists. split; [reflexivity|].
           change (neededBefore tagMap (item :: rest) 0) with 0%nat.
           rewrite Nat.add_0_r, Hneed, Hlt. cbn [andb].
           exists w. split; [lia|done].
        -- destruct (Hshape i it Hit) as (t & Ht & Hcase).
           exists t. split; [done|].
           rewrite neededBefore_cons, Hneed.
           replace (tagsGenerated + (1 + neededBefore tagMap rest i))%nat
             with (tagsGenerated + 1 + neededBefore tagMap rest i)%nat by lia.
           destruct (needsTags tagMap it && counterLt _ maxTags); [|done].
           destruct Hcase as (wk & Hwk & ->). exists wk. split; [lia|done].
      * right. destruct Hlimit as [->|?]; [|done].
        apply andb_true_iff in Hinvoked as [_ Hlt].
        by replace (tagsGenerated + 1 - 1)%nat with tagsGenerated by lia.
    + destruct (IH (statements
                      ++ itemStatements historyMap timestamp item
                           (existingGenre tagMap item)
                           (existingVibe tagMap item))
                   tagsGenerated w1)
        as (tags & n & w' & -> & Hlen & Hshape & Hn & Htc & Hlimit & Hc' & Hpb'
            & Hgb' & Hdb' & Hpc' & Hgc').
      exists ((existingGenre tagMap item, existingVibe tagMap item) :: tags),
             n, w'.
      split.
      { unfold queuedStatements. simpl. by rewrite <- !app_assoc. }
      split_and!; try congruence; try (simpl; lia).
      intros [|i] it Hit; simpl in Hit.
      * injection Hit as <-. eexists. split; [reflexivity|].
        change (neededBefore tagMap (item :: rest) 0) with 0%nat.
        by rewrite Nat.add_0_r, Hinvoked.
      * destruct (Hshape i it Hit) as (t & Ht & Hcase).
        exists t. split; [done|]. rewrite neededBefore_cons.
        destruct (needsTags tagMap item) eqn:Hneed.
        -- cbn [andb] in Hinvoked.
           rewrite (counterLt_mono tagsGenerated
                      (tagsGenerated + neededBefore tagMap rest i) maxTags)
             in Hcase by (done || lia).
           rewrite (counterLt_mono tagsGenerated
                      (tagsGenerated + (1 + neededBefore tagMap rest i))
                      maxTags) by (done || lia).
           by rewrite andb_false_r in *.
        -- cbn [Nat.add].
           destruct (needsTags tagMap it && counterLt _ maxTags); [|done].
           destruct Hcase as (wk & Hwk & ->). exists wk. split; [lia|done].
Qed.


Lemma getLatestHistoryMap_run ids (w : World) :
  ids <> [] ->
  getLatestHistoryMap ids w
  = match selectLatestHistory ids (DB w) with
    | Resolved results => (Resolved (historyMapOf results), w)
    | Rejected e => (Rejected e, w)
    end.
Proof.
  intros Hne. unfold getLatestHistoryMap. destruct ids; [done|]. simpl.
  by destruct (selectLatestHistory _ _).
Qed.

Lemma getExistingTagMap_run ids (w : World) :
  ids <> [] ->
  getExistingTagMap ids w
  = match selectExistingTags ids (DB w) with
    | Resolved results => (Resolved (tagMapOf results), w)
    | Rejected e => (Rejected e, w)
    end.
Proof.
  intros Hne. unfold getExistingTagMap. destruct ids; [done|]. simpl.
  by destruct (selectExistingTags _ _).
Qed.

Lemma maybeIngestHashtags_run env timestamp (w : World) :
  exists h db',
    maybeIngestHashtags env timestamp w = (Resolved h, setDB db' w)
    /\ (h, db') = (if truthy (HASHTAG_API_URL env)
                   then ingestHashtags timestamp (DB w)
                   else (HashtagSkipped, DB w)).
Proof.
  unfold maybeIngestHashtags. destruct (truthy (HASHTAG_API_URL env)); simpl.
  - destruct (ingestHashtags timestamp (DB w)) as [h db']. by exists h, db'.
  - exists HashtagSkipped, (DB w). by destruct w.
Qed.

(** A run of the pipeline, given what the scrape returned. *)
Lemma runPipeline_effect env options (w : World) :
  exists trends w1,
    scrapeTikTokTrends env
      (mkScrapeOptions (opt_forceProxyGrid options)
         (opt_useStaleFallback options)) w
    = (Resolved trends, w1)
    /\ exists res w',
         runPipeline env options w = (res, w')
         /\ clock w' = clock w1
         /\ puppeteerBreaker w' = puppeteerBreaker w1
         /\ proxyGridBreaker w' = proxyGridBreaker w1
         /\ puppeteerCalls w' = puppeteerCalls w1
         /\ proxyGridCalls w' = proxyGridCalls w1
         /\ ((trends = [] /\ w' = w1
              /\ res = Resolved
                   (mkPipelineResult Status.warning
                      (Some "No trends found, using stale data fallback")
                      0 None 0 None (Some stale)
                      (Some (clock w1 - clock w))))
             \/ (trends <> []
                 /\ DB w' = DB w1
                 /\ exists e,
                      res = Rejected e
                      /\ ((exists ids,
                             selectLatestHistory ids (DB w1) = Rejected e)
                          \/ (exists ids,
                                selectExistingTags ids (DB w1) = Rejected e)
                          \/ (exists statements,
                                batch statements (DB w1) = Rejected e)))
             \/ (trends <> []
                 /\ exists history tagRows tags n db' h,
                      let normalized := normalizeTrends trends in
                      selectLatestHistory (map id normalized) (DB w1)
                      = Resolved history
                      /\ selectExistingTags (map id normalized) (DB w1)
                         = Resolved tagRows
                      /\ length tags = length normalized
                      /\ (forall i item,
                            normalized !! i = Some item ->
                            exists t,
                              tags !! i = Some t
                              /\ if needsTags (tagMapOf tagRows) item
                                    && counterLt
                                         (neededBefore (tagMapOf tagRows)
                                            normalized i)
                                         (parseTagLimit (AI_TAG_LIMIT env))
                                 then
                                   exists wk : World,
                                     tagCalls wk
                                     = (tagCalls w1
                                        + neededBefore (tagMapOf tagRows)
                                            normalized i)%nat
                                     /\ t = (Some (genre
                                                     (taggerReply env wk
                                                        (title item)
                                                        (author item))),
                                             Some (vibe
                                                     (taggerReply env wk
                                                        (title item)
                                                        (author item))))
                                 else t = (existingGenre (tagMapOf tagRows)
                                             item,
                                           existingVibe (tagMapOf tagRows)
                                             item))
                      /\ (n <= length normalized)%nat
                      /\ tagCalls w' = (tagCalls w1 + n)%nat
                      /\ (n = 0%nat
                          \/ counterLt (n - 1)
                               (parseTagLimit (AI_TAG_LIMIT env)) = true)
                      /\ batch
                           (queuedStatements (historyMapOf history) (clock w1)
                              normalized tags) (DB w1)
                         = Resolved db'
                      /\ (h, DB w')
                         = (if truthy (HASHTAG_API_URL env)
                            then ingestHashtags (clock w1) db'
                            else (HashtagSkipped, db'))
                      /\ res = Resolved
                           {| status := Status.success;
                              message := None;
                              count := length normalized;
                              top_song := Some (title <$> head normalized);
                              tags_generated := n;
                              hashtag_ingest := Some h;
                              source :=
                                Some (if opt_forceProxyGrid options
                                      then proxy_grid else puppeteer);
                              duration := Some (clock w1 - clock w) |})).
Proof.
  destruct (total_scrapeTikTokTrends env
              (mkScrapeOptions (opt_forceProxyGrid options)
                 (opt_useStaleFallback options)) w) as (trends & w1 & Hscrape).
  exists trends, w1. split; [done|].
  remember (runPipeline env options w) as R eqn:HR.
  unfold runPipeline in HR.
  rewrite bind_now, (bind_resolved _ _ _ _ _ Hscrape) in HR.
  destruct trends as [|t trends].
  { rewrite HR. eexists _, _. split; [reflexivity|].
    split_and!; try done. left. done. }
  change (length (t :: trends) =? 0)%nat with false in HR. cbv iota in HR.
  pose proof (proj1 (normalizeTrends_nil_iff (t :: trends))) as Hne.
  set (normalized := normalizeTrends (t :: trends)) in *.
  assert (Hnorm : normalized <> []) by (intros Hn; by apply Hne in Hn).
  assert (Hnorm' : (length normalized =? 0)%nat = false)
    by (destruct normalized; done).
  assert (Hids : map id normalized <> []) by (destruct normalized; done).
  rewrite Hnorm' in HR. rewrite bind_now in HR.
  unfold bind at 1 in HR.
  rewrite (getLatestHistoryMap_run _ _ Hids) in HR.
  destruct (selectLatestHistory (map id normalized) (DB w1))
    as [history|e] eqn:Hhist.
  2:{ rewrite HR. eexists _, w1. split; [reflexivity|].
      split_and!; try done. right; left. split_and!; try done.
      exists e. split; [done|]. left. eauto. }
  unfold bind at 1 in HR.
  rewrite (getExistingTagMap_run _ _ Hids) in HR.
  destruct (selectExistingTags (map id normalized) (DB w1))
    as [tagRows|e] eqn:Htags.
  2:{ rewrite HR. eexists _, w1. split; [reflexivity|].
      split_and!; try done. right; left. split_and!; try done.
      exists e. split; [done|]. right; left. eauto. }
  destruct (processItems_run env (parseTagLimit (AI_TAG_LIMIT env))
              (historyMapOf history) (tagMapOf tagRows) (clock w1) normalized
              [] 0%nat w1)
    as (tags & n & w2 & Hloop & Hlen & Hshape & Hn & Htc & Hlimit & Hc & Hpb
        & Hgb & Hdb & Hpc & Hgc).
  fold (historyMapOf history) in HR. fold (tagMapOf tagRows) in HR.
  rewrite (bind_resolved _ _ _ _ _ Hloop) in HR. cbn [app] in HR.
  unfold bind at 1, dbBatch at 1 in HR.
  destruct (batch _ (DB w2)) as [db'|e] eqn:Hbatch.
  2:{ rewrite HR. eexists _, w2. split; [reflexivity|].
      split_and!; try done. right; left. split_and!; try done.
      exists e. split; [done|]. right; right. rewrite <- Hdb. eauto. }
  destruct (maybeIngestHashtags_run env (clock w1) (setDB db' w2))
    as (h & db'' & Hingest & Hh).
  rewrite (bind_resolved _ _ _ _ _ Hingest), bind_now in HR.
  rewrite HR. eexists _, _. split; [reflexivity|].
  destruct w2 as [c2 pb2 gb2 db2 pc2 gc2 tc2 tr2]. simpl in *.
  split_and!; try done. right; right. split; [done|].
  exists history, tagRows, tags, n, db', h. cbv zeta.
  subst c2 db2. split_and!; try done; try lia.
Qed.


Lemma queuedStatements_cons historyMap timestamp item items t tags :
  queuedStatements historyMap timestamp (item :: items) (t :: tags)
  = itemStatements historyMap timestamp item (fst t) (snd t)
    ++ queuedStatements historyMap timestamp items tags.
Proof. reflexivity. Qed.

Lemma queuedStatements_lookup historyMap timestamp items : forall tags i item t,
  items !! i = Some item -> tags !! i = Some t ->
  queuedStatements historyMap timestamp items tags !! (2 * i)%nat
  = Some (TrendUpsert item
            (calculateGrowthRate item (historyMap !! id item))
            (fst t) (snd t) timestamp)
  /\ queuedStatements historyMap timestamp items tags !! (2 * i + 1)%nat
     = Some (HistoryInsert (id item) timestamp (play_count item) (rank item)).
Proof.
  induction items as [|x items IH]; intros tags i item t Hitem Htag; [done|].
  destruct tags as [|t0 tags]; [done|]. rewrite queuedStatements_cons.
  destruct i as [|i]; simpl in Hitem, Htag.
  - injection Hitem as ->. injection Htag as ->. done.
  - destruct (IH tags i item t Hitem Htag) as [H1 H2].
    replace (2 * S i)%nat with (S (S (2 * i))) by lia.
    replace (S (S (2 * i)) + 1)%nat with (S (S (2 * i + 1))) by lia.
    done.
Qed.

Lemma queuedStatements_length historyMap timestamp items : forall tags,
  length tags = length items ->
  length (queuedStatements historyMap timestamp items tags)
  = (2 * length items)%nat.
Proof.
  induction items as [|x items IH]; intros [|t tags] Hlen; try done.
  rewrite queuedStatements_cons, length_app, IH by (simpl in Hlen; lia).
  simpl. lia.
Qed.

(** X18.  A result with status "success" counts between 1 and 50 items, names
    a top song (never [null]), carries no message and a hashtag result
    (the skipped one when no hashtag URL is configured).  Its number of
    generated tags is the number of tagger calls made in the run; it does
    not exceed the number of items, and the last call was made with the
    counter still below the limit. *)
Theorem runPipeline_success_shape :
  forall env options (w w' : World) (r : PipelineResult),
    runPipeline env options w = (Resolved r, w') ->
    status r = Status.success ->
    (1 <= count r <= 50)%nat
    /\ (exists t, top_song r = Some (Some t))
    /\ message r = None
    /\ (tags_generated r <= count r)%nat
    /\ (tags_generated r = 0%nat
        \/ counterLt (tags_generated r - 1)
             (parseTagLimit (AI_TAG_LIMIT env)) = true)
    /\ tagCalls w' = (tagCalls w + tags_generated r)%nat
    /\ (exists h, hashtag_ingest r = Some h)
    /\ (truthy (HASHTAG_API_URL env) = false ->
        hashtag_ingest r = Some HashtagSkipped).
Proof.
  intros env options w w' r Hrun Hsuccess.
  destruct (runPipeline_effect env options w)
    as (trends & w1 & Hscrape & res & w2 & Hrun' & _ & _ & _ & _ & _ & Hcases).
  rewrite Hrun in Hrun'. injection Hrun' as <- <-.
  destruct (scrapeTikTokTrends_effect env
              (mkScrapeOptions (opt_forceProxyGrid options)
                 (opt_useStaleFallback options)) w)
    as (out & w1' & _ & _ & Hscrape' & _ & _ & _ & _ & Htc & _).
  rewrite Hscrape in Hscrape'. injection Hscrape' as <- <-.
  destruct Hcases as [(_ & _ & [= ->])|[(_ & _ & e & [=] & _)
    |(Hne & history & tagRows & tags & n & db' & h & Hcase)]];
    [discriminate|].
  cbv zeta in Hcase.
  destruct Hcase as (_ & _ & Hlen & _ & Hn & Hcalls & Hlimit & _ & Hh & [= ->]).
  cbn [count top_song message tags_generated hashtag_ingest].
  pose proof (normalizeTrends_nil_iff trends) as Hnil.
  pose proof (normalizeTrends_length trends) as Hcap.
  destruct (normalizeTrends trends) as [|x rest] eqn:Hnorm; [tauto|].
  split_and!; try done; try lia.
  - simpl. lia.
  - by exists (title x).
  - eauto.
  - intros Hurl. rewrite Hurl in Hh. by injection Hh as -> _.
Qed.

(** X19.  A result with status "warning" is always the one for an empty
    acquisition: the scrape returned nothing, the result counts 0 items
    and names "stale" as its source, and the run has written nothing to
    the store and called the tagger not once.  The warning after
    normalisation is never returned. *)
Theorem runPipeline_warning_is_empty_acquisition :
  forall env options (w w' : World) (r : PipelineResult),
    runPipeline env options w = (Resolved r, w') ->
    status r = Status.warning ->
    scrapeTikTokTrends env
      (mkScrapeOptions (opt_forceProxyGrid options)
         (opt_useStaleFallback options)) w
    = (Resolved [], w')
    /\ message r = Some "No trends found, using stale data fallback"
    /\ message r <> Some "No trends found after normalization"
    /\ count r = 0%nat
    /\ source r = Some stale
    /\ DB w' = DB w
    /\ tagCalls w' = tagCalls w.
Proof.
  intros env options w w' r Hrun Hwarning.
  destruct (runPipeline_effect env options w)
    as (trends & w1 & Hscrape & res & w2 & Hrun' & _ & _ & _ & _ & _ & Hcases).
  rewrite Hrun in Hrun'. injection Hrun' as <- <-.
  destruct (scrapeTikTokTrends_effect env
              (mkScrapeOptions (opt_forceProxyGrid options)
                 (opt_useStaleFallback options)) w)
    as (out & w1' & n & m & Hscrape' & _ & _ & _ & _ & Htc & _ & _ & _ & _ & _
        & _ & _ & Hprov).
  rewrite Hscrape in Hscrape'. injection Hscrape' as <- <-.
  destruct Hcases as [(-> & -> & [= ->])|[(_ & _ & e & [=] & _)
    |(Hne & history & tagRows & tags & k & db' & h & Hcase)]].
  - split_and!; try done.
    destruct Hprov as [[_ ?]|[[_ ?]|[? _]]]; done.
  - cbv zeta in Hcase.
    destruct Hcase as (_ & _ & _ & _ & _ & _ & _ & _ & _ & [= ->]).
    discriminate.
Qed.

(** X20.  A successful run writes one batch of its own: for the item at
    position i of the normalised list, statement 2i upserts the trend with
    its growth rate against the latest stored snapshot and with its tags,
    and statement 2i + 1 inserts the history row, all with the timestamp
    taken after the scrape.  The item is sent to the tagger exactly when
    its stored tags call for tagging and fewer items before it did than
    the limit allows; its genre and vibe are then both what the tagger
    returns for its title and author at that call (one call per such item,
    counted from the calls made before the run), and they are the stored
    ones otherwise.  Without a hashtag URL the store at the end is the
    result of that batch. *)
Theorem runPipeline_batch_layout :
  forall env options (w w' : World) (r : PipelineResult),
    runPipeline env options w = (Resolved r, w') ->
    status r = Status.success ->
    exists trends w1 history tagRows
           (tags : list (option string * option string)) statements db',
      scrapeTikTokTrends env
        (mkScrapeOptions (opt_forceProxyGrid options)
           (opt_useStaleFallback options)) w
      = (Resolved trends, w1)
      /\ selectLatestHistory (map id (normalizeTrends trends)) (DB w1)
         = Resolved history
      /\ selectExistingTags (map id (normalizeTrends trends)) (DB w1)
         = Resolved tagRows
      /\ batch statements (DB w1) = Resolved db'
      /\ length statements = (2 * count r)%nat
      /\ (forall i item,
            normalizeTrends trends !! i = Some item ->
            exists g v,
              tags !! i = Some (g, v)
              /\ (let asked :=
                    neededBefore (tagMapOf tagRows)
                      (normalizeTrends trends) i in
                  if shouldTag (existingGenre (tagMapOf tagRows) item)
                       (existingVibe (tagMapOf tagRows) item)
                     && counterLt asked (parseTagLimit (AI_TAG_LIMIT env))
                  then
                    exists (wk : World) (reply : TagResult),
                      tagCalls wk = (tagCalls w1 + asked)%nat
                      /\ fst (tagAudioWithAI env (title item) (author item)
                                wk)
                         = Resolved reply
                      /\ (g, v) = (Some (genre reply), Some (vibe reply))
                  else
                    (g, v) = (existingGenre (tagMapOf tagRows) item,
                              existingVibe (tagMapOf tagRows) item))
              /\ statements !! (2 * i)%nat
                 = Some (TrendUpsert item
                           (calculateGrowthRate item
                              (historyMapOf history !! id item))
                           g v (clock w1))
              /\ statements !! (2 * i + 1)%nat
                 = Some (HistoryInsert (id item) (clock w1)
                           (play_count item) (rank item)))
      /\ (truthy (HASHTAG_API_URL env) = false -> DB w' = db').
Proof.
  intros env options w w' r Hrun Hsuccess.
  destruct (runPipeline_effect env options w)
    as (trends & w1 & Hscrape & res & w2 & Hrun' & _ & _ & _ & _ & _ & Hcases).
  rewrite Hrun in Hrun'. injection Hrun' as <- <-.
  destruct Hcases as [(_ & _ & [= ->])|[(_ & _ & e & [=] & _)
    |(Hne & history & tagRows & tags & n & db' & h & Hcase)]];
    [discriminate|].
  cbv zeta in Hcase.
  destruct Hcase
    as (Hhist & Htags & Hlen & Hshape & _ & _ & _ & Hbatch & Hh & [= ->]).
  exists trends, w1, history, tagRows, tags,
    (queuedStatements (historyMapOf history) (clock w1)
       (normalizeTrends trends) tags), db'.
  split_and!; try done.
  - by apply queuedStatements_length.
  - intros i item Hitem.
    destruct (Hshape i item Hitem) as ([g v] & Htag & Hprov).
    exists g, v. split; [done|]. split.
    + cbv zeta. unfold needsTags in Hprov.
      destruct (shouldTag _ _ && counterLt _ _); [|done].
      destruct Hprov as (wk & Hwk & Heq).
      exists wk, (taggerReply env wk (title item) (author item)).
      split; [done|]. split; [|done].
      destruct (tagAudioWithAI_run env (title item) (author item) wk)
        as (wk' & -> & _). done.
    + by apply (queuedStatements_lookup _ _ _ tags i item (g, v)).
  - intros Hurl. rewrite Hurl in Hh. by injection Hh as _ ->.
Qed.

(** X21.  A run that throws has written nothing of its own: the store is as
    the scrape left it, whatever tags the tagger returned in that run.
    The pipeline's own steps never touch a breaker or call a source. *)
Theorem runPipeline_failure_leaves_store :
  forall env options (w : World),
    exists trends w1,
      scrapeTikTokTrends env
        (mkScrapeOptions (opt_forceProxyGrid options)
           (opt_useStaleFallback options)) w
      = (Resolved trends, w1)
      /\ puppeteerBreaker (snd (runPipeline env options w))
         = puppeteerBreaker w1
      /\ proxyGridBreaker (snd (runPipeline env options w))
         = proxyGridBreaker w1
      /\ puppeteerCalls (snd (runPipeline env options w)) = puppeteerCalls w1
      /\ proxyGridCalls (snd (runPipeline env options w)) = proxyGridCalls w1
      /\ (forall e, fst (runPipeline env options w) = Rejected e ->
            DB (snd (runPipeline env options w)) = DB w1).
Proof.
  intros env options w.
  destruct (runPipeline_effect env options w)
    as (trends & w1 & Hscrape & res & w2 & -> & _ & ? & ? & ? & ? & Hcases).
  exists trends, w1. cbn [fst snd]. split_and!; try done.
  intros e ->.
  destruct Hcases as [(_ & _ & [=])|[(_ & ? & _)
    |(Hne & history & tagRows & tags & n & db' & h & Hcase)]]; [done|].
  cbv zeta in Hcase.
  by destruct Hcase as (_ & _ & _ & _ & _ & _ & _ & _ & _ & [=]).
Qed.

End PipelineEffects.

(** Ten stored rows served with [useStaleFallback]: a success of ten
    items. *)
Lemma runPipeline_success_shape_witness :
  exists r w',
    runPipeline (runtime := decimalRuntime)
      (world := memCollaborators [] []) exampleEnv staleOptions
      (memWorld [] [] (memStore staleTen false))
    = (Resolved r, w')
    /\ status r = Status.success
    /\ (1 <= count r <= 50)%nat
    /\ (exists t, top_song r = Some (Some t))
    /\ message r = None
    /\ (tags_generated r <= count r)%nat
    /\ (tags_generated r = 0%nat
        \/ counterLt (tags_generated r - 1)
             (parseTagLimit (runtime := decimalRuntime)
                (AI_TAG_LIMIT exampleEnv)) = true)
    /\ tagCalls w'
       = (tagCalls (memWorld [] [] (memStore staleTen false))
          + tags_generated r)%nat
    /\ (exists h, hashtag_ingest r = Some h)
    /\ (truthy (HASHTAG_API_URL exampleEnv) = false ->
        hashtag_ingest r = Some HashtagSkipped).
Proof.
  eexists _, _. split; [vm_compute; reflexivity|].
  split; [reflexivity|].
  eapply (@runPipeline_success_shape decimalRuntime
            (memCollaborators [] []) exampleEnv staleOptions
            (memWorld [] [] (memStore staleTen false))).
  - vm_compute. reflexivity.
  - reflexivity.
Defined.

(** Every source failing over an empty store. *)
Lemma runPipeline_warning_is_empty_acquisition_witness :
  exists r w',
    runPipeline (runtime := decimalRuntime)
      (world := memCollaborators [] []) exampleEnv defaultOptions
      (memWorld [] [] (memStore [] false))
    = (Resolved r, w')
    /\ status r = Status.warning
    /\ message r = Some "No trends found, using stale data fallback"
    /\ count r = 0%nat
    /\ source r = Some stale
    /\ DB w' = DB (memWorld [] [] (memStore [] false))
    /\ tagCalls w' = tagCalls (memWorld [] [] (memStore [] false)).
Proof.
  eexists _, _. split; [vm_compute; reflexivity|].
  split; [reflexivity|].
  edestruct (@runPipeline_warning_is_empty_acquisition decimalRuntime
               (memCollaborators [] []) exampleEnv defaultOptions
               (memWorld [] [] (memStore [] false)))
    as (_ & Hm & _ & Hc & Hs & Hdb & Htc).
  - vm_compute. reflexivity.
  - reflexivity.
  - split_and!; [exact Hm|exact Hc|exact Hs|exact Hdb|exact Htc].
Defined.

(** One scraped item, stored by one batch of two statements. *)
Lemma runPipeline_batch_layout_witness :
  exists r w',
    runPipeline (runtime := decimalRuntime)
      (world := memCollaborators [Resolved [ex_a]] []) exampleEnv
      defaultOptions (memWorld [Resolved [ex_a]] [] (memStore [] false))
    = (Resolved r, w')
    /\ status r = Status.success
    /\ exists trends w1 statements db',
         scrapeTikTokTrends (world := memCollaborators [Resolved [ex_a]] [])
           exampleEnv (mkScrapeOptions false false)
           (memWorld [Resolved [ex_a]] [] (memStore [] false))
         = (Resolved trends, w1)
         /\ batch statements (DB w1) = Resolved db'
         /\ length statements = (2 * count r)%nat.
Proof.
  eexists _, _. split; [vm_compute; reflexivity|].
  split; [reflexivity|].
  edestruct (@runPipeline_batch_layout decimalRuntime
               (memCollaborators [Resolved [ex_a]] []) exampleEnv
               defaultOptions
               (memWorld [Resolved [ex_a]] [] (memStore [] false)))
    as (trends & w1 & history & tagRows & tags & statements & db' & Hs & _ & _
        & Hb & Hl & _).
  - vm_compute. reflexivity.
  - reflexivity.
  - exists trends, w1, statements, db'. split_and!; [exact Hs|exact Hb|exact Hl].
Defined.

(** ** Tagging fallback and lookup tables *)

Section TaggingFallback.
Context {runtime : JSRuntime} {world : Collaborators}.

Lemma heuristicTags_vibe title author :
  In (vibe (heuristicTags title author)) heuristicVibes.
Proof.
  unfold heuristicTags. cbn [vibe].
  destruct (List.find _ FALLBACK_KEYWORDS) as [item|] eqn:Hfind.
  - apply find_some in Hfind as [Hin _]. unfold FALLBACK_KEYWORDS in Hin.
    simpl in Hin. unfold heuristicVibes.
    repeat (destruct Hin as [<-|Hin]; [simpl; tauto|]). done.
  - simpl. tauto.
Qed.

(** X22.  The keyword heuristic always answers genre "unknown", with a vibe
    from a fixed list, "sad" whenever the lower-cased title and author
    contain "sad"; so an item tagged by it still needs tags.  The tagger
    answers with the heuristic when no AI binding is configured and when
    the classification throws, and it counts as a call either way. *)
Theorem heuristic_tags_still_need_tagging :
  forall (env : Env) (title author : string) (w : World),
    genre (heuristicTags title author) = "unknown"
    /\ In (vibe (heuristicTags title author)) heuristicVibes
    /\ (includes "sad" (toLowerCase (title +:+ " " +:+ author)) = true ->
        vibe (heuristicTags title author) = "sad")
    /\ shouldTag (Some (genre (heuristicTags title author)))
         (Some (vibe (heuristicTags title author))) = true
    /\ (AI env = false \/
        (exists e, aiClassify (tagCalls w) title author = Rejected e) ->
        fst (tagAudioWithAI env title author w)
        = Resolved (heuristicTags title author)
        /\ tagCalls (snd (tagAudioWithAI env title author w))
           = S (tagCalls w)).
Proof.
  intros env title author w. split_and!.
  - reflexivity.
  - apply heuristicTags_vibe.
  - intros Hsad. unfold heuristicTags. cbn [vibe FALLBACK_KEYWORDS List.find fst].
    by rewrite Hsad.
  - reflexivity.
  - intros Hfallback. unfold tagAudioWithAI.
    destruct (AI env); cbn [negb]; [|done].
    destruct Hfallback as [?|[e He]]; [done|]. by rewrite He.
Qed.

(** X23.  The two lookups of the pipeline ask the store nothing for an empty
    list of ids; otherwise they pass on a store error, and index the rows
    they get by id, a later row replacing an earlier one with the same
    id. *)
Theorem lookup_tables_last_row_wins :
  forall (ids : list string) (w : World),
    (ids = [] ->
     getLatestHistoryMap ids w = (Resolved ∅, w)
     /\ getExistingTagMap ids w = (Resolved ∅, w))
    /\ (forall e, ids <> [] ->
          selectLatestHistory ids (DB w) = Rejected e ->
          getLatestHistoryMap ids w = (Rejected e, w))
    /\ (forall rows, ids <> [] ->
          selectLatestHistory ids (DB w) = Resolved (Some rows) ->
          exists m,
            getLatestHistoryMap ids w = (Resolved m, w)
            /\ forall k,
                 m !! k
                 = List.find (fun row => String.eqb (h_id row) k) (rev rows))
    /\ (forall rows, ids <> [] ->
          selectExistingTags ids (DB w) = Resolved (Some rows) ->
          exists m,
            getExistingTagMap ids w = (Resolved m, w)
            /\ forall k,
                 m !! k
                 = (fun row => (t_genre row, t_vibe row))
                   <$> List.find (fun row => String.eqb (t_id row) k)
                         (rev rows)).
Proof.
  intros ids w. split_and!.
  - by intros ->.
  - intros e Hne Hsel. by rewrite (getLatestHistoryMap_run _ _ Hne), Hsel.
  - intros rows Hne Hsel. rewrite (getLatestHistoryMap_run _ _ Hne), Hsel.
    eexists. split; [reflexivity|]. intros k. unfold historyMapOf. simpl.
    rewrite <- fold_left_rev_right.
    induction (rev rows) as [|row l IH]; simpl; [apply lookup_empty|].
    destruct (String.eqb_spec (h_id row) k) as [->|Hk].
    + apply lookup_insert_eq.
    + by rewrite lookup_insert_ne.
  - intros rows Hne Hsel. rewrite (getExistingTagMap_run _ _ Hne), Hsel.
    eexists. split; [reflexivity|]. intros k. unfold tagMapOf. simpl.
    rewrite <- fold_left_rev_right.
    induction (rev rows) as [|row l IH]; simpl; [apply lookup_empty|].
    destruct (String.eqb_spec (t_id row) k) as [->|Hk].
    + apply lookup_insert_eq.
    + by rewrite lookup_insert_ne.
Qed.

End TaggingFallback.

(** ** Cron bookkeeping *)

Lemma setTimer_entries key ttl now kv :
  cronEntry (setTimer key ttl now kv) = cronEntry kv
  /\ metricsEntry (setTimer key ttl now kv) = metricsEntry kv.
Proof. unfold setTimer. by destruct (ttl =? 0). Qed.

Lemma recordRun_cron kv run :
  let current := default CronExecution.initial (cronEntry kv) in
  cronEntry (recordRun kv run)
  = Some
      (if fst run
       then CronExecution.mk (snd run) (snd run) 0 0 1
              (CronExecution.totalRuns current + 1)
       else CronExecution.mk (snd run) (CronExecution.lastSuccess current)
              (snd run) (CronExecution.consecutiveFailures current + 1) 0
              (CronExecution.totalRuns current + 1)).
Proof. by destruct run as [[|] now]. Qed.

Lemma timers_none_due now (l : list (Z * KVKey)) :
  Forall (fun t => ~ fst t <= now) l ->
  filter (fun t => fst t <= now) l = []
  /\ filter (fun t => ~ fst t <= now) l = l.
Proof.
  induction 1 as [|t l Ht Hl [IH1 IH2]]; [done|].
  rewrite filter_cons_False, filter_cons_True by done.
  split; [done|]. by rewrite IH2.
Qed.

Lemma runTimers_nothing_due now kv :
  Forall (fun t => ~ fst t <= now) (timers kv) -> runTimers now kv = kv.
Proof.
  intros Hpending. unfold runTimers. cbv zeta.
  destruct (timers_none_due now (timers kv) Hpending) as [-> ->].
  by destruct kv.
Qed.

Lemma recordRun_timers kv run :
  timers (recordRun kv run)
  = timers kv ++ [(snd run + 86400000, CRON_EXECUTION_KEY)].
Proof. by destruct run as [[|] now]. Qed.

Lemma recordRuns_snoc runs run kv :
  recordRuns (runs ++ [run]) kv
  = recordRun (runTimers (snd run) (recordRuns runs kv)) run.
Proof. unfold recordRuns. by rewrite fold_left_app. Qed.

(** A series of runs within 24 h of its first run: no timer has run, every
    timer set is for the cron state and is due 24 h after the first run
    at the earliest, and the counters are those of the whole series. *)
Lemma recordRuns_within_ttl first runs :
  Forall (fun run => snd first <= snd run < snd first + 86400000) runs ->
  let kv := recordRuns (first :: runs) emptyKV in
  let final := List.last runs first in
  Forall (fun t => snd first + 86400000 <= fst t /\ snd t = CRON_EXECUTION_KEY)
    (timers kv)
  /\ (snd first + 86400000, CRON_EXECUTION_KEY) ∈ timers kv
  /\ exists c,
       cronEntry kv = Some c
       /\ CronExecution.totalRuns c = 1 + Z.of_nat (length runs)
       /\ CronExecution.consecutiveFailures c
          = trailingFailures (rev (first :: runs))
       /\ CronExecution.consecutiveSuccesses c = (if fst final then 1 else 0)
       /\ CronExecution.lastRun c = snd final
       /\ (fst final = true ->
           CronExecution.lastFailure c = 0
           /\ CronExecution.lastSuccess c = snd final).
Proof.
  induction runs as [|run runs IH] using rev_ind; intros Hwindow; cbv zeta.
  - unfold recordRuns. cbn [fold_left]. change (runTimers (snd first) emptyKV)
      with emptyKV. rewrite recordRun_timers, recordRun_cron.
    split_and!.
    + repeat constructor. simpl. lia.
    + simpl. rewrite elem_of_cons; by left.
    + eexists. split; [reflexivity|].
      destruct first as [[|] now]; simpl; split_and!; done.
  - apply Forall_app in Hwindow as [Hruns Hrun].
    apply Forall_cons in Hrun as [Hrun _].
    destruct (IH Hruns) as (Htimers & Hfirst & c & Hc & Htotal & Hfail & _).
    change (first :: runs ++ [run]) with ((first :: runs) ++ [run]).
    rewrite recordRuns_snoc, last_last.
    rewrite runTimers_nothing_due.
    2:{ eapply Forall_impl; [exact Htimers|]. intros t [Ht _]. simpl. lia. }
    rewrite recordRun_timers, recordRun_cron, Hc. split_and!.
    + apply Forall_app. split; [done|]. repeat constructor. simpl. lia.
    + apply elem_of_app. by left.
    + cbn [default]. eexists. split; [reflexivity|].
      rewrite length_app, rev_app_distr. change (rev [run]) with [run].
      cbn [length app]. unfold Datatypes.id.
      destruct run as [[|] now]; cbn [fst snd]; split_and!; try done;
        cbn [CronExecution.totalRuns CronExecution.consecutiveFailures
             trailingFailures fst] in *; lia.
Qed.

Lemma timers_delete_cron (due : list (Z * KVKey)) : forall kv,
  due <> [] ->
  Forall (fun t => snd t = CRON_EXECUTION_KEY) due ->
  cronEntry (fold_left (fun s t => kvDelete (snd t) s) due kv) = None.
Proof.
  induction due as [|t due IH]; intros kv Hne Hkeys; [done|].
  apply Forall_cons in Hkeys as [Ht Hkeys]. cbn [fold_left]. rewrite Ht.
  destruct due as [|t' due']; [done|].
  by apply IH.
Qed.

(** X24.  The cron state over a series of scheduled runs from an empty
    store, the timers due at each run having run before it.  While the
    runs stay within the 24 h after the first one, [totalRuns] counts the
    runs; [consecutiveFailures] is the number of failures at the end of
    the series; [consecutiveSuccesses] is 1 after a run that returned,
    however many returned in a row, and 0 after one that threw; a run
    that returned puts [lastFailure] back to 0.  A run 24 h or more
    after the first one finds the state deleted by the timer of the first
    write and starts again: [totalRuns] is 1 after it. *)
Theorem cron_counters_after_runs :
  forall (first : bool * Z) (runs : list (bool * Z)),
    Forall (fun run => snd first <= snd run < snd first + 86400000) runs ->
    let final := List.last runs first in
    (exists c,
       cronEntry (recordRuns (first :: runs) emptyKV) = Some c
       /\ CronExecution.totalRuns c = 1 + Z.of_nat (length runs)
       /\ CronExecution.consecutiveFailures c
          = trailingFailures (rev (first :: runs))
       /\ CronExecution.consecutiveSuccesses c = (if fst final then 1 else 0)
       /\ CronExecution.lastRun c = snd final
       /\ (fst final = true ->
           CronExecution.lastFailure c = 0
           /\ CronExecution.lastSuccess c = snd final))
    /\ (forall later : bool * Z,
          snd first + 86400000 <= snd later ->
          exists c,
            cronEntry (recordRuns (first :: runs ++ [later]) emptyKV) = Some c
            /\ CronExecution.totalRuns c = 1
            /\ CronExecution.consecutiveFailures c
               = (if fst later then 0 else 1)
            /\ CronExecution.lastRun c = snd later).
Proof.
  intros first runs Hwindow final.
  destruct (recordRuns_within_ttl first runs Hwindow)
    as (Htimers & Hfirst & Hcounters).
  split; [exact Hcounters|].
  intros later Hlater.
  change (first :: runs ++ [later]) with ((first :: runs) ++ [later]).
  rewrite recordRuns_snoc.
  set (kv := recordRuns (first :: runs) emptyKV) in *.
  assert (Hgone : cronEntry (runTimers (snd later) kv) = None).
  { unfold runTimers. cbv zeta. apply timers_delete_cron.
    - intros Hnone.
      assert (Hin : (snd first + 86400000, CRON_EXECUTION_KEY)
                    ∈ filter (fun t : Z * KVKey => fst t <= snd later)
                        (timers kv))
        by (apply list_elem_of_filter; split; [simpl; lia|done]).
      rewrite Hnone in Hin. by apply elem_of_nil in Hin.
    - apply Forall_forall. intros t Ht.
      apply list_elem_of_filter in Ht as [_ Ht].
      rewrite Forall_forall in Htimers. by apply Htimers. }
  rewrite recordRun_cron, Hgone. cbn [default]. eexists. split; [reflexivity|].
  destruct later as [[|] now]; simpl; split_and!; done.
Qed.

(** Three runs within a day, the second failing, and a fourth run a day
    after the first. *)
Lemma cron_counters_after_runs_witness :
  (exists c,
     cronEntry (recordRuns [(true, 0); (false, 3600000); (true, 7200000)]
                  emptyKV) = Some c
     /\ CronExecution.totalRuns c = 3
     /\ CronExecution.consecutiveFailures c = 0
     /\ CronExecution.consecutiveSuccesses c = 1
     /\ CronExecution.lastRun c = 7200000)
  /\ exists c,
       cronEntry (recordRuns [(true, 0); (false, 3600000); (true, 7200000);
                              (true, 86400000)] emptyKV) = Some c
       /\ CronExecution.totalRuns c = 1.
Proof.
  destruct (cron_counters_after_runs (true, 0)
              [(false, 3600000); (true, 7200000)])
    as [(c & Hc & Ht & Hf & Hs & Hl & _) Hlater].
  - repeat constructor; simpl; lia.
  - split.
    + exists c. split_and!; [exact Hc|exact Ht|exact Hf|exact Hs|exact Hl].
    + destruct (Hlater (true, 86400000)) as (c' & Hc' & Ht' & _).
      * simpl. lia.
      * exists c'. split; [exact Hc'|exact Ht'].
Defined.

Lemma filter_succeeded_snoc l m :
  List.filter succeeded (l ++ [m])
  = List.filter succeeded l ++ (if succeeded m then [m] else []).
Proof. rewrite List.filter_app. simpl. by destruct (succeeded m). Qed.

Lemma metricsConsistent_fresh today : metricsConsistent (DailyMetrics.fresh today).
Proof. by unfold metricsConsistent. Qed.

(** X25.  Recording a run in the metrics of the day: the document stored
    afterwards is dated today and ends with the run just recorded, after
    the runs already stored for today, or alone when the stored document
    was of another day.  Its counters agree with its list of runs:
    [totalRuns] is the number of runs, [successCount] the number of them
    with status "success", [failureCount] the number of all others,
    "partial" included.  The cron state is not touched. *)
Theorem recordMetrics_keeps_counters_consistent :
  forall (today : string) (now : Z) (metrics : PipelineMetrics.t) (kv : KV),
    match metricsEntry kv with
    | Some stored => metricsConsistent stored
    | None => True
    end ->
    exists d,
      metricsEntry (recordMetrics today now metrics kv) = Some d
      /\ metricsConsistent d
      /\ DailyMetrics.date d = today
      /\ DailyMetrics.executions d
         = match metricsEntry kv with
           | Some stored =>
               if String.eqb (DailyMetrics.date stored) today
               then DailyMetrics.executions stored else []
           | None => []
           end ++ [metrics]
      /\ DailyMetrics.failureCount d
         = Z.of_nat (length (DailyMetrics.executions d))
           - Z.of_nat
               (length (List.filter succeeded (DailyMetrics.executions d)))
      /\ cronEntry (recordMetrics today now metrics kv) = cronEntry kv.
Proof.
  intros today now metrics kv Hstored. unfold recordMetrics. cbv zeta.
  match goal with
  | |- context [setTimer ?k ?t ?n ?s] =>
      destruct (setTimer_entries k t n s) as [Hcron Hmetrics]
  end.
  rewrite Hcron, Hmetrics. cbn [cronEntry metricsEntry].
  eexists. split; [reflexivity|].
  set (stored := default (DailyMetrics.fresh today) (metricsEntry kv)).
  assert (Hs : metricsConsistent stored).
  { subst stored. destruct (metricsEntry kv); [done|].
    apply metricsConsistent_fresh. }
  assert (Hdaily :
    exists daily,
      (if negb (String.eqb (DailyMetrics.date stored) today)
       then DailyMetrics.fresh today else stored) = daily
      /\ metricsConsistent daily /\ DailyMetrics.date daily = today
      /\ DailyMetrics.executions daily
         = match metricsEntry kv with
           | Some stored =>
               if String.eqb (DailyMetrics.date stored) today
               then DailyMetrics.executions stored else []
           | None => []
           end).
  { subst stored.
    destruct (metricsEntry kv) as [stored|]; simpl (default _ _) in *.
    - destruct (String.eqb (DailyMetrics.date stored) today) eqn:Hd;
        cbn [negb]; eexists; (split; [reflexivity|]); split_and!; try done.
      by apply String.eqb_eq.
    - cbn [DailyMetrics.fresh DailyMetrics.date]. rewrite String.eqb_refl.
      eexists; split; [reflexivity|]. split_and!; done. }
  destruct Hdaily as (daily & -> & (Ht & Hsc & Hsum) & Hdate & Hex).
  cbn [DailyMetrics.date DailyMetrics.executions DailyMetrics.failureCount].
  rewrite <- Hex.
  assert (Hcons : metricsConsistent
    {| DailyMetrics.date := DailyMetrics.date daily;
       DailyMetrics.executions := DailyMetrics.executions daily ++ [metrics];
       DailyMetrics.totalRuns := DailyMetrics.totalRuns daily + 1;
       DailyMetrics.successCount :=
         if succeeded metrics then DailyMetrics.successCount daily + 1
         else DailyMetrics.successCount daily;
       DailyMetrics.failureCount :=
         if succeeded metrics then DailyMetrics.failureCount daily
         else DailyMetrics.failureCount daily + 1;
       DailyMetrics.averageDuration :=
         average PipelineMetrics.duration
           (DailyMetrics.executions daily ++ [metrics]);
       DailyMetrics.averageItemCount :=
         average (fun m => Z.of_nat (PipelineMetrics.itemCount m))
           (DailyMetrics.executions daily ++ [metrics]) |}).
  { unfold metricsConsistent.
    cbn [DailyMetrics.executions DailyMetrics.totalRuns
         DailyMetrics.successCount DailyMetrics.failureCount].
    rewrite filter_succeeded_snoc, !length_app. cbn [length].
    destruct (succeeded metrics); cbn [length]; lia. }
  split_and!; try done.
  destruct Hcons as (Hc1 & Hc2 & Hc3).
  cbn [DailyMetrics.executions DailyMetrics.totalRuns
       DailyMetrics.successCount DailyMetrics.failureCount] in *.
  destruct (succeeded metrics); lia.
Qed.

Lemma recordMetrics_keeps_counters_consistent_witness :
  exists d,
    metricsEntry
      (recordMetrics "2026-01-01" 5
         (PipelineMetrics.mk 5 3 MetricStatus.partial 0 0 stale None) emptyKV)
    = Some d
    /\ metricsConsistent d
    /\ DailyMetrics.failureCount d = 1.
Proof.
  destruct (recordMetrics_keeps_counters_consistent "2026-01-01" 5
              (PipelineMetrics.mk 5 3 MetricStatus.partial 0 0 stale None)
              emptyKV I) as (d & Hd & Hcons & _ & Hex & Hf & _).
  exists d. split_and!; [exact Hd|exact Hcons|].
  rewrite Hf, Hex. reflexivity.
Defined.

Lemma recordMetrics_last today now metrics kv :
  exists d,
    metricsEntry (recordMetrics today now metrics kv) = Some d
    /\ last (DailyMetrics.executions d) = Some metrics
    /\ cronEntry (recordMetrics today now metrics kv) = cronEntry kv.
Proof.
  unfold recordMetrics. cbv zeta.
  match goal with
  | |- context [setTimer ?k ?t ?n ?s] =>
      destruct (setTimer_entries k t n s) as [Hcron Hmetrics]
  end.
  rewrite Hcron, Hmetrics. cbn [cronEntry metricsEntry].
  eexists. split; [reflexivity|]. split; [|done].
  cbn [DailyMetrics.executions]. apply last_snoc.
Qed.

Section ScheduledRuns.
Context {runtime : JSRuntime} {world : Collaborators} {calendar : JSDate}.

(** X26.  Every scheduled run is recorded once in the cron state and once,
    last, in the metrics of the day.  A run whose pipeline returned counts
    as a cron success (no consecutive failure, [lastFailure] 0) whatever
    the status of its result, while the metrics count it as a success
    only for status "success": a run that returned a warning is recorded
    as "partial".  A run whose pipeline threw adds one consecutive
    failure and is recorded as "error" with the message thrown. *)
Theorem scheduled_records_every_run :
  forall (env : Env) (w : World) (kv : KV),
    let before := default CronExecution.initial (cronEntry kv) in
    let after := snd (scheduled env (w, kv)) in
    exists c d m,
      cronEntry after = Some c
      /\ metricsEntry after = Some d
      /\ last (DailyMetrics.executions d) = Some m
      /\ CronExecution.totalRuns c = CronExecution.totalRuns before + 1
      /\ match fst (runPipeline env (mkPipelineOptions true false false false)
                     w) with
         | Resolved r =>
             CronExecution.consecutiveFailures c = 0
             /\ CronExecution.consecutiveSuccesses c = 1
             /\ CronExecution.lastFailure c = 0
             /\ (succeeded m = true <-> status r = Status.success)
             /\ (status r = Status.warning ->
                 PipelineMetrics.status m = MetricStatus.partial)
             /\ PipelineMetrics.itemCount m = count r
             /\ PipelineMetrics.tagsGenerated m = tags_generated r
             /\ PipelineMetrics.errorMessage m = None
         | Rejected e =>
             CronExecution.consecutiveFailures c
             = CronExecution.consecutiveFailures before + 1
             /\ CronExecution.consecutiveSuccesses c = 0
             /\ CronExecution.lastSuccess c = CronExecution.lastSuccess before
             /\ PipelineMetrics.status m = MetricStatus.error
             /\ PipelineMetrics.itemCount m = 0%nat
             /\ PipelineMetrics.errorMessage m = Some e
         end.
Proof.
  intros env w kv before after. subst after. unfold scheduled.
  destruct (runPipeline env (mkPipelineOptions true false false false) w)
    as [[r|e] w'] eqn:Hrun; cbn [fst snd]; cbv zeta.
  - match goal with
    | |- context [recordMetrics ?t ?n ?m ?s] =>
        destruct (recordMetrics_last t n m s) as (d & Hd & Hlast & Hcron)
    end.
    pose proof (recordRun_cron kv (true, clock w')) as Hc.
    cbn [recordRun fst snd] in Hc. cbv zeta in Hc.
    rewrite Hcron, Hc. eexists _, d, _.
    split; [reflexivity|]. split; [exact Hd|]. split; [exact Hlast|].
    unfold succeeded. cbn. split_and!; try done.
    + by destruct (status r).
    + by intros ->.
  - match goal with
    | |- context [recordMetrics ?t ?n ?m ?s] =>
        destruct (recordMetrics_last t n m s) as (d & Hd & Hlast & Hcron)
    end.
    pose proof (recordRun_cron kv (false, clock w')) as Hc.
    cbn [recordRun fst snd] in Hc. cbv zeta in Hc.
    rewrite Hcron, Hc. eexists _, d, _.
    split; [reflexivity|]. split; [exact Hd|]. split; [exact Hlast|].
    cbn. split_and!; done.
Qed.

End ScheduledRuns.

(** X27.  The time to live of an entry is not renewed by a later write: each
    write sets its own timer and none is cancelled.  A cron state entry
    at [first] and entry again at [second], less than 24 h later, is
    deleted when the timer of the first write runs, 24 h after [first];
    the timer of the second write is still pending then. *)
Theorem kv_entry_expires_with_its_first_write :
  forall (first second : Z) (update1 update2 : CronUpdate.t),
    first < second < first + 86400000 ->
    let entry :=
      recordCronExecution second update2
        (recordCronExecution first update1 emptyKV) in
    cronEntry entry <> None
    /\ runTimers second entry = entry
    /\ cronEntry (runTimers (first + 86400000) entry) = None
    /\ timers (runTimers (first + 86400000) entry)
       = [(second + 86400000, CRON_EXECUTION_KEY)].
Proof.
  intros first second update1 update2 Horder entry.
  assert (Htimers : timers entry
                    = [(first + 86400000, CRON_EXECUTION_KEY);
                       (second + 86400000, CRON_EXECUTION_KEY)])
    by reflexivity.
  assert (Hentry : exists c, cronEntry entry = Some c)
    by (eexists; reflexivity).
  destruct Hentry as [c Hentry].
  assert (Hdue :
    filter (fun t : Z * KVKey => fst t <= first + 86400000) (timers entry)
    = [(first + 86400000, CRON_EXECUTION_KEY)]).
  { rewrite Htimers, !filter_cons, filter_nil. cbn [fst].
    destruct (decide (first + 86400000 <= first + 86400000)); [|exfalso; lia].
    destruct (decide (second + 86400000 <= first + 86400000));
      [exfalso; lia|done]. }
  assert (Hpending :
    filter (fun t : Z * KVKey => ~ fst t <= first + 86400000) (timers entry)
    = [(second + 86400000, CRON_EXECUTION_KEY)]).
  { rewrite Htimers, !filter_cons, filter_nil. cbn [fst].
    destruct (decide (~ first + 86400000 <= first + 86400000));
      [exfalso; lia|].
    destruct (decide (~ second + 86400000 <= first + 86400000));
      [done|exfalso; lia]. }
  split_and!.
  - by rewrite Hentry.
  - apply runTimers_nothing_due. rewrite Htimers.
    repeat constructor; cbn [fst]; lia.
  - unfold runTimers. cbv zeta. rewrite Hdue, Hpending. reflexivity.
  - unfold runTimers. cbv zeta. rewrite Hdue, Hpending. reflexivity.
Qed.

Lemma kv_entry_expires_with_its_first_write_witness :
  let entry :=
    recordCronExecution 3600000 (successUpdate 3600000)
      (recordCronExecution 0 (successUpdate 0) emptyKV) in
  cronEntry entry <> None
  /\ runTimers 3600000 entry = entry
  /\ cronEntry (runTimers (0 + 86400000) entry) = None
  /\ timers (runTimers (0 + 86400000) entry)
     = [(3600000 + 86400000, CRON_EXECUTION_KEY)].
Proof.
  apply (kv_entry_expires_with_its_first_write 0 3600000
           (successUpdate 0) (successUpdate 3600000)).
  lia.
Defined.

(** ** Requests *)

(** X28.  Who may trigger the pipeline and read the metrics, and who may use
    the API.  With a secret configured, a request is authorized exactly by
    the header "Bearer <secret>" or by the query parameter [secret]
    carrying it; with no secret configured, the header "Bearer undefined"
    is accepted.  The API accepts nothing while its token is missing or
    empty, and otherwise exactly the header "Bearer <token>" or the query
    parameter [key] carrying the token. *)
Theorem authorization_rules :
  forall (request : Request),
    (forall secret,
       isAuthorized request (Some secret) = true <->
       authorization request = Some ("Bearer " +:+ secret)
       \/ searchParam request "secret" = Some secret)
    /\ (isAuthorized request None = true <->
        authorization request = Some "Bearer undefined")
    /\ isApiAuthorized request None = false
    /\ isApiAuthorized request (Some EmptyString) = false
    /\ (forall token, token <> EmptyString ->
          (isApiAuthorized request (Some token) = true <->
           authorization request = Some ("Bearer " +:+ token)
           \/ searchParam request "key" = Some token)).
Proof.
  intros request. split_and!.
  - intros secret. unfold isAuthorized, interpolate. cbn [default].
    unfold Datatypes.id.
    destruct (bool_decide_reflect
                (authorization request = Some ("Bearer " +:+ secret)));
      [tauto|].
    destruct (searchParam request "secret") as [s|].
    + rewrite bool_decide_eq_true. split; [intros [= ->]; by right|].
      intros [?|[= ->]]; done.
    + split; [done|]. intros [?|?]; done.
  - unfold isAuthorized, interpolate. cbn [default].
    destruct (bool_decide_reflect
                (authorization request = Some ("Bearer " +:+ "undefined")));
      [tauto|].
    destruct (searchParam request "secret") as [s|]; [|done].
    rewrite bool_decide_eq_true. done.
  - reflexivity.
  - reflexivity.
  - intros token Htoken. unfold isApiAuthorized, interpolate, truthy.
    cbn [default]. unfold Datatypes.id.
    destruct (String.eqb_spec token EmptyString); [done|]. cbn [negb].
    destruct (bool_decide_reflect
                (authorization request = Some ("Bearer " +:+ token)));
      [tauto|].
    destruct (searchParam request "key") as [s|].
    + rewrite bool_decide_eq_true. split; [intros [= ->]; by right|].
      intros [?|[= ->]]; done.
    + split; [done|]. intros [?|?]; done.
Qed.

Section LimitRules.
Context {runtime : JSRuntime}.

Lemma jsLt_min_cap x : jsLt (ofZ 100) (jsMin x (ofZ 100)) = false.
Proof.
  destruct x as [|[|]|q]; try reflexivity. unfold ofZ, jsMin.
  destruct (Qle_bool q (inject_Z 100)) eqn:Hle; cbn [jsLt].
  - by rewrite Hle.
  - reflexivity.
Qed.

(** X29.  The limit of the trends endpoint.  The value is capped at 100
    before it is checked, so the check against 100 never fires: a request
    for more than 100 is served with a limit of 100.  What is bound to the
    query is a number from 1 to 100, or NaN when the parameter does not
    read as a number; what is refused is a number below 1. *)
Theorem trendsLimit_range :
  forall (request : Request),
    let asked := StringToNumber (default "50" (searchParam request "limit")) in
    jsLt (ofZ 100) (jsMin asked (ofZ 100)) = false
    /\ match trendsLimit request with
       | inl limit =>
           limit = jsMin asked (ofZ 100)
           /\ (limit = NaN \/ exists q, limit = Num q /\ (1 <= q <= 100)%Q)
       | inr _ => jsLt asked (ofZ 1) = true
       end
    /\ (jsLt (ofZ 100) asked = true -> trendsLimit request = inl (ofZ 100)).
Proof.
  intros request asked. split; [apply jsLt_min_cap|].
  unfold trendsLimit. fold asked. rewrite jsLt_min_cap, orb_false_r.
  destruct asked as [|[|]|q]; cbn; try (split; [tauto|done]).
  - split; [|done]. split; [done|]. right. exists (inject_Z 100).
    split; [done|]. split; done.
  - unfold ofZ. destruct (Qle_bool q (inject_Z 100)) eqn:Hcap; cbn [jsLt].
    + destruct (Qle_bool (inject_Z 1) q) eqn:Hlow; cbn [negb].
      * split; [|done].
        split; [done|]. right. exists q. split; [done|].
        apply Qle_bool_iff in Hcap, Hlow. done.
      * split; done.
    + change (Qle_bool (inject_Z 1) (inject_Z 100)) with true. cbn [negb].
      split; [|done]. split; [done|]. right. exists (inject_Z 100).
      split; [done|]. split; done.
Qed.
End LimitRules.

(** ** Slugs *)

Lemma dashRuns_chars inRun s :
  Forall (fun c => isSlugChar c = true \/ c = dash) (dashRuns inRun s).
Proof.
  revert inRun. induction s as [|c r IH]; intros inRun; simpl; [constructor|].
  destruct (isSlugChar c) eqn:Hc; [constructor; auto|].
  destruct inRun; [apply IH|]. constructor; auto.
Qed.

Lemma isSlugChar_dash : isSlugChar dash = false.
Proof. reflexivity. Qed.

Lemma dashRuns_head inRun s :
  inRun = true -> head (dashRuns inRun s) <> Some dash.
Proof.
  intros ->. induction s as [|c r IH]; simpl; [done|].
  destruct (isSlugChar c) eqn:Hc; [|exact IH].
  simpl. intros [= ->]. by rewrite isSlugChar_dash in Hc.
Qed.

Lemma noDoubleDash_cons c s :
  noDoubleDash (c :: s)
  <-> (c = dash -> head s <> Some dash) /\ noDoubleDash s.
Proof.
  destruct s as [|d r]; simpl.
  - split; [done|tauto].
  - split.
    + intros [Hn Hr]. split; [|done]. intros -> [= ->]. tauto.
    + intros [Hn Hr]. split; [|done]. intros [-> ->]. by apply Hn.
Qed.

Lemma dashRuns_noDoubleDash inRun s : noDoubleDash (dashRuns inRun s).
Proof.
  revert inRun. induction s as [|c r IH]; intros inRun; simpl; [done|].
  destruct (isSlugChar c) eqn:Hc.
  - apply noDoubleDash_cons. split; [|apply IH].
    intros ->. by rewrite isSlugChar_dash in Hc.
  - destruct inRun; [apply IH|].
    apply noDoubleDash_cons. split; [|apply IH].
    intros _. by apply dashRuns_head.
Qed.

Lemma dropDashes_suffix s : exists p, s = p ++ dropDashes s.
Proof.
  induction s as [|c r [p Hp]]; simpl; [by exists []|].
  destruct (Ascii.eqb c dash); [|by exists []].
  exists (c :: p). simpl. by f_equal.
Qed.

Lemma dropDashes_head s : head (dropDashes s) <> Some dash.
Proof.
  induction s as [|c r IH]; simpl; [done|].
  destruct (Ascii.eqb_spec c dash); [done|]. simpl. congruence.
Qed.

Lemma noDoubleDash_app_r p s : noDoubleDash (p ++ s) -> noDoubleDash s.
Proof.
  induction p as [|c p IH]; simpl app; [done|].
  intros H. apply noDoubleDash_cons in H as [_ H]. by apply IH.
Qed.

Lemma noDoubleDash_app_l p s : noDoubleDash (p ++ s) -> noDoubleDash p.
Proof.
  induction p as [|c p IH]; simpl app; [done|].
  intros H. apply noDoubleDash_cons in H as [Hc H].
  apply noDoubleDash_cons. split; [|by apply IH].
  intros Hd. specialize (Hc Hd). destruct p; [done|]. exact Hc.
Qed.

Lemma trimDashes_spec s :
  Forall (fun c => isSlugChar c = true \/ c = dash) s ->
  noDoubleDash s ->
  Forall (fun c => isSlugChar c = true \/ c = dash) (trimDashes s)
  /\ noDoubleDash (trimDashes s)
  /\ head (trimDashes s) <> Some dash
  /\ last (trimDashes s) <> Some dash.
Proof.
  intros Hchars Hnd. unfold trimDashes.
  destruct (dropDashes_suffix s) as [p Hp].
  set (s1 := dropDashes s) in *.
  destruct (dropDashes_suffix (reverse s1)) as [q Hq].
  set (s2 := dropDashes (reverse s1)) in *.
  assert (Hs1 : s1 = reverse s2 ++ reverse q).
  { apply (f_equal reverse) in Hq.
    by rewrite reverse_involutive, reverse_app in Hq. }
  split_and!.
  - rewrite Hp, Hs1 in Hchars.
    apply Forall_app in Hchars as [_ Hchars].
    by apply Forall_app in Hchars as [Hchars _].
  - rewrite Hp in Hnd. apply noDoubleDash_app_r in Hnd.
    rewrite Hs1 in Hnd. by apply noDoubleDash_app_l in Hnd.
  - pose proof (dropDashes_head s) as Hhead. fold s1 in Hhead.
    rewrite Hs1 in Hhead. destruct (reverse s2) as [|c r] eqn:Hr; [done|].
    exact Hhead.
  - pose proof (dropDashes_head (reverse s1)) as Hlast. fold s2 in Hlast.
    by rewrite last_reverse.
Qed.

Lemma dropDashes_nil s : dropDashes s = [] <-> Forall (fun c => c = dash) s.
Proof.
  induction s as [|c r IH]; simpl; [by split|].
  destruct (Ascii.eqb_spec c dash) as [->|Hc].
  - rewrite IH. split; [by constructor|]. by intros [_ ?]%Forall_cons.
  - split; [done|]. by intros [? _]%Forall_cons.
Qed.

Lemma trimDashes_nil s : trimDashes s = [] <-> Forall (fun c => c = dash) s.
Proof.
  unfold trimDashes. rewrite <- dropDashes_nil. split.
  - intros Hnil. apply (f_equal reverse) in Hnil.
    rewrite reverse_involutive, reverse_nil in Hnil.
    apply dropDashes_nil in Hnil. rewrite Forall_reverse in Hnil.
    pose proof (dropDashes_head s) as Hhead.
    destruct (dropDashes s) as [|c r]; [done|].
    apply Forall_cons in Hnil as [-> _]. done.
  - by intros ->.
Qed.

Lemma dashRuns_all_dashes inRun s :
  Forall (fun c => c = dash) (dashRuns inRun s)
  <-> Forall (fun c => isSlugChar c = false) s.
Proof.
  revert inRun. induction s as [|c r IH]; intros inRun; simpl; [by split|].
  destruct (isSlugChar c) eqn:Hc.
  - split.
    + intros [-> _]%Forall_cons. by rewrite isSlugChar_dash in Hc.
    + intros [Hc' _]%Forall_cons. congruence.
  - destruct inRun.
    + rewrite IH. split; [by constructor|]. by intros [_ ?]%Forall_cons.
    + rewrite Forall_cons, IH. split; [intros [_ ?]; by constructor|].
      by intros [_ ?]%Forall_cons.
Qed.

Section SlugRules.
Context {runtime : JSRuntime}.

(** X30.  A slug holds lower-case letters, digits and dashes only, at most 64
    of them; it does not begin with a dash and has no two dashes in a
    row.  It does not end with a dash either unless it was cut at 64
    characters: the dashes are trimmed before the cut.  It is empty
    exactly when the lower-cased value has no letter and no digit. *)
Theorem slugify_shape :
  forall (value : string),
    let slug := list_ascii_of_string (slugify value) in
    Forall (fun c => isSlugChar c = true \/ c = dash) slug
    /\ (length slug <= 64)%nat
    /\ head slug <> Some dash
    /\ noDoubleDash slug
    /\ ((length slug < 64)%nat -> last slug <> Some dash)
    /\ (slug = []
        <-> Forall (fun c => isSlugChar c = false)
              (list_ascii_of_string (toLowerCase value))).
Proof.
  intros value slug. subst slug. unfold slugify.
  rewrite list_ascii_of_string_of_list_ascii.
  set (lowered := list_ascii_of_string (toLowerCase value)).
  destruct (trimDashes_spec (dashRuns false lowered)
              (dashRuns_chars false lowered)
              (dashRuns_noDoubleDash false lowered))
    as (Hchars & Hnd & Hhead & Hlast).
  set (trimmed := trimDashes (dashRuns false lowered)) in *.
  split_and!.
  - apply Forall_take. exact Hchars.
  - rewrite length_take. lia.
  - destruct trimmed; simpl; [done|]. exact Hhead.
  - rewrite <- (take_drop 64 trimmed) in Hnd.
    by apply noDoubleDash_app_l in Hnd.
  - intros Hshort. rewrite length_take in Hshort.
    rewrite take_ge by lia. exact Hlast.
  - rewrite <- (dashRuns_all_dashes false lowered), <- trimDashes_nil.
    fold trimmed. split; [|by intros ->].
    destruct trimmed; [done|]. simpl. done.
Qed.
End SlugRules.
